(** * Extraction orchestration pipeline of the BAML content-extraction service

    A shallow embedding of the algorithmic core of
    [services/baml-service/src]: the in-process cache ([cache_service.py]),
    the confidence scorer ([validation_service.py]), the response parser and
    the batch fan-out ([extraction_service.py]) and the retrying provider
    client ([openai_service.py]), with the properties the specification
    states about them.

    Conventions.
    - Python objects that are mutated in place are modelled by explicit state
      passing; a method that may raise returns an [outcome] together with the
      state it leaves behind.
    - Python [str] is [string] (ASCII text), [int] is [Z], [None] is the
      [None] of an [option].
    - Clock readings and confidence scores, which are Python floats, are
      modelled by exact rationals ([Q]).  Every intermediate sum of the event
      and company rubrics is a multiple of 1/2 far below 2^53, hence exact in
      binary64 as well; only the final quotient is rounded there, and
      rounding keeps the order of two quotients.
    - Library code the service calls (the SHA-256 digest, the HTML printer,
      [json.loads], the provider's SDK, [asyncio.gather], the retry
      decorator, [strptime], regular expressions) is either a parameter of
      the definitions that use it or modelled here from its documentation. *)

From Stdlib Require Import ZArith QArith Lia Lqa String Ascii List.
From stdpp Require Import gmap strings list sorting.

Local Open Scope Z_scope.
#[local] Set Warnings "-register-all".

(** ** Python exceptions and outcomes *)

Module Py.

(** The exception classes the modelled code raises or catches.  The first
    four [openai.*] classes are those listed in the retry configuration, two
    more stand for the provider's other failures; [OpenAIServiceError] and
    [ContentExtractionError] are the service's own ([core/exceptions.py]);
    each of these carries the text of [str(e)].  [RetryError] is the one the
    retry decorator raises when it gives up without re-raising. *)
Inductive exn : Type :=
| IndexError
| KeyError (k : string)
| ValueError
| TypeError
| AttributeError
| JSONDecodeError
| RateLimitError (msg : string)
| APITimeoutError (msg : string)
| APIConnectionError (msg : string)
| InternalServerError (msg : string)
| AuthenticationError (msg : string)
| BadRequestError (msg : string)
| OpenAIServiceError (msg : string)
| ContentExtractionError (msg : string)
| RetryError.

Inductive outcome (A : Type) : Type :=
| Ok (a : A)
| Raise (e : exn).
Arguments Ok {A} a.
Arguments Raise {A} e.

Definition is_ok {A} (o : outcome A) : bool :=
  match o with Ok _ => true | Raise _ => false end.

(** [list.remove(x)]: drops the first occurrence, [ValueError] when there
    is none. *)
Fixpoint list_remove (x : string) (l : list string) : option (list string) :=
  match l with
  | [] => None
  | y :: l' =>
      if bool_decide (x = y) then Some l'
      else option_map (cons y) (list_remove x l')
  end.

(** [list.pop(0)]: head and rest, [IndexError] on the empty list. *)
Definition list_pop0 (l : list string) : option (string * list string) :=
  match l with
  | [] => None
  | y :: l' => Some (y, l')
  end.

(** *** Strings *)

(** Whitespace of [str.strip], [str.split] and the regular-expression
    class [\s] on ASCII text: TAB, LF, VT, FF, CR, the four separators
    FS, GS, RS, US and the space. *)
Definition is_space (c : ascii) : bool :=
  let n := N_of_ascii c in
  ((9 <=? n) && (n <=? 13) || (28 <=? n) && (n <=? 32))%N.

Fixpoint lstrip (s : string) : string :=
  match s with
  | EmptyString => EmptyString
  | String c s' => if is_space c then lstrip s' else s
  end.

Fixpoint all_space (s : string) : bool :=
  match s with
  | EmptyString => true
  | String c s' => is_space c && all_space s'
  end.

Fixpoint rstrip (s : string) : string :=
  match s with
  | EmptyString => EmptyString
  | String c s' => if all_space s then EmptyString else String c (rstrip s')
  end.

(** [s.strip()] *)
Definition strip (s : string) : string := rstrip (lstrip s).

Definition lower_ascii (c : ascii) : ascii :=
  let n := N_of_ascii c in
  if ((65 <=? n) && (n <=? 90))%N then ascii_of_N (n + 32) else c.

(** [s.lower()] *)
Fixpoint lower (s : string) : string :=
  match s with
  | EmptyString => EmptyString
  | String c s' => String (lower_ascii c) (lower s')
  end.

(** [sub in s] *)
Fixpoint contains (sub s : string) : bool :=
  String.prefix sub s
  || match s with
     | EmptyString => false
     | String _ s' => contains sub s'
     end.

(** [s.startswith(p)] and [s.endswith(p)] *)
Definition startswith (s p : string) : bool := String.prefix p s.

Fixpoint endswith (s p : string) : bool :=
  String.eqb s p
  || match s with
     | EmptyString => false
     | String _ s' => endswith s' p
     end.

(** [s.split()]: the maximal runs of non-whitespace characters.  [cur]
    holds the run being read, reversed. *)
Fixpoint split_go (cur : list ascii) (s : string) : list string :=
  let flush rest :=
    match cur with
    | [] => rest
    | _ => string_of_list_ascii (rev cur) :: rest
    end in
  match s with
  | EmptyString => flush []
  | String c s' =>
      if is_space c then flush (split_go [] s') else split_go (c :: cur) s'
  end.

Definition split (s : string) : list string := split_go [] s.

(** [sep.join(l)] *)
Fixpoint join (sep : string) (l : list string) : string :=
  match l with
  | [] => EmptyString
  | [x] => x
  | x :: l' => x ++ sep ++ join sep l'
  end.

(** [s[:n]] *)
Definition take_str (n : nat) (s : string) : string := String.substring 0 n s.

(** Text of [str(e)]: the message of the exceptions that carry one; for the
    built-in classes, whose messages are not modelled, the class name or the
    key stands for it. *)
Definition exn_str (e : exn) : string :=
  match e with
  | IndexError => "pop from empty list"
  | KeyError k => k
  | ValueError => "ValueError"
  | TypeError => "TypeError"
  | AttributeError => "AttributeError"
  | JSONDecodeError => "JSONDecodeError"
  | RetryError => "RetryError"
  | RateLimitError m | APITimeoutError m | APIConnectionError m
  | InternalServerError m | AuthenticationError m | BadRequestError m
  | OpenAIServiceError m | ContentExtractionError m => m
  end.

End Py.
Export Py.

(** ** The bounded in-process cache ([MemoryCache]) *)

Module MemoryCache.

Section WithValue.
Context {V : Type}.

(** The dict stored under each key: ['value'], ['ttl'], ['created_at']. *)
Record cache_entry : Type := CacheEntry {
  value : V;
  ttl : option Z;
  created_at : Q
}.

(** The object: [self._cache], [self._access_order], [self.max_size].
    The lock serialises the methods, so each runs to completion on the
    state it finds. *)
Record t : Type := Mk {
  _cache : gmap string cache_entry;
  _access_order : list string;
  max_size : Z
}.

(** [MemoryCache(max_size)] *)
Definition init (max_size : Z) : t :=
  {| _cache := ∅; _access_order := []; max_size := max_size |}.

(** Truth value of [cache_entry.get('ttl')]: [None] and [0] are falsy. *)
Definition ttl_truthy (o : option Z) : bool :=
  match o with
  | None => false
  | Some z => negb (z =? 0)
  end.

(** [cache_entry.get('ttl') and now - cache_entry['created_at'] > cache_entry['ttl']] *)
Definition expired (now : Q) (e : cache_entry) : bool :=
  match ttl e with
  | None => false
  | Some z =>
      negb (z =? 0) && negb (Qle_bool (now - created_at e) (inject_Z z))
  end.

(** [_remove_key] *)
Definition _remove_key (key : string) (s : t) : outcome bool * t :=
  match _cache s !! key with
  | Some _ =>
      let c := delete key (_cache s) in
      if bool_decide (key ∈ _access_order s) then
        match list_remove key (_access_order s) with
        | Some ao => (Ok true, {| _cache := c; _access_order := ao; max_size := max_size s |})
        | None => (Raise ValueError,
                   {| _cache := c; _access_order := _access_order s; max_size := max_size s |})
        end
      else (Ok true, {| _cache := c; _access_order := _access_order s; max_size := max_size s |})
  | None => (Ok false, s)
  end.

(** [get], run at clock reading [now]. *)
Definition get (now : Q) (key : string) (s : t) : outcome (option V) * t :=
  match _cache s !! key with
  | Some e =>
      if expired now e then
        match _remove_key key s with
        | (Ok _, s') => (Ok None, s')
        | (Raise x, s') => (Raise x, s')
        end
      else
        match list_remove key (_access_order s) with
        | Some ao =>
            (Ok (Some (value e)),
             {| _cache := _cache s; _access_order := ao ++ [key]; max_size := max_size s |})
        | None => (Raise ValueError, s)
        end
  | None => (Ok None, s)
  end.

(** The eviction step of [set]: [oldest_key = self._access_order.pop(0)]
    then [del self._cache[oldest_key]]. *)
Definition evict (s : t) : outcome unit * t :=
  match list_pop0 (_access_order s) with
  | None => (Raise IndexError, s)
  | Some (oldest_key, ao) =>
      let s1 := {| _cache := _cache s; _access_order := ao; max_size := max_size s |} in
      match _cache s !! oldest_key with
      | None => (Raise (KeyError oldest_key), s1)
      | Some _ =>
          (Ok tt, {| _cache := delete oldest_key (_cache s);
                     _access_order := ao; max_size := max_size s |})
      end
  end.

(** The rest of [set]: store the entry, append the key to the access
    order when it is not there yet. *)
Definition store (now : Q) (key : string) (v : V) (ttl : option Z) (s : t) : t :=
  {| _cache := <[key := CacheEntry v ttl now]> (_cache s);
     _access_order :=
       if bool_decide (key ∈ _access_order s) then _access_order s
       else _access_order s ++ [key];
     max_size := max_size s |}.

(** [set], run at clock reading [now]. *)
Definition set (now : Q) (key : string) (v : V) (ttl : option Z) (s : t)
  : outcome bool * t :=
  if (max_size s <=? Z.of_nat (size (_cache s)))
     && negb (bool_decide (is_Some (_cache s !! key)))
  then
    match evict s with
    | (Ok _, s1) => (Ok true, store now key v ttl s1)
    | (Raise x, s1) => (Raise x, s1)
    end
  else (Ok true, store now key v ttl s).

(** [delete] *)
Definition delete (key : string) (s : t) : outcome bool * t :=
  _remove_key key s.

(** *** Histories of calls

    The cache is driven by a sequence of calls, each with the clock
    reading it observes.  A call that raises leaves the object in the
    state reached at the [raise]; later calls go on from there. *)
Inductive op : Type :=
| OpGet (now : Q) (key : string)
| OpSet (now : Q) (key : string) (v : V) (ttl : option Z)
| OpDelete (key : string).

Definition step (o : op) (s : t) : t :=
  match o with
  | OpGet now key => snd (get now key s)
  | OpSet now key v ttl => snd (set now key v ttl s)
  | OpDelete key => snd (delete key s)
  end.

(** The key a call accesses, read off the store alone (not off the
    access-order list): a [get] that finds an unexpired entry accesses its
    key, a [set] that completes and inserts a key that was not in the
    store accesses that key.  Overwriting a present key, a miss, a lazy
    expiry and a [delete] access nothing. *)
Definition accessed (o : op) (s : t) : option string :=
  match o with
  | OpGet now key =>
      match _cache s !! key with
      | Some e => if expired now e then None else Some key
      | None => None
      end
  | OpSet now key v ttl =>
      match _cache s !! key with
      | Some _ => None
      | None => if is_ok (fst (set now key v ttl s)) then Some key else None
      end
  | OpDelete _ => None
  end.

(** A cache together with the log of accesses: [last_access] gives, for
    each key, the number of the call that accessed it last, [calls]
    counts the calls made so far. *)
Record logged : Type := Logged {
  cur : t;
  last_access : gmap string nat;
  calls : nat
}.

Definition start (max_size : Z) : logged :=
  {| cur := init max_size; last_access := ∅; calls := 0 |}.

Definition log_step (o : op) (h : logged) : logged :=
  {| cur := step o (cur h);
     last_access :=
       match accessed o (cur h) with
       | Some k => <[k := calls h]> (last_access h)
       | None => last_access h
       end;
     calls := S (calls h) |}.

Definition run (ops : list op) (h : logged) : logged :=
  foldl (fun h o => log_step o h) h ops.

(** The other reading of an access, in which a write counts as well: a
    [set] that completes accesses its key, whether the key is new or already
    in the store; the other calls are as in [accessed]. *)
Definition touched (o : op) (s : t) : option string :=
  match o with
  | OpSet now key v ttl =>
      if is_ok (fst (set now key v ttl s)) then Some key else None
  | _ => accessed o s
  end.

(** The log of accesses under that reading. *)
Definition touch_step (o : op) (h : logged) : logged :=
  {| cur := step o (cur h);
     last_access :=
       match touched o (cur h) with
       | Some k => <[k := calls h]> (last_access h)
       | None => last_access h
       end;
     calls := S (calls h) |}.

Definition touch_run (ops : list op) (h : logged) : logged :=
  foldl (fun h o => touch_step o h) h ops.

(** States some sequence of calls leads to from the empty cache. *)
Definition reachable (h : logged) : Prop :=
  exists ops, h = run ops (start (max_size (cur h))).

Definition stamp (h : logged) (k : string) : nat :=
  default 0%nat (last_access h !! k).

(** [k] is in the store and every other key in the store was accessed
    strictly later. *)
Definition least_recently_accessed (h : logged) (k : string) : Prop :=
  is_Some (_cache (cur h) !! k) /\
  forall k', is_Some (_cache (cur h) !! k') -> k' <> k ->
             (stamp h k < stamp h k')%nat.

(** The store holds at least [max_size] entries. *)
Definition at_capacity (s : t) : Prop :=
  max_size s <= Z.of_nat (size (_cache s)).

(** *** The representation invariant *)

(** Strictly increasing stamps along a list. *)
Definition increasing (f : string -> nat) (l : list string) : Prop :=
  StronglySorted (fun a b => (f a < f b)%nat) l.

(** The access order lists exactly the keys of the store, in the order
    of their last access, all of which lie in the past. *)
Record wf (h : logged) : Prop := Wf {
  wf_dom : forall k, k ∈ _access_order (cur h) <-> is_Some (_cache (cur h) !! k);
  wf_sorted : increasing (stamp h) (_access_order (cur h));
  wf_past : forall k, k ∈ _access_order (cur h) -> (stamp h k < calls h)%nat
}.

(** The part of the invariant that does not mention the log. *)
Definition consistent (s : t) : Prop :=
  NoDup (_access_order s) /\
  forall k, k ∈ _access_order s <-> is_Some (_cache s !! k).

End WithValue.
Arguments cache_entry : clear implicits.
Arguments t : clear implicits.
Arguments op : clear implicits.
Arguments logged : clear implicits.

End MemoryCache.

(** ** SHA-256

    The digest behind [hashlib.sha256(text.encode()).hexdigest()], on ASCII
    text (FIPS 180-4): 32-bit words are numbers below 2^32. *)

Module Sha256.
Local Open Scope N_scope.

Definition w32 (x : N) : N := N.land x 0xffffffff.
Definition add32 (x y : N) : N := w32 (x + y).
Definition rotr (n x : N) : N := w32 (N.lor (N.shiftr x n) (N.shiftl x (32 - n))).
Definition not32 (x : N) : N := N.lxor x 0xffffffff.

Definition Ch (x y z : N) : N := N.lxor (N.land x y) (N.land (not32 x) z).
Definition Maj (x y z : N) : N :=
  N.lxor (N.lxor (N.land x y) (N.land x z)) (N.land y z).
Definition Sigma0 (x : N) : N := N.lxor (N.lxor (rotr 2 x) (rotr 13 x)) (rotr 22 x).
Definition Sigma1 (x : N) : N := N.lxor (N.lxor (rotr 6 x) (rotr 11 x)) (rotr 25 x).
Definition sigma0 (x : N) : N := N.lxor (N.lxor (rotr 7 x) (rotr 18 x)) (N.shiftr x 3).
Definition sigma1 (x : N) : N := N.lxor (N.lxor (rotr 17 x) (rotr 19 x)) (N.shiftr x 10).

(** The integer cube root, bit by bit from bit [bits - 1] down. *)
Fixpoint cube_root (bits : nat) (x r : N) : N :=
  match bits with
  | O => r
  | S b =>
      let r' := r + N.shiftl 1 (N.of_nat b) in
      cube_root b x (if r' * r' * r' <=? x then r' else r)
  end.

Definition primes : list N :=
  [2; 3; 5; 7; 11; 13; 17; 19; 23; 29; 31; 37; 41; 43; 47; 53; 59; 61; 67; 71;
   73; 79; 83; 89; 97; 101; 103; 107; 109; 113; 127; 131; 137; 139; 149; 151;
   157; 163; 167; 173; 179; 181; 191; 193; 197; 199; 211; 223; 227; 229; 233;
   239; 241; 251; 257; 263; 269; 271; 277; 281; 283; 293; 307; 311].

(** The round constants: the first 32 bits of the fractional parts of the
    cube roots of the first 64 primes. *)
Definition K : list N :=
  Eval vm_compute in map (fun p => w32 (cube_root 36 (p * 2 ^ 96) 0)) primes.

(** The initial hash value: the first 32 bits of the fractional parts of the
    square roots of the first 8 primes. *)
Definition H0 : list N :=
  Eval vm_compute in map (fun p => w32 (N.sqrt (p * 2 ^ 64))) (firstn 8 primes).

(** The message followed by the byte 0x80, zeros up to 56 modulo 64, and the
    bit length as 8 bytes, most significant first. *)
Definition pad (msg : list N) : list N :=
  let len := length msg in
  let zeros := ((119 - len mod 64) mod 64)%nat in
  let bits := N.of_nat len * 8 in
  msg ++ [0x80] ++ replicate zeros 0
      ++ map (fun i => N.land (N.shiftr bits (8 * N.of_nat (7 - i))) 0xff) (seq 0 8).

(** Big-endian words of a byte list (whose length is a multiple of 4). *)
Fixpoint words (bytes : list N) : list N :=
  match bytes with
  | a :: b :: c :: d :: rest =>
      (N.shiftl a 24 + N.shiftl b 16 + N.shiftl c 8 + d) :: words rest
  | _ => []
  end.

Definition nth_word (l : list N) (i : nat) : N := nth i l 0.

(** The message schedule: [w] holds W(0..t-1), latest first. *)
Fixpoint extend (n : nat) (w : list N) : list N :=
  match n with
  | O => w
  | S n' =>
      let next :=
        add32 (add32 (sigma1 (nth_word w 1)) (nth_word w 6))
              (add32 (sigma0 (nth_word w 14)) (nth_word w 15)) in
      extend n' (next :: w)
  end.

Definition round (st : list N) (kw : N * N) : list N :=
  match st with
  | [a; b; c; d; e; f; g; h] =>
      let t1 := add32 (add32 (add32 h (Sigma1 e)) (add32 (Ch e f g) (fst kw))) (snd kw) in
      let t2 := add32 (Sigma0 a) (Maj a b c) in
      [add32 t1 t2; a; b; c; add32 d t1; e; f; g]
  | _ => st
  end.

(** One 16-word block folded into the hash value. *)
Definition compress (hash : list N) (block : list N) : list N :=
  let w := rev (extend 48 (rev block)) in
  let st := fold_left round (combine K w) hash in
  map (fun p => add32 (fst p) (snd p)) (combine hash st).

Fixpoint blocks (fuel : nat) (ws : list N) (hash : list N) : list N :=
  match fuel with
  | O => hash
  | S fuel' =>
      match ws with
      | [] => hash
      | _ => blocks fuel' (skipn 16 ws) (compress hash (firstn 16 ws))
      end
  end.

Definition digest (msg : list N) : list N :=
  let ws := words (pad msg) in
  blocks (length ws) ws H0.

Definition hex_digit (n : N) : ascii :=
  if n <? 10 then ascii_of_N (48 + n) else ascii_of_N (87 + n).

Definition hex32 (x : N) : string :=
  String (hex_digit (N.land (N.shiftr x 28) 15))
 (String (hex_digit (N.land (N.shiftr x 24) 15))
 (String (hex_digit (N.land (N.shiftr x 20) 15))
 (String (hex_digit (N.land (N.shiftr x 16) 15))
 (String (hex_digit (N.land (N.shiftr x 12) 15))
 (String (hex_digit (N.land (N.shiftr x 8) 15))
 (String (hex_digit (N.land (N.shiftr x 4) 15))
 (String (hex_digit (N.land x 15)) EmptyString))))))).

(** The digest has eight words by construction; [hexdigest] prints the
    first eight. *)
Definition hexdigest (s : string) : string :=
  let h := digest (map N_of_ascii (list_ascii_of_string s)) in
  (hex32 (nth_word h 0) ++ hex32 (nth_word h 1) ++ hex32 (nth_word h 2)
   ++ hex32 (nth_word h 3) ++ hex32 (nth_word h 4) ++ hex32 (nth_word h 5)
   ++ hex32 (nth_word h 6) ++ hex32 (nth_word h 7))%string.

End Sha256.

(** ** The cache service ([CacheService]) over the in-process backend *)

Module CacheService.

Section WithValue.
Context {V : Type}.

(** [self.backend] (the [MemoryCache] the constructor builds unless a
    Redis URL is configured) and [self.ttl], the configured default. *)
Record t : Type := Mk {
  backend : MemoryCache.t V;
  ttl : Z
}.

(** [CacheService(backend="memory", ttl=...)]: [MemoryCache()] has the
    default capacity 1000. *)
Definition init (ttl : Z) : t :=
  {| backend := MemoryCache.init 1000; ttl := ttl |}.

(** [ttl or self.ttl] *)
Definition ttl_or_default (ttl : option Z) (default_ttl : Z) : option Z :=
  if MemoryCache.ttl_truthy ttl then ttl else Some default_ttl.

(** [get]: an exception of the backend is logged and becomes [None]. *)
Definition get (now : Q) (key : string) (s : t) : option V * t :=
  match MemoryCache.get now key (backend s) with
  | (Ok r, b) => (r, {| backend := b; ttl := ttl s |})
  | (Raise _, b) => (None, {| backend := b; ttl := ttl s |})
  end.

(** [set]: an exception of the backend is logged and becomes [False]. *)
Definition set (now : Q) (key : string) (v : V) (ttl_arg : option Z) (s : t)
  : bool * t :=
  match MemoryCache.set now key v (ttl_or_default ttl_arg (ttl s)) (backend s) with
  | (Ok r, b) => (r, {| backend := b; ttl := ttl s |})
  | (Raise _, b) => (false, {| backend := b; ttl := ttl s |})
  end.

End WithValue.
Arguments t : clear implicits.

(** *** Cache keys *)

Section Keys.
(** [hashlib.sha256(text.encode()).hexdigest()] and the BeautifulSoup
    part of [_normalize_for_cache] (parse, drop script/style/meta
    elements and the volatile attributes, print the tree) are library
    code outside the repository; the second may raise. *)
Variable sha256_hexdigest : string -> string.
Variable soup_normalized : string -> outcome string.

(** [_normalize_for_cache] *)
Definition _normalize_for_cache (html_content : string) : string :=
  match soup_normalized html_content with
  | Ok printed => join " " (split printed)
  | Raise _ => join " " (split html_content)
  end.

(** [generate_cache_key] *)
Definition generate_cache_key (html_content extraction_type : string) : string :=
  let normalized_content := _normalize_for_cache html_content in
  let content_hash := sha256_hexdigest normalized_content in
  ("extraction:" ++ extraction_type ++ ":" ++ take_str 16 content_hash)%string.

End Keys.

End CacheService.

(** ** Python values *)

Module PyVal.

(** The values [json.loads] produces, and the [float] scores the scorer
    attaches.  A [dict] keeps its items in insertion order, with one item per
    key. *)
Inductive value : Type :=
| VNone
| VBool (b : bool)
| VInt (z : Z)
| VFloat (q : Q)
| VStr (s : string)
| VList (l : list value)
| VDict (d : list (string * value)).

(** Truth value of an object in a condition. *)
Definition truthy (v : value) : bool :=
  match v with
  | VNone => false
  | VBool b => b
  | VInt z => negb (z =? 0)
  | VFloat q => negb (Qeq_bool q 0)
  | VStr s => negb (String.eqb s EmptyString)
  | VList l => match l with [] => false | _ => true end
  | VDict d => match d with [] => false | _ => true end
  end.

(** [key in d] and [d.get(key)] / [d.get(key, default)] on the items of a dict. *)
Fixpoint dict_lookup (key : string) (d : list (string * value)) : option value :=
  match d with
  | [] => None
  | (k, v) :: d' => if String.eqb k key then Some v else dict_lookup key d'
  end.

Definition dict_get (d : list (string * value)) (key : string) : value :=
  default VNone (dict_lookup key d).

Definition dict_get_default (d : list (string * value)) (key : string)
  (dflt : value) : value :=
  default dflt (dict_lookup key d).

(** [d[key] = v]: replaces the value in place, or appends a new item. *)
Fixpoint dict_set (key : string) (v : value) (d : list (string * value))
  : list (string * value) :=
  match d with
  | [] => [(key, v)]
  | (k, w) :: d' =>
      if String.eqb k key then (k, v) :: d' else (k, w) :: dict_set key v d'
  end.

#[global] Instance outcome_ret : MRet outcome := fun A a => Ok a.
#[global] Instance outcome_bind : MBind outcome :=
  fun A B f o => match o with Ok a => f a | Raise e => Raise e end.

(** The receiver of [.get(...)] must be a dict, that of [.strip()] and
    [.lower()] a str: anything else has no such attribute. *)
Definition as_dict (v : value) : outcome (list (string * value)) :=
  match v with VDict d => Ok d | _ => Raise AttributeError end.

Definition as_str (v : value) : outcome string :=
  match v with VStr s => Ok s | _ => Raise AttributeError end.

(** The items a [for] loop over the object visits: the elements of a list,
    the characters of a str, the keys of a dict; other values are not
    iterable. *)
Definition iter_items (v : value) : outcome (list value) :=
  match v with
  | VList l => Ok l
  | VStr s => Ok (map (fun c => VStr (String c EmptyString)) (list_ascii_of_string s))
  | VDict d => Ok (map (fun kv => VStr (fst kv)) d)
  | _ => Raise TypeError
  end.

End PyVal.
Export PyVal.

(** ** Library routines the scorer calls *)

Module Lib.

Definition is_digit (c : ascii) : bool :=
  let n := N_of_ascii c in ((48 <=? n) && (n <=? 57))%N.

Definition digit_val (c : ascii) : Z := Z.of_N (N_of_ascii c) - 48.

Definition in_range (c lo hi : ascii) : bool :=
  ((N_of_ascii lo <=? N_of_ascii c) && (N_of_ascii c <=? N_of_ascii hi))%N.

(** *** [datetime.strptime(s, '%Y-%m-%d')]

    The format compiles to the regular expression
    [(\d\d\d\d)-(1[0-2]|0[1-9]|[1-9])-(3[01]|[12]\d|0[1-9]|[1-9]| [1-9])];
    the text must match it from the start with nothing left over, and the
    three numbers must form a date of the proleptic Gregorian calendar with
    year at least 1.  [None] stands for [ValueError]. *)

(** The day, the last group: the first alternative that matches. *)
Definition match_day (cs : list ascii) : option (Z * list ascii) :=
  match cs with
  | a :: b :: rest =>
      if Ascii.eqb a "3" && in_range b "0" "1" then Some (30 + digit_val b, rest)
      else if in_range a "1" "2" && is_digit b then
        Some (10 * digit_val a + digit_val b, rest)
      else if Ascii.eqb a "0" && in_range b "1" "9" then Some (digit_val b, rest)
      else if in_range a "1" "9" then Some (digit_val a, b :: rest)
      else if Ascii.eqb a " " && in_range b "1" "9" then Some (digit_val b, rest)
      else None
  | [a] => if in_range a "1" "9" then Some (digit_val a, []) else None
  | [] => None
  end.

(** What follows a month: the hyphen and the day. *)
Definition match_after_month (month : Z) (cs : list ascii)
  : option (Z * Z * list ascii) :=
  match cs with
  | h :: rest =>
      if Ascii.eqb h "-" then
        match match_day rest with
        | Some (day, rest') => Some (month, day, rest')
        | None => None
        end
      else None
  | [] => None
  end.

(** The month, trying its alternatives in order and backtracking when the
    rest of the pattern fails. *)
Definition match_month (cs : list ascii) : option (Z * Z * list ascii) :=
  let alt1 :=
    match cs with
    | a :: b :: rest =>
        if Ascii.eqb a "1" && in_range b "0" "2"
        then match_after_month (10 + digit_val b) rest else None
    | _ => None
    end in
  let alt2 :=
    match cs with
    | a :: b :: rest =>
        if Ascii.eqb a "0" && in_range b "1" "9"
        then match_after_month (digit_val b) rest else None
    | _ => None
    end in
  let alt3 :=
    match cs with
    | a :: rest =>
        if in_range a "1" "9" then match_after_month (digit_val a) rest else None
    | _ => None
    end in
  match alt1 with
  | Some r => Some r
  | None => match alt2 with Some r => Some r | None => alt3 end
  end.

Definition is_leap (y : Z) : bool :=
  (y mod 4 =? 0) && (negb (y mod 100 =? 0) || (y mod 400 =? 0)).

Definition days_in_month (y m : Z) : Z :=
  if m =? 2 then (if is_leap y then 29 else 28)
  else if (m =? 4) || (m =? 6) || (m =? 9) || (m =? 11) then 30
  else 31.

Definition strptime_ymd (s : string) : option (Z * Z * Z) :=
  match list_ascii_of_string s with
  | a :: b :: c :: d :: h :: rest =>
      if is_digit a && is_digit b && is_digit c && is_digit d && Ascii.eqb h "-"
      then
        let year := 1000 * digit_val a + 100 * digit_val b
                    + 10 * digit_val c + digit_val d in
        match match_month rest with
        | Some (month, day, []) =>
            if (1 <=? year) && (day <=? days_in_month year month)
            then Some (year, month, day) else None
        | _ => None
        end
      else None
  | _ => None
  end.

(** *** Regular expressions, as far as [url_pattern] needs them *)

Inductive re_item : Type :=
| Lit (text : string)
| OptLit (text : string)
| Rep (cls : ascii -> bool) (lo hi : nat)
| Star (cls : ascii -> bool)
| WordBoundary.

(** [\w] on ASCII text. *)
Definition is_word (c : ascii) : bool :=
  in_range c "a" "z" || in_range c "A" "Z" || is_digit c || Ascii.eqb c "_".

Definition is_word_opt (c : option ascii) : bool :=
  match c with Some c => is_word c | None => false end.

Definition head_opt (s : string) : option ascii :=
  match s with String c _ => Some c | EmptyString => None end.

(** Drops the literal [text] from the front of [s]; also gives the character
    before the new position. *)
Fixpoint eat (text : string) (prev : option ascii) (s : string)
  : option (option ascii * string) :=
  match text with
  | EmptyString => Some (prev, s)
  | String c text' =>
      match s with
      | String c' s' => if Ascii.eqb c c' then eat text' (Some c') s' else None
      | EmptyString => None
      end
  end.

(** Between [lo] and [hi] characters of class [cls], then the continuation
    [k]; longer runs are tried first. *)
Fixpoint rep_try (k : option ascii -> string -> bool) (cls : ascii -> bool)
  (lo hi : nat) (prev : option ascii) (s : string) : bool :=
  let stop := Nat.eqb lo 0 && k prev s in
  match hi with
  | O => stop
  | S hi' =>
      match s with
      | String c s' =>
          if cls c then rep_try k cls (Nat.pred lo) hi' (Some c) s' || stop
          else stop
      | EmptyString => stop
      end
  end.

(** [pattern.match(s)] is not [None]: some prefix of [s] matches. *)
Fixpoint re_match (items : list re_item) (prev : option ascii) (s : string)
  : bool :=
  match items with
  | [] => true
  | Lit text :: rest =>
      match eat text prev s with
      | Some (prev', s') => re_match rest prev' s'
      | None => false
      end
  | OptLit text :: rest =>
      match eat text prev s with
      | Some (prev', s') => re_match rest prev' s' || re_match rest prev s
      | None => re_match rest prev s
      end
  | Rep cls lo hi :: rest => rep_try (re_match rest) cls lo hi prev s
  | Star cls :: rest => rep_try (re_match rest) cls 0 (String.length s) prev s
  | WordBoundary :: rest =>
      xorb (is_word_opt prev) (is_word_opt (head_opt s)) && re_match rest prev s
  end.

Definition one_of (chars : string) (c : ascii) : bool :=
  existsb (Ascii.eqb c) (list_ascii_of_string chars).

Definition is_alnum (c : ascii) : bool :=
  in_range c "a" "z" || in_range c "A" "Z" || is_digit c.

End Lib.

(** ** The confidence scorer ([ConfidenceScorer]) *)

Module ConfidenceScorer.
Import Lib.
Local Open Scope Q_scope.

(** [self.url_pattern]:
    [https?://(www\.)?[-a-zA-Z0-9@:%._\+~#=]{1,256}\.[a-zA-Z0-9()]{1,6}\b]
    followed by the group [[-a-zA-Z0-9()@:%_\+.~#?&//=]*]. *)
Definition url_pattern : list re_item :=
  [Lit "http"; Rep (Ascii.eqb "s") 0 1; Lit "://"; OptLit "www.";
   Rep (fun c => is_alnum c || one_of "-@:%._+~#=" c) 1 256; Lit ".";
   Rep (fun c => is_alnum c || one_of "()" c) 1 6; WordBoundary;
   Star (fun c => is_alnum c || one_of "-()@:%_+.~#?&/=" c)].

(** [self.url_pattern.match(url)]; the argument must be a str. *)
Definition url_match (url : value) : outcome bool :=
  match url with
  | VStr s => Ok (re_match url_pattern None s)
  | _ => Raise TypeError
  end.

(** [datetime.strptime(v, '%Y-%m-%d')] inside [try ... except ValueError]:
    whether the parse succeeded; an argument that is not a str is a
    [TypeError], which the handler does not catch. *)
Definition date_parses (v : value) : outcome bool :=
  match v with
  | VStr s => Ok (bool_decide (is_Some (strptime_ymd s)))
  | _ => Raise TypeError
  end.

Definition keywords : list string :=
  ["conference"; "meetup"; "workshop"; "summit"; "hackathon"]%string.

Definition bonus_fields : list string :=
  ["time"; "event_type"; "registration_url"; "price"]%string.

(** [len(s) > n] *)
Definition longer (s : string) (n : nat) : bool := (n <? String.length s)%nat.

(** [min(a, b)] *)
Definition py_min (a b : Q) : Q := if Qle_bool a b then a else b.

(** The title block of [score_event], from the running [(score, max_score)]. *)
Definition event_title (d : list (string * value)) (acc : Q * Q) : outcome (Q * Q) :=
  let '(score, max_score) := acc in
  let max_score := max_score + 30 in
  if truthy (dict_get d "title") then
    title ← as_str (dict_get d "title");
    let title := strip title in
    if longer title 5 then
      let score := score + 30 in
      if existsb (fun keyword => contains keyword (lower title)) keywords
      then Ok (score + 5, max_score + 5)
      else Ok (score, max_score)
    else Ok (score, max_score)
  else Ok (score, max_score).

(** The date block. *)
Definition event_date (d : list (string * value)) (acc : Q * Q) : outcome (Q * Q) :=
  let '(score, max_score) := acc in
  let max_score := max_score + 25 in
  if truthy (dict_get d "date") then
    ok ← date_parses (dict_get d "date");
    if (ok : bool) then Ok (score + 25, max_score) else Ok (score + 10, max_score)
  else Ok (score, max_score).

(** The location block. *)
Definition event_location (d : list (string * value)) (acc : Q * Q) : outcome (Q * Q) :=
  let '(score, max_score) := acc in
  let max_score := max_score + 20 in
  if truthy (dict_get d "location") then
    location ← as_str (dict_get d "location");
    let location := strip location in
    if longer location 3 then Ok (score + 20, max_score) else Ok (score, max_score)
  else Ok (score, max_score).

(** The description block. *)
Definition event_description (d : list (string * value)) (acc : Q * Q) : outcome (Q * Q) :=
  let '(score, max_score) := acc in
  let max_score := max_score + 15 in
  if truthy (dict_get d "description") then
    desc ← as_str (dict_get d "description");
    let desc := strip desc in
    if longer desc 50 then Ok (score + 15, max_score)
    else if longer desc 10 then Ok (score + 8, max_score)
    else Ok (score, max_score)
  else Ok (score, max_score).

(** The additional-fields block. *)
Definition event_bonus (d : list (string * value)) (acc : Q * Q) : Q * Q :=
  let '(score, max_score) := acc in
  let max_score := max_score + 10 in
  let present_fields :=
    length (filter (fun field => truthy (dict_get d field) = true) bonus_fields) in
  (score + (inject_Z (Z.of_nat present_fields)
            / inject_Z (Z.of_nat (length bonus_fields))) * 10,
   max_score).

(** [score_event] *)
Definition score_event (event : value) : outcome Q :=
  d ← as_dict event;
  acc ← event_title d (0, 0);
  acc ← event_date d acc;
  acc ← event_location d acc;
  acc ← event_description d acc;
  let '(score, max_score) := event_bonus d acc in
  Ok (if Qle_bool max_score 0 then 0 else py_min (score / max_score) 1).

(** The social-links loop of [score_speaker]. *)
Fixpoint social_links_score (d : list (string * value)) (fields : list string)
  (social_score : Q) : outcome Q :=
  match fields with
  | [] => Ok social_score
  | link_field :: fields' =>
      if truthy (dict_get d link_field) then
        m ← url_match (dict_get d link_field);
        social_links_score d fields'
          (if (m : bool) then social_score + (333 # 100) else social_score)
      else social_links_score d fields' social_score
  end.

(** [score_speaker] *)
Definition score_speaker (speaker : value) : outcome Q :=
  d ← as_dict speaker;
  let score := 0 in
  let max_score := 100 in
  '(score, max_score) ←
    (if truthy (dict_get d "name") then
       name ← as_str (dict_get d "name");
       let name := strip name in
       if longer name 3 then
         let score := score + 35 in
         if (2 <=? length (split name))%nat
         then Ok (score + 5, max_score + 5)
         else Ok (score, max_score)
       else Ok (score, max_score)
     else Ok (score, max_score));
  score ←
    (if truthy (dict_get d "title") then
       title ← as_str (dict_get d "title");
       if longer (strip title) 3 then Ok (score + 25) else Ok score
     else Ok score);
  score ←
    (if truthy (dict_get d "company") then
       company ← as_str (dict_get d "company");
       if longer (strip company) 2 then Ok (score + 20) else Ok score
     else Ok score);
  score ←
    (if truthy (dict_get d "bio") then
       bio ← as_str (dict_get d "bio");
       let bio := strip bio in
       if longer bio 20 then Ok (score + 10)
       else if longer bio 5 then Ok (score + 5)
       else Ok score
     else Ok score);
  social_score ←
    social_links_score d ["linkedin_url"; "twitter_url"; "website_url"]%string 0;
  let score := score + py_min social_score 10 in
  Ok (py_min (score / max_score) 1).

(** [score_company] *)
Definition score_company (company : value) : outcome Q :=
  d ← as_dict company;
  let score := 0 in
  let max_score := 100 in
  score ←
    (if truthy (dict_get d "name") then
       name ← as_str (dict_get d "name");
       if longer (strip name) 2 then Ok (score + 40) else Ok score
     else Ok score);
  score ←
    (if truthy (dict_get d "website_url") then
       m ← url_match (dict_get d "website_url");
       if (m : bool) then Ok (score + 25) else Ok score
     else Ok score);
  let desc_score := 0 in
  let desc_score :=
    if truthy (dict_get d "description") then desc_score + 10 else desc_score in
  let desc_score :=
    if truthy (dict_get d "industry") then desc_score + 10 else desc_score in
  let score := score + desc_score in
  score ←
    (if truthy (dict_get d "relationship_type") then
       rel_type ← as_str (dict_get d "relationship_type");
       let rel_type := lower rel_type in
       if existsb (String.eqb rel_type) ["sponsor"; "host"; "partner"; "venue"]%string
       then Ok (score + 15) else Ok score
     else Ok score);
  Ok (py_min (score / max_score) 1).

(** [entity['confidence_score'] = confidence] *)
Definition with_confidence (confidence : Q) (d : list (string * value)) : value :=
  VDict (dict_set "confidence_score" (VFloat confidence) d).

(** One of the three filter loops of [validate_and_filter]: every entity is
    scored; one that reaches the threshold gets its score stored under
    ['confidence_score'] and is appended to the output list. *)
Fixpoint filter_entities (score : value -> outcome Q) (confidence_threshold : Q)
  (entities : list value) : outcome (list value) :=
  match entities with
  | [] => Ok []
  | entity :: entities' =>
      confidence ← score entity;
      kept ← filter_entities score confidence_threshold entities';
      if Qle_bool confidence_threshold confidence then
        d ← as_dict entity;
        Ok (with_confidence confidence d :: kept)
      else Ok kept
  end.

(** The value [x] is the entity [d] with the score [s] attached: a dict
    that holds [s] under ['confidence_score'] and, under every other key, what
    [d] holds. *)
Definition carries (x : value) (d : list (string * value)) (s : Q) : Prop :=
  exists d', x = VDict d' /\
             dict_lookup "confidence_score" d' = Some (VFloat s) /\
             forall k, k <> "confidence_score"%string ->
                       dict_lookup k d' = dict_lookup k d.

(** The test [confidence >= confidence_threshold] of a loop, on an entity. *)
Definition reaches (score : value -> outcome Q) (confidence_threshold : Q)
  (entity : value) : bool :=
  match score entity with
  | Ok confidence => Qle_bool confidence_threshold confidence
  | Raise _ => false
  end.

(** What the specification asks of one filter loop, from the entities
    [entities] to the retained list [kept], for the scoring function [score]:
    an entity that scores at the threshold, or above, is retained with its
    score attached; an entity that scores strictly below is not; every
    retained entity is an input entity that reached the threshold, and the
    score computed for it is what its ['confidence_score'] holds; and the
    retained list is, in order, the entities that reach the threshold. *)
Record filtered (score : value -> outcome Q) (confidence_threshold : Q)
  (entities kept : list value) : Prop := Filtered {
  retained_at_threshold : forall d s,
    VDict d ∈ entities -> score (VDict d) = Ok s ->
    s == confidence_threshold -> exists x, x ∈ kept /\ carries x d s;
  retained_above : forall d s,
    VDict d ∈ entities -> score (VDict d) = Ok s ->
    confidence_threshold <= s -> exists x, x ∈ kept /\ carries x d s;
  dropped_below : forall d s,
    VDict d ∈ entities -> score (VDict d) = Ok s ->
    s < confidence_threshold -> forall x, x ∈ kept -> ~ carries x d s;
  kept_scored : forall x,
    x ∈ kept ->
    exists d s, VDict d ∈ entities /\ score (VDict d) = Ok s /\
                confidence_threshold <= s /\ carries x d s;
  kept_in_order :
    Forall2 (fun entity x => exists d s, entity = VDict d /\
                                         score entity = Ok s /\ carries x d s)
      (List.filter (reaches score confidence_threshold) entities) kept
}.

(** Entities as the provider is asked to produce them: a dict whose fields
    are strings (or falsy: null, empty). *)
Definition text_fields (d : list (string * value)) : Prop :=
  forall k v, dict_lookup k d = Some v -> truthy v = true -> exists s, v = VStr s.

Definition entity_list (v : value) : Prop :=
  exists l, v = VList l /\
            forall e, e ∈ l -> exists d, e = VDict d /\ text_fields d.

(** Datasets whose entity lists, where present, are lists of such dicts. *)
Definition well_formed (data : list (string * value)) : Prop :=
  forall k, k ∈ ["events"; "speakers"; "companies"]%string ->
            forall v, dict_lookup k data = Some v -> entity_list v.

(** The body of [validate_and_filter], for the three scoring methods it
    finds on [self]. *)
Definition validate_and_filter_with
  (score_event score_speaker score_company : value -> outcome Q)
  (extracted_data : value) (confidence_threshold : Q) : outcome value :=
  data ← as_dict extracted_data;
  let topics := dict_get_default data "topics" (VList []) in
  let metadata := dict_get_default data "metadata" (VDict []) in
  events ← iter_items (dict_get_default data "events" (VList []));
  events ← filter_entities score_event confidence_threshold events;
  speakers ← iter_items (dict_get_default data "speakers" (VList []));
  speakers ← filter_entities score_speaker confidence_threshold speakers;
  companies ← iter_items (dict_get_default data "companies" (VList []));
  companies ← filter_entities score_company confidence_threshold companies;
  Ok (VDict [("events", VList events); ("speakers", VList speakers);
             ("companies", VList companies); ("topics", topics);
             ("metadata", metadata)]%string).

(** [validate_and_filter] *)
Definition validate_and_filter (extracted_data : value) (confidence_threshold : Q)
  : outcome value :=
  validate_and_filter_with score_event score_speaker score_company
    extracted_data confidence_threshold.

End ConfidenceScorer.

(** ** A JSON decoder

    A decoder for JSON texts over ASCII, standing for [json.loads] wherever
    a property is evaluated on a concrete text: whitespace, the literals
    [null], [true], [false], numbers (an [int] without fraction and exponent,
    an exact rational otherwise), strings with their escapes, arrays and
    objects (of two items with one key the later one wins).  It rejects the
    non-standard literals [NaN] and [Infinity] and escapes of characters
    above 255. *)

Module JsonText.
Import Lib.

Definition json_ws (c : ascii) : bool :=
  Ascii.eqb c " " || Ascii.eqb c "009" || Ascii.eqb c "010" || Ascii.eqb c "013".

Fixpoint skip_ws (cs : list ascii) : list ascii :=
  match cs with
  | c :: cs' => if json_ws c then skip_ws cs' else cs
  | [] => []
  end.

(** The double quote. *)
Definition dquote : ascii := "034".

(** [s] between double quotes. *)
Definition quoted (s : string) : string :=
  String dquote (s ++ String dquote EmptyString).

Definition hex_val (c : ascii) : option N :=
  let n := N_of_ascii c in
  if is_digit c then Some (n - 48)%N
  else if in_range c "a" "f" then Some (n - 87)%N
  else if in_range c "A" "F" then Some (n - 55)%N
  else None.

Definition unescape (c : ascii) : option ascii :=
  if Ascii.eqb c dquote then Some dquote
  else if Ascii.eqb c "\" then Some "\"%char
  else if Ascii.eqb c "/" then Some "/"%char
  else if Ascii.eqb c "b" then Some "008"%char
  else if Ascii.eqb c "f" then Some "012"%char
  else if Ascii.eqb c "n" then Some "010"%char
  else if Ascii.eqb c "r" then Some "013"%char
  else if Ascii.eqb c "t" then Some "009"%char
  else None.

(** The text of a string after its opening quote; [acc] holds the characters
    read so far, reversed. *)
Fixpoint string_body (cs : list ascii) (acc : list ascii)
  : option (string * list ascii) :=
  match cs with
  | [] => None
  | c :: cs' =>
      if Ascii.eqb c dquote then Some (string_of_list_ascii (rev acc), cs')
      else if (N_of_ascii c <? 32)%N then None
      else if Ascii.eqb c "\" then
        match cs' with
        | e :: cs'' =>
            if Ascii.eqb e "u" then
              match cs'' with
              | h1 :: h2 :: h3 :: h4 :: cs4 =>
                  match hex_val h1, hex_val h2, hex_val h3, hex_val h4 with
                  | Some a, Some b, Some c3, Some d =>
                      let n := (((a * 16 + b) * 16 + c3) * 16 + d)%N in
                      if (n <? 256)%N then string_body cs4 (ascii_of_N n :: acc)
                      else None
                  | _, _, _, _ => None
                  end
              | _ => None
              end
            else
              match unescape e with
              | Some ch => string_body cs'' (ch :: acc)
              | None => None
              end
        | [] => None
        end
      else string_body cs' (c :: acc)
  end.

(** The longest run of digits at the front. *)
Fixpoint digits (cs : list ascii) : list ascii * list ascii :=
  match cs with
  | c :: cs' =>
      if is_digit c then let '(ds, rest) := digits cs' in (c :: ds, rest)
      else ([], cs)
  | [] => ([], [])
  end.

Definition digits_val (ds : list ascii) : Z :=
  fold_left (fun acc c => 10 * acc + digit_val c) ds 0.

(** A number: an optional minus sign, an integer part without leading
    zeros, an optional fraction (point and digits), an optional exponent. *)
Definition number (cs : list ascii) : option (value * list ascii) :=
  let '(neg, cs1) :=
    match cs with
    | c :: cs' => if Ascii.eqb c "-" then (true, cs') else (false, cs)
    | [] => (false, cs)
    end in
  let int_part :=
    match cs1 with
    | c :: cs' =>
        if Ascii.eqb c "0" then Some ([c], cs')
        else if in_range c "1" "9" then Some (digits cs1)
        else None
    | [] => None
    end in
  match int_part with
  | None => None
  | Some (ids, cs2) =>
      let '(frac, cs3) :=
        match cs2 with
        | c :: cs' =>
            if Ascii.eqb c "." then
              match digits cs' with
              | ([], _) => (None, cs2)
              | (fds, rest) => (Some fds, rest)
              end
            else (None, cs2)
        | [] => (None, cs2)
        end in
      let exp_digits (negative : bool) (cs' : list ascii) :=
        match digits cs' with
        | ([], _) => (None, cs3)
        | (eds, rest) =>
            (Some (if negative then - digits_val eds else digits_val eds), rest)
        end in
      let '(expo, cs4) :=
        match cs3 with
        | c :: cs' =>
            if Ascii.eqb c "e" || Ascii.eqb c "E" then
              match cs' with
              | sg :: cs'' =>
                  if Ascii.eqb sg "-" then exp_digits true cs''
                  else if Ascii.eqb sg "+" then exp_digits false cs''
                  else exp_digits false cs'
              | [] => (None, cs3)
              end
            else (None, cs3)
        | [] => (None, cs3)
        end in
      let sign (z : Z) := if neg then - z else z in
      match frac, expo with
      | None, None => Some (VInt (sign (digits_val ids)), cs4)
      | _, _ =>
          let fds := default [] frac in
          let e := default 0 expo in
          let mant := sign (digits_val (ids ++ fds)) in
          let scale := e - Z.of_nat (length fds) in
          let q := if 0 <=? scale then inject_Z (mant * 10 ^ scale)
                   else Qmake mant (Z.to_pos (10 ^ (- scale))) in
          Some (VFloat q, cs4)
      end
  end.

(** A literal word at the front. *)
Fixpoint word (w cs : list ascii) : option (list ascii) :=
  match w with
  | [] => Some cs
  | c :: w' =>
      match cs with
      | c' :: cs' => if Ascii.eqb c c' then word w' cs' else None
      | [] => None
      end
  end.

(** A value at the front of [cs] (no leading whitespace); the elements of an
    array after its opening bracket or a comma; the members of an object
    after its opening brace or a comma. *)
Fixpoint parse_value (fuel : nat) (cs : list ascii) {struct fuel}
  : option (value * list ascii) :=
  match fuel with
  | O => None
  | S fuel' =>
      match cs with
      | [] => None
      | c :: cs' =>
          if Ascii.eqb c dquote then
            match string_body cs' [] with
            | Some (s, rest) => Some (VStr s, rest)
            | None => None
            end
          else if Ascii.eqb c "{" then
            match skip_ws cs' with
            | c1 :: rest1 =>
                if Ascii.eqb c1 "}" then Some (VDict [], rest1)
                else parse_members fuel' (c1 :: rest1) []
            | [] => None
            end
          else if Ascii.eqb c "[" then
            match skip_ws cs' with
            | c1 :: rest1 =>
                if Ascii.eqb c1 "]" then Some (VList [], rest1)
                else parse_elems fuel' (c1 :: rest1) []
            | [] => None
            end
          else if Ascii.eqb c "n" then
            option_map (pair VNone) (word (list_ascii_of_string "null") cs)
          else if Ascii.eqb c "t" then
            option_map (pair (VBool true)) (word (list_ascii_of_string "true") cs)
          else if Ascii.eqb c "f" then
            option_map (pair (VBool false)) (word (list_ascii_of_string "false") cs)
          else number cs
      end
  end
with parse_elems (fuel : nat) (cs : list ascii) (acc : list value) {struct fuel}
  : option (value * list ascii) :=
  match fuel with
  | O => None
  | S fuel' =>
      match parse_value fuel' cs with
      | Some (v, rest) =>
          match skip_ws rest with
          | c :: rest' =>
              if Ascii.eqb c "," then parse_elems fuel' (skip_ws rest') (acc ++ [v])
              else if Ascii.eqb c "]" then Some (VList (acc ++ [v]), rest')
              else None
          | [] => None
          end
      | None => None
      end
  end
with parse_members (fuel : nat) (cs : list ascii) (acc : list (string * value))
  {struct fuel} : option (value * list ascii) :=
  match fuel with
  | O => None
  | S fuel' =>
      match cs with
      | q :: cs' =>
          if Ascii.eqb q dquote then
            match string_body cs' [] with
            | Some (key, rest) =>
                match skip_ws rest with
                | colon :: rest1 =>
                    if Ascii.eqb colon ":" then
                      match parse_value fuel' (skip_ws rest1) with
                      | Some (v, rest2) =>
                          match skip_ws rest2 with
                          | c :: rest3 =>
                              if Ascii.eqb c "," then
                                parse_members fuel' (skip_ws rest3) (dict_set key v acc)
                              else if Ascii.eqb c "}" then
                                Some (VDict (dict_set key v acc), rest3)
                              else None
                          | [] => None
                          end
                      | None => None
                      end
                    else None
                | [] => None
                end
            | None => None
            end
          else None
      | [] => None
      end
  end.

(** The whole text must be one value between optional whitespace. *)
Definition loads (s : string) : outcome value :=
  let cs := list_ascii_of_string s in
  match parse_value (2 * length cs + 2) (skip_ws cs) with
  | Some (v, rest) =>
      match skip_ws rest with
      | [] => Ok v
      | _ => Raise JSONDecodeError
      end
  | None => Raise JSONDecodeError
  end.

End JsonText.

(** ** Response repair and parsing ([ExtractionService]) *)

Module Parser.

Definition drop_str (n : nat) (s : string) : string :=
  String.substring n (String.length s - n) s.

(** [re.sub(r'```json\s*', '', content)].  [skip] counts the characters of
    a marker still to drop; [ws] says that the whitespace after a marker is
    being dropped. *)
Fixpoint sub_json_fence (skip : nat) (ws : bool) (s : string) : string :=
  match s with
  | EmptyString => EmptyString
  | String c s' =>
      match skip with
      | S n => sub_json_fence n true s'
      | O =>
          if ws && is_space c then sub_json_fence 0 true s'
          else if String.prefix "```json" s then sub_json_fence 6 true s'
          else String c (sub_json_fence 0 false s')
      end
  end.

(** [re.sub(r'```\s*$', '', content)]: the first [```] that only whitespace
    follows is dropped together with that whitespace. *)
Fixpoint sub_closing_fence (s : string) : string :=
  match s with
  | EmptyString => EmptyString
  | String c s' =>
      if String.prefix "```" s && all_space (drop_str 3 s) then EmptyString
      else String c (sub_closing_fence s')
  end.

Definition closes (s : string) : bool :=
  match s with
  | String c _ => Ascii.eqb c "}" || Ascii.eqb c "]"
  | EmptyString => false
  end.

(** [re.sub(r',(\s*[}\]])', r'\1', content)]: a comma that whitespace and a
    closing bracket follow is dropped; the whitespace and the bracket, which
    hold no comma, are kept. *)
Fixpoint sub_trailing_commas (s : string) : string :=
  match s with
  | EmptyString => EmptyString
  | String c s' =>
      if Ascii.eqb c "," && closes (lstrip s') then sub_trailing_commas s'
      else String c (sub_trailing_commas s')
  end.

(** [fix_json_response] *)
Definition fix_json_response (content : string) : string :=
  let content := sub_json_fence 0 false content in
  let content := sub_closing_fence content in
  let content := sub_trailing_commas content in
  let content := strip content in
  let content := if startswith content "{" then content else ("{" ++ content)%string in
  let content := if endswith content "}" then content else (content ++ "}")%string in
  content.

Definition required_keys : list string :=
  ["events"; "speakers"; "companies"; "topics"; "metadata"]%string.

(** [key not in data] *)
Definition key_not_in (key : string) (data : value) : outcome bool :=
  match data with
  | VDict d => Ok (negb (bool_decide (is_Some (dict_lookup key d))))
  | VList l =>
      Ok (negb (existsb (fun x => match x with
                                  | VStr s => String.eqb s key
                                  | _ => false
                                  end) l))
  | VStr s => Ok (negb (contains key s))
  | _ => Raise TypeError
  end.

(** [data[key] = v] with a str key: only a dict supports it. *)
Definition set_item (key : string) (v : value) (data : value) : outcome value :=
  match data with
  | VDict d => Ok (VDict (dict_set key v d))
  | _ => Raise TypeError
  end.

(** The loop over [required_keys]. *)
Fixpoint fill_defaults (keys : list string) (data : value) : outcome value :=
  match keys with
  | [] => Ok data
  | key :: keys' =>
      missing ← key_not_in key data;
      data ← (if (missing : bool)
              then set_item key (if String.eqb key "metadata" then VDict [] else VList [])
                     data
              else Ok data);
      fill_defaults keys' data
  end.

(** The structure returned when the repaired text does not decode either. *)
Definition failed_structure : value :=
  VDict [("events", VList []); ("speakers", VList []); ("companies", VList []);
         ("topics", VList []);
         ("metadata", VDict [("extraction_quality", VStr "failed")])]%string.

Section WithDecoder.
(** [json.loads], library code: decodes a JSON text or raises
    [JSONDecodeError]. *)
Variable json_loads : string -> outcome value.

(** [parse_openai_response] *)
Definition parse_openai_response (response_content : string) : outcome value :=
  match json_loads response_content with
  | Ok data => fill_defaults required_keys data
  | Raise JSONDecodeError =>
      let fixed_content := fix_json_response response_content in
      match json_loads fixed_content with
      | Ok data => Ok data
      | Raise _ => Ok failed_structure
      end
  | Raise e => Raise e
  end.

End WithDecoder.

(** [key] is a top-level field of a returned dataset. *)
Definition has_field (key : string) (data : value) : bool :=
  match data with
  | VDict d => bool_decide (is_Some (dict_lookup key d))
  | _ => false
  end.

Definition has_all_fields (data : value) : bool :=
  forallb (fun key => has_field key data) required_keys.

End Parser.

(** ** The provider client ([OpenAIService]) *)

Module OpenAIService.

(** *** The retry decorator (tenacity) *)

Record retry_config : Type := RetryConfig {
  retry : exn -> bool;
  stop : nat -> bool;
  wait : nat -> Z;
  reraise : bool
}.

(** [retry_if_exception_type((openai.RateLimitError, openai.APITimeoutError,
    openai.APIConnectionError, openai.InternalServerError))] *)
Definition retry_if_transient (e : exn) : bool :=
  match e with
  | RateLimitError _ | APITimeoutError _ | APIConnectionError _
  | InternalServerError _ => true
  | _ => false
  end.

(** [stop_after_attempt(n)] *)
Definition stop_after_attempt (n : nat) (attempt_number : nat) : bool :=
  (n <=? attempt_number)%nat.

(** [wait_exponential(multiplier, min, max)], in seconds:
    [max(max(0, min), min(multiplier * 2 ** (attempt_number - 1), max))]. *)
Definition wait_exponential (multiplier min max : Z) (attempt_number : nat) : Z :=
  Z.max (Z.max 0 min) (Z.min (multiplier * 2 ^ Z.of_nat (attempt_number - 1)) max).

(** [get_openai_retry_config] *)
Definition get_openai_retry_config : retry_config :=
  {| retry := retry_if_transient;
     stop := stop_after_attempt 3;
     wait := wait_exponential 1 4 10;
     reraise := true |}.

Section Retrying.
Context {S A : Type}.
Variable cfg : retry_config.
(** The wrapped function, acting on a state of the world, and the effect of
    sleeping on that state. *)
Variable fn : S -> outcome A * S.
Variable sleep : Z -> S -> S.

(** The loop of [@retry(...)]: call; return a result; re-raise an exception
    the [retry] predicate rejects; when [stop] says so give up, re-raising
    the last exception under [reraise]; otherwise sleep and call again.
    [fuel] bounds the number of further attempts. *)
Fixpoint attempts (fuel : nat) (attempt_number : nat) (st : S) : outcome A * S :=
  let '(o, st) := fn st in
  match o with
  | Ok a => (Ok a, st)
  | Raise e =>
      if negb (retry cfg e) then (Raise e, st)
      else if stop cfg attempt_number then
        (Raise (if reraise cfg then e else RetryError), st)
      else
        match fuel with
        | O => (Raise RetryError, st)
        | Datatypes.S fuel' =>
            attempts fuel' (Datatypes.S attempt_number)
              (sleep (wait cfg attempt_number) st)
        end
  end.

End Retrying.

(** *** The completion call *)

Record request : Type := Request {
  model : string;
  system_content : string;
  user_content : string;
  temperature : Q
}.

Record response : Type := Response {
  content : string;
  response_model : string;
  prompt_tokens : Z;
  completion_tokens : Z;
  total_tokens : Z
}.

(** The dict [extract_content] returns. *)
Record extraction : Type := Extraction {
  extracted_data : string;
  extraction_model : string;
  usage : Z * Z * Z
}.

(** What the calls have done to the world: the number of requests sent to
    the provider and the sleeps taken, latest first. *)
Record world : Type := World {
  requests_sent : nat;
  slept : list Z
}.

Definition sleep (seconds : Z) (w : world) : world :=
  {| requests_sent := requests_sent w; slept := seconds :: slept w |}.

Section WithProvider.
(** [self.client.chat.completions.create], library code: what the [n]-th
    call (counting from 0) returns or raises. *)
Variable create : request -> nat -> outcome response.
Variable self_model : string.

Definition newline : string := String "010" EmptyString.

(** The request [extract_content] builds. *)
Definition completion_request (html_content extraction_prompt : string)
  (temperature : Q) : request :=
  {| model := self_model;
     system_content := extraction_prompt;
     user_content :=
       ("Extract structured data from this HTML:" ++ newline ++ newline
        ++ html_content)%string;
     temperature := temperature |}.

(** The provider call as such, without the [try] around it. *)
Definition call_provider (req : request) (w : world) : outcome response * world :=
  (create req (requests_sent w),
   {| requests_sent := Datatypes.S (requests_sent w); slept := slept w |}).

(** The body of [extract_content]: the call inside [try]; every exception is
    caught and raised again as [OpenAIServiceError]. *)
Definition extract_content_body (html_content extraction_prompt : string)
  (temperature : Q) (w : world) : outcome extraction * world :=
  match call_provider (completion_request html_content extraction_prompt temperature) w with
  | (Ok r, w') =>
      (Ok {| extracted_data := content r;
             extraction_model := response_model r;
             usage := (prompt_tokens r, completion_tokens r, total_tokens r) |},
       w')
  | (Raise e, w') =>
      (Raise (OpenAIServiceError ("Content extraction failed: " ++ exn_str e)), w')
  end.

(** [extract_content], the body under [@retry] with the configuration above.
    The configuration stops at the third attempt, so two further attempts
    are all the loop can make. *)
Definition extract_content (html_content extraction_prompt : string)
  (temperature : Q) (w : world) : outcome extraction * world :=
  attempts get_openai_retry_config
    (extract_content_body html_content extraction_prompt temperature)
    sleep 2 1 w.

End WithProvider.

End OpenAIService.

(** ** Batch extraction ([ExtractionService.extract_batch]) *)

Module Batch.

(** A request dict of the batch: ['html_content'] and ['url'] are read with
    a subscript, the other keys with [get] and may be missing. *)
Record request : Type := Request {
  html_content : string;
  url : string;
  extraction_type : option string;
  use_cache : option bool;
  confidence_threshold : option Q
}.

(** [ExtractionResult] *)
Record ExtractionResult : Type := MkResult {
  extracted_data : value;
  confidence_scores : list (string * Q);
  processing_time : Q;
  cache_hit : bool;
  model_used : string;
  usage_stats : value
}.

(** The two shapes of an entry of the result list. *)
Inductive entry : Type :=
| Failure (error : string) (url : string)
| Success (extraction_data : value) (confidence_scores : list (string * Q))
    (processing_time_ms : Z) (cache_hit : bool) (url : string).

(** The arguments [extract_content] is called with for a request. *)
Definition task_args (req : request) : string * string * string * bool * Q :=
  (html_content req, url req, default "full"%string (extraction_type req),
   default true (use_cache req), default (7 # 10) (confidence_threshold req)).

(** [asyncio.gather] with [return_exceptions=True]: the tasks finish in some
    order, each with a result or an exception, which is stored at the position
    of its task.  The call returns once every position is filled. *)
Definition fill (slots : list (option (outcome ExtractionResult)))
  (completions : list (nat * outcome ExtractionResult))
  : list (option (outcome ExtractionResult)) :=
  foldl (fun slots c => <[fst c := Some (snd c)]> slots) slots completions.

(** A task is the call of [extract_content] with the arguments built for a
    request.  What awaiting it produces depends on those arguments and on
    what the other tasks have done to the cache and the provider by then:
    [await i args] stands for the outcome, in the run at hand, of the task at
    position [i], called with [args].  [schedule] lists the completions of a
    run in which the tasks finish in the order [order]. *)
Definition schedule
  (await : nat -> string * string * string * bool * Q -> outcome ExtractionResult)
  (tasks : list (string * string * string * bool * Q)) (order : list nat)
  : list (nat * outcome ExtractionResult) :=
  omap (fun i => (fun args => (i, await i args)) <$> tasks !! i) order.

(** Awaiting [asyncio.gather] on the tasks; [None] while a position is
    still empty. *)
Definition gather
  (await : nat -> string * string * string * bool * Q -> outcome ExtractionResult)
  (tasks : list (string * string * string * bool * Q)) (order : list nat)
  : option (list (outcome ExtractionResult)) :=
  mapM id (fill (replicate (length tasks) None) (schedule await tasks order)).

(** [int(x)] for a float: truncation towards zero. *)
Definition py_int (x : Q) : Z := Z.quot (Qnum x) (Zpos (Qden x)).

(** The entry appended for a request and what its task produced. *)
Definition entry_for (req : request) (result : outcome ExtractionResult) : entry :=
  match result with
  | Raise e => Failure (exn_str e) (url req)
  | Ok r =>
      Success (extracted_data r) (confidence_scores r)
        (py_int (processing_time r * 1000)) (cache_hit r) (url req)
  end.

(** The entry built for position [i]; [requests[i]] is an [IndexError] when
    out of range. *)
Definition entry_of (requests : list request) (i : nat)
  (result : outcome ExtractionResult) : outcome entry :=
  match requests !! i with
  | None => Raise IndexError
  | Some req => Ok (entry_for req result)
  end.

(** The loop [for i, result in enumerate(completed_tasks)]. *)
Fixpoint collect (requests : list request) (i : nat)
  (completed_tasks : list (outcome ExtractionResult)) : outcome (list entry) :=
  match completed_tasks with
  | [] => Ok []
  | result :: rest =>
      e ← entry_of requests i result;
      results ← collect requests (S i) rest;
      Ok (e :: results)
  end.

(** [extract_batch]: one task per request, called with the arguments of
    that request, [gather], then the loop.  [None] when the tasks do not all
    finish. *)
Definition extract_batch (requests : list request)
  (await : nat -> string * string * string * bool * Q -> outcome ExtractionResult)
  (order : list nat) : option (outcome (list entry)) :=
  let tasks := map task_args requests in
  match gather await tasks order with
  | None => None
  | Some completed_tasks => Some (collect requests 0 completed_tasks)
  end.

End Batch.

(** ** Aggregate confidence *)

Module Aggregates.
Import ConfidenceScorer.
Local Open Scope Q_scope.

(** [sum(l)] over floats: from 0, left to right. *)
Definition py_sum (l : list Q) : Q := fold_left Qplus l 0.

(** [sum(l) / len(l) if l else 0.0] *)
Definition mean (l : list Q) : Q :=
  match l with
  | [] => 0
  | _ => py_sum l / inject_Z (Z.of_nat (length l))
  end.

(** One of the loops [for entity in ...: scores.append(score(entity))]. *)
Fixpoint score_all (score : value -> outcome Q) (entities : list value)
  : outcome (list Q) :=
  match entities with
  | [] => Ok []
  | entity :: entities' =>
      s ← score entity;
      rest ← score_all score entities';
      Ok (s :: rest)
  end.

(** [ConfidenceScorer.calculate_overall_confidence] *)
Definition calculate_overall_confidence (extracted_data : value) : outcome Q :=
  data ← as_dict extracted_data;
  events ← iter_items (dict_get_default data "events" (VList []));
  event_scores ← score_all score_event events;
  speakers ← iter_items (dict_get_default data "speakers" (VList []));
  speaker_scores ← score_all score_speaker speakers;
  companies ← iter_items (dict_get_default data "companies" (VList []));
  company_scores ← score_all score_company companies;
  Ok (mean (event_scores ++ speaker_scores ++ company_scores)).

(** A value [sum] can add up: a float, an int or a bool. *)
Definition as_number (v : value) : outcome Q :=
  match v with
  | VFloat q => Ok q
  | VInt z => Ok (inject_Z z)
  | VBool b => Ok (if b then 1 else 0)
  | _ => Raise TypeError
  end.

(** The comprehension
    [[entity.get('confidence_score', 0.0) for entity in entities]]. *)
Fixpoint confidences (entities : list value) : outcome (list value) :=
  match entities with
  | [] => Ok []
  | entity :: entities' =>
      d ← as_dict entity;
      rest ← confidences entities';
      Ok (dict_get_default d "confidence_score" (VFloat 0) :: rest)
  end.

(** [sum] over the values, from [acc], left to right. *)
Fixpoint sum_values (acc : Q) (vs : list value) : outcome Q :=
  match vs with
  | [] => Ok acc
  | v :: vs' => x ← as_number v; sum_values (acc + x) vs'
  end.

(** [ExtractionService._calculate_avg_confidence], for a list of entities. *)
Definition _calculate_avg_confidence (entities : list value) : outcome Q :=
  match entities with
  | [] => Ok 0
  | _ =>
      cs ← confidences entities;
      total ← sum_values 0 cs;
      Ok (total / inject_Z (Z.of_nat (length cs)))
  end.

End Aggregates.

(** ** The entities of a dataset, by kind *)

Module Datasets.
Import ConfidenceScorer.

(** The three entity lists [validate_and_filter] and
    [calculate_overall_confidence] loop over. *)
Definition kinds : list string := ["events"; "speakers"; "companies"]%string.

(** [data.get(kind, [])] as the [for] loop visits it. *)
Definition entities (data : value) (kind : string) : outcome (list value) :=
  d ← as_dict data;
  iter_items (dict_get_default d kind (VList [])).

(** The scorer applied to the entities of a kind. *)
Definition scorer (kind : string) : value -> outcome Q :=
  if String.eqb kind "events" then score_event
  else if String.eqb kind "speakers" then score_speaker
  else score_company.

End Datasets.

(** ** Embeddings ([OpenAIService.generate_embedding],
    [OpenAIService.batch_generate_embeddings]) *)

Module Embeddings.
Import OpenAIService.

(** The [input] of an embeddings request: one text or a list of texts. *)
Inductive embedding_input : Type :=
| One (text : string)
| Many (texts : list string).

Record request : Type := Request {
  model : string;
  input : embedding_input
}.

(** [response.data], each item reduced to its [embedding]. *)
Definition response : Type := list (list Q).

(** The requests sent to the provider and the sleeps taken, in seconds,
    latest first. *)
Record world : Type := World {
  requests_sent : nat;
  slept : list Q
}.

Definition sleep (seconds : Q) (w : world) : world :=
  {| requests_sent := requests_sent w; slept := seconds :: slept w |}.

(** [range(0, stop, step)] *)
Definition py_range (stop : nat) (step : Z) : outcome (list nat) :=
  if step =? 0 then Raise ValueError
  else if step <? 0 then Ok []
  else
    let step := Z.to_nat step in
    Ok (map (fun j => j * step)%nat (seq 0 ((stop + step - 1) / step))).

Section WithProvider.
(** [self.client.embeddings.create], library code: what the [n]-th call
    (counting from 0) returns or raises. *)
Variable create : request -> nat -> outcome response.

Definition call_provider (req : request) (w : world) : outcome response * world :=
  (create req (requests_sent w),
   {| requests_sent := S (requests_sent w); slept := slept w |}).

(** The body of [generate_embedding]: the call and [response.data[0]]
    inside [try]; every exception is caught and raised again as
    [OpenAIServiceError]. *)
Definition generate_embedding_body (text model : string) (w : world)
  : outcome (list Q) * world :=
  match call_provider {| model := model; input := One text |} w with
  | (Ok (embedding :: _), w') => (Ok embedding, w')
  | (Ok [], w') =>
      (Raise (OpenAIServiceError
                "Embedding generation failed: list index out of range"), w')
  | (Raise e, w') =>
      (Raise (OpenAIServiceError ("Embedding generation failed: " ++ exn_str e)), w')
  end.

(** [generate_embedding], the body under [@retry] with the configuration
    of the module. *)
Definition generate_embedding (text model : string) (w : world)
  : outcome (list Q) * world :=
  attempts get_openai_retry_config (generate_embedding_body text model)
    (fun seconds => sleep (inject_Z seconds)) 2 1 w.

(** The loop of [batch_generate_embeddings] over the start indices. *)
Fixpoint embed_batches (starts : list nat) (texts : list string) (model : string)
  (batch_size : nat) (embeddings : list (list Q)) (w : world)
  : outcome (list (list Q)) * world :=
  match starts with
  | [] => (Ok embeddings, w)
  | i :: starts' =>
      let batch := take batch_size (drop i texts) in
      match call_provider {| model := model; input := Many batch |} w with
      | (Ok data, w') =>
          embed_batches starts' texts model batch_size (embeddings ++ data)
            (if (i + batch_size <? length texts)%nat then sleep (1 # 10) w' else w')
      | (Raise e, w') =>
          (Raise (OpenAIServiceError
                    ("Batch embedding generation failed: " ++ exn_str e)), w')
      end
  end.

(** [batch_generate_embeddings] *)
Definition batch_generate_embeddings (texts : list string) (model : string)
  (batch_size : Z) (w : world) : outcome (list (list Q)) * world :=
  match py_range (length texts) batch_size with
  | Raise e => (Raise e, w)
  | Ok starts => embed_batches starts texts model (Z.to_nat batch_size) [] w
  end.

End WithProvider.

End Embeddings.

(** ** Whitespace and truncation ([HTMLProcessor.normalize_whitespace],
    [ExtractionService.preprocess_html]) *)

Module HtmlProcessor.

Definition newline : ascii := "010".

(** [re.sub(r'\s+', ' ', text)]: every maximal run of whitespace becomes
    one space; [in_run] says that the run being read was already replaced. *)
Fixpoint sub_ws_runs (in_run : bool) (s : string) : string :=
  match s with
  | EmptyString => EmptyString
  | String c s' =>
      if is_space c then
        if in_run then sub_ws_runs true s'
        else String " " (sub_ws_runs true s')
      else String c (sub_ws_runs false s')
  end.

(** [text.split(sep)] for a separator of one character. *)
Fixpoint split_on (sep : ascii) (s : string) : list string :=
  match s with
  | EmptyString => [EmptyString]
  | String c s' =>
      if Ascii.eqb c sep then EmptyString :: split_on sep s'
      else
        match split_on sep s' with
        | line :: lines => String c line :: lines
        | [] => [String c EmptyString]
        end
  end.

(** [re.sub(r'\n{3,}', '\n\n', text)]: of a run of newlines the first two
    are kept; [run] counts the newlines of the run read so far. *)
Fixpoint sub_newline_runs (run : nat) (s : string) : string :=
  match s with
  | EmptyString => EmptyString
  | String c s' =>
      if Ascii.eqb c newline then
        if (run <? 2)%nat then String c (sub_newline_runs (S run) s')
        else sub_newline_runs (S run) s'
      else String c (sub_newline_runs 0 s')
  end.

(** [normalize_whitespace] *)
Definition normalize_whitespace (text : string) : string :=
  let text := sub_ws_runs false text in
  let text := join (String newline EmptyString) (map strip (split_on newline text)) in
  let text := sub_newline_runs 0 text in
  strip text.

(** Text in which the only whitespace is single spaces: no whitespace
    character but the space, and no two spaces in a row; [after_space] says
    that the character before was a space. *)
Fixpoint single_spaced (after_space : bool) (s : string) : bool :=
  match s with
  | EmptyString => true
  | String c s' =>
      if is_space c then
        negb after_space && Ascii.eqb c " " && single_spaced true s'
      else single_spaced false s'
  end.

Section Preprocess.
(** Library code: the BeautifulSoup and bleach part of [clean_html], up to
    the text handed to [normalize_whitespace]; [extract_structured_data],
    which reads the parse tree; and [format_structured_data_hints], which
    prints its values with [json.dumps] and [str]. *)
Variable cleaned_markup : string -> outcome string.
Variable extract_structured_data : string -> outcome value.
Variable format_structured_data_hints : value -> outcome string.

(** [HTMLProcessor.clean_html] *)
Definition clean_html (html_content : string) : outcome string :=
  markup ← cleaned_markup html_content;
  Ok (normalize_whitespace markup).

Definition truncation_marker : string :=
  String newline (String newline "[Content truncated...]").

(** The rough character limit of [preprocess_html]. *)
Definition character_limit : nat := Z.to_nat 50000.

(** [ExtractionService.preprocess_html] *)
Definition preprocess_html (html_content : string) : outcome string :=
  cleaned_html ← clean_html html_content;
  structured_data ← extract_structured_data html_content;
  cleaned_html ←
    (if truthy structured_data then
       structured_info ← format_structured_data_hints structured_data;
       Ok (structured_info ++ String newline (String newline cleaned_html))%string
     else Ok cleaned_html);
  Ok (if (character_limit <? String.length cleaned_html)%nat
      then (take_str character_limit cleaned_html ++ truncation_marker)%string
      else cleaned_html).

End Preprocess.

End HtmlProcessor.

(** ** The extraction pipeline ([ExtractionService.extract_content]) *)

Module Extraction.
Import ConfidenceScorer Aggregates Parser.

(** [ExtractionResult], its fields as Python holds them. *)
Record result : Type := Result {
  extracted_data : value;
  confidence_scores : value;
  processing_time : value;
  cache_hit : bool;
  model_used : value;
  usage_stats : value
}.

(** [ExtractionResult.from_cache] *)
Definition from_cache (cached_data : value) (cache_hit : bool) : outcome result :=
  d ← as_dict cached_data;
  Ok {| extracted_data := dict_get_default d "extracted_data" (VDict []);
        confidence_scores := dict_get_default d "confidence_scores" (VDict []);
        processing_time := dict_get_default d "processing_time" (VInt 0);
        cache_hit := cache_hit;
        model_used := dict_get_default d "model_used" (VStr "cached");
        usage_stats := dict_get_default d "usage_stats" (VDict []) |}.

(** [ExtractionResult.to_cache_format] *)
Definition to_cache_format (r : result) : value :=
  VDict [("extracted_data", extracted_data r);
         ("confidence_scores", confidence_scores r);
         ("processing_time", processing_time r);
         ("model_used", model_used r);
         ("usage_stats", usage_stats r)]%string.

(** [_calculate_avg_confidence] on an object: [if not entities] first, then
    the comprehension over its items. *)
Definition avg_confidence (entities : value) : outcome Q :=
  if truthy entities then
    l ← iter_items entities;
    _calculate_avg_confidence l
  else Ok 0%Q.

(** The dict of confidence scores [extract_content] builds, its four
    values computed in this order. *)
Definition confidence_scores_of (filtered_data : value) : outcome value :=
  overall ← calculate_overall_confidence filtered_data;
  d ← as_dict filtered_data;
  events_avg ← avg_confidence (dict_get_default d "events" (VList []));
  speakers_avg ← avg_confidence (dict_get_default d "speakers" (VList []));
  companies_avg ← avg_confidence (dict_get_default d "companies" (VList []));
  Ok (VDict [("overall", VFloat overall); ("events_avg", VFloat events_avg);
             ("speakers_avg", VFloat speakers_avg);
             ("companies_avg", VFloat companies_avg)]%string).

(** [openai_response['usage']] *)
Definition usage_dict (usage : Z * Z * Z) : value :=
  let '(prompt_tokens, completion_tokens, total_tokens) := usage in
  VDict [("prompt_tokens", VInt prompt_tokens);
         ("completion_tokens", VInt completion_tokens);
         ("total_tokens", VInt total_tokens)]%string.

(** What the service acts on: its cache and the provider. *)
Record state : Type := State {
  cache : CacheService.t value;
  provider : OpenAIService.world
}.

(** The clock readings of one call: the event loop's clock when the cache
    is read and when it is written, and the seconds [time.time()] counts from
    before the provider call to after the scoring. *)
Record clock : Type := Clock {
  read_at : Q;
  written_at : Q;
  elapsed : Q
}.

Section WithEnvironment.
(** Library code and code outside this module: the digest and the
    BeautifulSoup printer behind the cache key, [preprocess_html], the prompt
    text of [get_extraction_prompt], the provider and the JSON decoder. *)
Variable sha256_hexdigest : string -> string.
Variable soup_normalized : string -> outcome string.
Variable preprocess_html : string -> outcome string.
Variable get_extraction_prompt : string -> string.
Variable create : OpenAIService.request -> nat -> outcome OpenAIService.response.
Variable self_model : string.
Variable json_loads : string -> outcome value.

(** [extract_content] from the preprocessing on: the part that runs when
    the cache is not used or holds nothing for the key. *)
Definition extract_fresh (html_content extraction_type : string)
  (use_cache : bool) (confidence_threshold : Q) (cache_key : string)
  (t : clock) (st : state) : outcome result * state :=
  match preprocess_html html_content with
  | Raise e => (Raise e, st)
  | Ok cleaned_html =>
      let prompt := get_extraction_prompt extraction_type in
      let '(response, w) :=
        OpenAIService.extract_content create self_model cleaned_html prompt
          (1 # 10) (provider st) in
      let st := {| cache := cache st; provider := w |} in
      match response with
      | Raise e =>
          (Raise (ContentExtractionError
                    ("OpenAI API call failed: " ++ exn_str e)), st)
      | Ok openai_response =>
          match parse_openai_response json_loads
                  (OpenAIService.extracted_data openai_response) with
          | Raise e =>
              (Raise (ContentExtractionError
                        ("Failed to parse extraction response: " ++ exn_str e)),
               st)
          | Ok extracted_data =>
              match
                (filtered_data ← validate_and_filter extracted_data
                                   confidence_threshold;
                 scores ← confidence_scores_of filtered_data;
                 Ok (filtered_data, scores))
              with
              | Raise e => (Raise e, st)
              | Ok (filtered_data, scores) =>
                  let result :=
                    {| extracted_data := filtered_data;
                       confidence_scores := scores;
                       processing_time := VFloat (elapsed t);
                       cache_hit := false;
                       model_used :=
                         VStr (OpenAIService.extraction_model openai_response);
                       usage_stats :=
                         usage_dict (OpenAIService.usage openai_response) |} in
                  (Ok result,
                   {| cache :=
                        if use_cache && truthy filtered_data then
                          snd (CacheService.set (written_at t) cache_key
                                 (to_cache_format result) None (cache st))
                        else cache st;
                      provider := w |})
              end
          end
      end
  end.

(** [extract_content] *)
Definition extract_content (html_content url extraction_type : string)
  (use_cache : bool) (confidence_threshold : Q) (t : clock) (st : state)
  : outcome result * state :=
  let cache_key :=
    CacheService.generate_cache_key sha256_hexdigest soup_normalized
      html_content extraction_type in
  if use_cache then
    let '(cached_result, c) := CacheService.get (read_at t) cache_key (cache st) in
    let st := {| cache := c; provider := provider st |} in
    match cached_result with
    | Some cached =>
        if truthy cached then (from_cache cached true, st)
        else extract_fresh html_content extraction_type use_cache
               confidence_threshold cache_key t st
    | None =>
        extract_fresh html_content extraction_type use_cache
          confidence_threshold cache_key t st
    end
  else
    extract_fresh html_content extraction_type use_cache confidence_threshold
      cache_key t st.

End WithEnvironment.

End Extraction.

(** ** Floating-point values

    The scores are rationals here and [float]s, that is binary64 numbers, in
    the interpreter, where a quotient is the binary64 number nearest to the
    exact one, a tie going to the even significand. *)

Module Float.
Local Open Scope Z_scope.

(** The integer nearest to [n / d], for [d > 0]; a tie goes to the even
    one. *)
Definition nearest_even (n d : Z) : Z :=
  let f := n / d in
  let r := 2 * (n mod d) in
  if r <? d then f
  else if d <? r then f + 1
  else if Z.even f then f else f + 1.

(** [floor (log2 (n / d))], for [n > 0] and [d > 0]. *)
Definition binade (n d : Z) : Z :=
  let e := Z.log2 n - Z.log2 d in
  if d * 2 ^ Z.max 0 e <=? n * 2 ^ Z.max 0 (- e) then e else e - 1.

(** The binary64 number nearest to [q], within the range of the normal
    numbers: the nearest multiple of [2 ^ (e - 52)], where
    [2 ^ e <= |q| < 2 ^ (e + 1)]. *)
Definition binary64 (q : Q) : Q :=
  let n := Qnum q in
  let d := Zpos (Qden q) in
  if n =? 0 then 0%Q
  else
    let s := 52 - binade (Z.abs n) d in
    let m := nearest_even (n * 2 ^ Z.max 0 s) (d * 2 ^ Z.max 0 (- s)) in
    Qred (Qmake (m * 2 ^ Z.max 0 (- s)) (Z.to_pos (2 ^ Z.max 0 s))).

End Float.

(** ** Sample inputs *)

Module Examples.

(** A cache of capacity 2 after [set a], [set b], [get a]. *)
Definition two_keys : MemoryCache.logged nat :=
  MemoryCache.run
    [MemoryCache.OpSet 0 "a" 1%nat None; MemoryCache.OpSet 0 "b" 2%nat None;
     MemoryCache.OpGet 1 "a"]
    (MemoryCache.start 2).

(** A cache of capacity 2 after [set a], [set b], [set a], with the log
    of accesses in which a write is an access. *)
Definition rewritten : MemoryCache.logged nat :=
  MemoryCache.touch_run
    [MemoryCache.OpSet 0 "a" 1%nat None; MemoryCache.OpSet 1 "b" 2%nat None;
     MemoryCache.OpSet 2 "a" 3%nat None]
    (MemoryCache.start 2).

(** A provider that answers the first request with a rate-limit error and
    every later one with a completion. *)
Definition flaky (answer : OpenAIService.response)
  (req : OpenAIService.request) (n : nat) : outcome OpenAIService.response :=
  match n with
  | O => Raise (RateLimitError "Rate limit reached")
  | _ => Ok answer
  end.

Definition answer : OpenAIService.response :=
  {| OpenAIService.content := "{}"; OpenAIService.response_model := "gpt-4";
     OpenAIService.prompt_tokens := 100;
     OpenAIService.completion_tokens := 50;
     OpenAIService.total_tokens := 150 |}.

Definition fresh : OpenAIService.world :=
  {| OpenAIService.requests_sent := 0; OpenAIService.slept := [] |}.

(** The event of the specification's example, with description [desc]. *)
Definition summit_event (desc : string) : value :=
  VDict [("title", VStr "AI Summit 2024"); ("date", VStr "2024-06-15");
         ("location", VStr "SF"); ("description", VStr desc)]%string.

Definition bare_event : value := VDict [("title", VStr "Event")]%string.

Definition fifty_six : string :=
  "A comprehensive conference about artificial intelligence".

(** A dataset with the example event, which scores 5/7, an event that
    scores 0, and a topic. *)
Definition sample_data : list (string * value) :=
  [("events", VList [summit_event fifty_six; bare_event]);
   ("topics", VList [VStr "AI"])]%string.

(** [score_event] as the interpreter computes it.  The points are
    multiples of 2.5 and the maximum is an integer, sums a [float] holds
    exactly, so that the only rounding is that of the quotient
    [score / max_score]. *)
Definition score_event_binary64 (event : value) : outcome Q :=
  confidence ← ConfidenceScorer.score_event event;
  Ok (Float.binary64 confidence).

Definition sample_result : value :=
  Eval vm_compute in
    match ConfidenceScorer.validate_and_filter (VDict sample_data) (5 # 7)%Q with
    | Ok r => r
    | Raise _ => VNone
    end.

(** Three requests; the tasks finish in the order 2, 0, 1. *)
Definition three_requests : list Batch.request :=
  [Batch.Request "<html>a</html>" "https://a.example" None None None;
   Batch.Request "<html>b</html>" "https://b.example" (Some "events_only"%string) None None;
   Batch.Request "<html>c</html>" "https://c.example" None (Some false) None].

(** What a task finds: no event, the page and the extraction type kept as
    metadata; a cache hit when the task may use the cache. *)
Definition found (html_content extraction_type : string) (use_cache : bool)
  : Batch.ExtractionResult :=
  {| Batch.extracted_data :=
       VDict [("events", VList []);
              ("metadata", VDict [("page", VStr html_content);
                                  ("type", VStr extraction_type)])]%string;
     Batch.confidence_scores := [("overall", 0%Q)]%string;
     Batch.processing_time := (3 # 2)%Q; Batch.cache_hit := use_cache;
     Batch.model_used := "gpt-4"; Batch.usage_stats := VDict [] |}.

(** A run in which the task called with the page [<html>b</html>] meets a
    provider failure and every other task returns. *)
Definition second_fails (i : nat) (args : string * string * string * bool * Q)
  : outcome Batch.ExtractionResult :=
  let '(html_content, url, extraction_type, use_cache, confidence_threshold) :=
    args in
  if String.eqb html_content "<html>b</html>"
  then Raise (ContentExtractionError "OpenAI API call failed: boom")
  else Ok (found html_content extraction_type use_cache).

(** The response [{"events": [],}]: valid but for the trailing comma. *)
Definition trailing_comma : string :=
  ("{" ++ JsonText.quoted "events" ++ ": [],}")%string.

(** The printer of a text without markup: the text itself. *)
Definition plain_text (html : string) : outcome string := Ok html.

End Examples.

(** ** Further sample inputs *)

Module MoreExamples.

(** A speaker with every scored field filled. *)
Definition full_speaker : value :=
  VDict [("name", VStr "Ada Lovelace"); ("title", VStr "Chief Engineer");
         ("company", VStr "Analytical Engines");
         ("bio", VStr "Wrote the first published program.");
         ("linkedin_url", VStr "https://www.linkedin.com/in/ada");
         ("twitter_url", VStr "https://twitter.com/ada");
         ("website_url", VStr "https://ada.example.com")]%string.

(** The sample dataset filtered with the threshold 0. *)
Definition sample_unfiltered : value :=
  Eval vm_compute in
    match ConfidenceScorer.validate_and_filter (VDict Examples.sample_data) 0%Q with
    | Ok r => r
    | Raise _ => VNone
    end.

(** A dataset whose second event is a string where a dict is expected. *)
Definition malformed_data : list (string * value) :=
  [("events", VList [Examples.summit_event Examples.fifty_six; VStr "oops"])]%string.

(** The response [{"events": null}]. *)
Definition null_events : string :=
  ("{" ++ JsonText.quoted "events" ++ ": null}")%string.

(** The object [{"events": []}], and the same between the markers of a
    markdown fence, each followed by a newline. *)
Definition events_body : string :=
  ("{" ++ JsonText.quoted "events" ++ ": []}")%string.

Definition fenced_events : string :=
  ("```json" ++ OpenAIService.newline ++ events_body
   ++ OpenAIService.newline ++ "```")%string.

(** An embeddings provider that answers every text with one number, the
    length of the text; one that refuses the first request with a rate-limit
    error; and one that refuses the second. *)
Definition length_embeddings (req : Embeddings.request) (n : nat)
  : outcome Embeddings.response :=
  let embed text := [inject_Z (Z.of_nat (String.length text))] in
  match Embeddings.input req with
  | Embeddings.One text => Ok [embed text]
  | Embeddings.Many texts => Ok (map embed texts)
  end.

Definition first_refused (req : Embeddings.request) (n : nat)
  : outcome Embeddings.response :=
  match n with
  | O => Raise (RateLimitError "Rate limit reached")
  | _ => length_embeddings req n
  end.

Definition second_refused (req : Embeddings.request) (n : nat)
  : outcome Embeddings.response :=
  match n with
  | 1%nat => Raise (RateLimitError "Rate limit reached")
  | _ => length_embeddings req n
  end.

Definition five_texts : list string := ["a"; "bb"; "ccc"; "dddd"; "eeeee"]%string.

Definition quiet : Embeddings.world :=
  {| Embeddings.requests_sent := 0; Embeddings.slept := [] |}.

(** Two lines of text with blanks around them. *)
Definition two_lines : string :=
  ("  AI   Summit 2024" ++ String HtmlProcessor.newline
   (String HtmlProcessor.newline "   San Francisco  "))%string.

(** A provider that answers every request with the text [content], and one
    that refuses every request. *)
Definition replies (content : string) (req : OpenAIService.request) (n : nat)
  : outcome OpenAIService.response :=
  Ok {| OpenAIService.content := content;
        OpenAIService.response_model := "gpt-4";
        OpenAIService.prompt_tokens := 100;
        OpenAIService.completion_tokens := 50;
        OpenAIService.total_tokens := 150 |}.

Definition refuses (req : OpenAIService.request) (n : nat)
  : outcome OpenAIService.response :=
  Raise (RateLimitError "Rate limit reached").

(** The response [{"events": [{"title": "AI Summit 2024", "date":
    "2024-06-15", "location": "San Francisco, CA"}]}]. *)
Definition summit_response : string :=
  ("{" ++ JsonText.quoted "events" ++ ": [{"
   ++ JsonText.quoted "title" ++ ": " ++ JsonText.quoted "AI Summit 2024" ++ ", "
   ++ JsonText.quoted "date" ++ ": " ++ JsonText.quoted "2024-06-15" ++ ", "
   ++ JsonText.quoted "location" ++ ": " ++ JsonText.quoted "San Francisco, CA"
   ++ "}]}")%string.

(** A service with an empty cache that has sent no request, and the clock
    readings of two calls a minute apart. *)
Definition idle : Extraction.state :=
  {| Extraction.cache := CacheService.init 3600;
     Extraction.provider := Examples.fresh |}.

Definition first_call : Extraction.clock :=
  {| Extraction.read_at := 0; Extraction.written_at := 1;
     Extraction.elapsed := 3 # 2 |}.

Definition second_call : Extraction.clock :=
  {| Extraction.read_at := 60; Extraction.written_at := 61;
     Extraction.elapsed := 1 |}.

(** The pipeline around a provider: the digest of the file, a page
    without markup, no preprocessing, a fixed prompt, the decoder of the
    file. *)
Definition pipeline (create : OpenAIService.request -> nat
                              -> outcome OpenAIService.response)
  (html_content url extraction_type : string) (use_cache : bool)
  (confidence_threshold : Q) (t : Extraction.clock) (st : Extraction.state)
  : outcome Extraction.result * Extraction.state :=
  Extraction.extract_content Sha256.hexdigest Examples.plain_text
    (fun html => Ok html) (fun _ => "prompt"%string) create "gpt-4"
    JsonText.loads html_content url extraction_type use_cache
    confidence_threshold t st.

End MoreExamples.

(** * Properties *)

(** ** Python dicts *)

Module PyValFacts.

Lemma dict_lookup_set_eq k v d : dict_lookup k (dict_set k v d) = Some v.
Proof.
  induction d as [|[k' w] d IH]; simpl.
  - by rewrite String.eqb_refl.
  - destruct (String.eqb_spec k' k) as [->|Hne]; simpl.
    + by rewrite String.eqb_refl.
    + by destruct (String.eqb_spec k' k).
Qed.

Lemma dict_lookup_set_ne k k' v d :
  k <> k' -> dict_lookup k' (dict_set k v d) = dict_lookup k' d.
Proof.
  intros Hne. induction d as [|[k0 w] d IH]; simpl.
  - by destruct (String.eqb_spec k k').
  - destruct (String.eqb_spec k0 k) as [->|Hne0]; simpl.
    + by destruct (String.eqb_spec k k').
    + by destruct (String.eqb_spec k0 k').
Qed.

Lemma dict_get_set_ne k k' v d :
  k <> k' -> dict_get (dict_set k v d) k' = dict_get d k'.
Proof. intros H. unfold dict_get. by rewrite dict_lookup_set_ne. Qed.

Lemma dict_get_set_eq k v d : dict_get (dict_set k v d) k = v.
Proof. unfold dict_get. by rewrite dict_lookup_set_eq. Qed.

End PyValFacts.
Export PyValFacts.


(** ** The in-process cache: consistency of the store and its access order *)

Module MemoryCacheFacts.
Import MemoryCache.

Lemma list_remove_split x l l' :
  list_remove x l = Some l' ->
  exists l1 l2, l = l1 ++ x :: l2 /\ l' = l1 ++ l2 /\ x ∉ l1.
Proof.
  revert l'. induction l as [|y l IH]; intros l' H; simpl in H; [done|].
  case_bool_decide as Hxy.
  - injection H as <-. subst y. exists [], l. split_and!; [done..|].
    apply not_elem_of_nil.
  - destruct (list_remove x l) as [r|] eqn:Hr; simpl in H; [|done].
    injection H as <-.
    destruct (IH r eq_refl) as (l1 & l2 & -> & -> & Hn).
    exists (y :: l1), l2. split_and!; [done..|].
    rewrite not_elem_of_cons. done.
Qed.

Lemma list_remove_is_Some x l : x ∈ l -> is_Some (list_remove x l).
Proof.
  induction l as [|y l IH]; intros Hin; [by apply elem_of_nil in Hin|].
  simpl. case_bool_decide as Hxy; [by eexists|].
  apply elem_of_cons in Hin as [?|Hin]; [done|].
  destruct (IH Hin) as [r ->]. by eexists.
Qed.

Lemma increasing_ext f g l :
  (forall k, k ∈ l -> f k = g k) -> increasing f l -> increasing g l.
Proof.
  unfold increasing. induction l as [|a l IH]; intros Hfg Hs; [constructor|].
  apply StronglySorted_cons in Hs as [Hall Hs].
  apply StronglySorted_cons. split.
  - rewrite Forall_forall in Hall |- *. intros b Hb.
    rewrite <- !Hfg; [by apply Hall| by right | by left].
  - apply IH; [|done]. intros k Hk. apply Hfg. by right.
Qed.

Lemma increasing_NoDup f l : increasing f l -> NoDup l.
Proof.
  unfold increasing. induction 1 as [|a l Hs IH Hall]; constructor; [|done].
  intros Hin. rewrite Forall_forall in Hall. specialize (Hall a Hin). lia.
Qed.

Lemma increasing_remove f l1 x l2 :
  increasing f (l1 ++ x :: l2) -> increasing f (l1 ++ l2) /\ x ∉ l1 ++ l2.
Proof.
  unfold increasing. intros H.
  apply StronglySorted_app in H as (H12 & H1 & H2).
  apply StronglySorted_cons in H2 as [Hx H2].
  rewrite Forall_forall in Hx. split.
  - apply StronglySorted_app_2; [|done..].
    intros a b Ha Hb. apply H12; [done|]. by right.
  - intros [Hin|Hin]%elem_of_app.
    + assert (f x < f x)%nat; [|lia]. apply H12; [done|by left].
    + specialize (Hx x Hin). lia.
Qed.

Lemma increasing_snoc f l x :
  increasing f l -> (forall a, a ∈ l -> (f a < f x)%nat) -> increasing f (l ++ [x]).
Proof.
  intros Hs Hlt. apply StronglySorted_app_2; [|done|].
  - intros a b Ha Hb. apply list_elem_of_singleton in Hb as ->. by apply Hlt.
  - repeat constructor.
Qed.

Section Facts.
Context {V : Type}.
Implicit Types (s : t V) (h : logged V) (k key : string).

Lemma wf_consistent h : wf h -> consistent (cur h).
Proof. intros [Hd Hs _]. split; [by eapply increasing_NoDup|done]. Qed.

Lemma wf_start m : wf (start (V:=V) m).
Proof.
  split; simpl.
  - intros k. split; [by intros ?%elem_of_nil|].
    rewrite lookup_empty. by intros [? ?].
  - constructor.
  - by intros k ?%elem_of_nil.
Qed.

(** *** What each method does on a consistent object *)

Lemma get_miss now key s :
  _cache s !! key = None -> get now key s = (Ok None, s).
Proof. intros H. unfold get. by rewrite H. Qed.

Lemma get_hit now key s e :
  consistent s -> _cache s !! key = Some e -> expired now e = false ->
  exists l1 l2,
    _access_order s = l1 ++ key :: l2 /\
    get now key s =
      (Ok (Some (value e)),
       {| _cache := _cache s; _access_order := (l1 ++ l2) ++ [key];
          max_size := max_size s |}).
Proof.
  intros [_ Hdom] He Hx. unfold get. rewrite He, Hx.
  destruct (list_remove_is_Some key (_access_order s)) as [ao Hao].
  { apply Hdom. by eexists. }
  rewrite Hao.
  destruct (list_remove_split _ _ _ Hao) as (l1 & l2 & E1 & -> & _).
  by exists l1, l2.
Qed.

Lemma remove_key_present key s e :
  consistent s -> _cache s !! key = Some e ->
  exists l1 l2,
    _access_order s = l1 ++ key :: l2 /\
    _remove_key key s =
      (Ok true,
       {| _cache := base.delete key (_cache s); _access_order := l1 ++ l2;
          max_size := max_size s |}).
Proof.
  intros [_ Hdom] He. unfold _remove_key. rewrite He.
  assert (key ∈ _access_order s) as Hin by (apply Hdom; by eexists).
  rewrite bool_decide_eq_true_2 by done.
  destruct (list_remove_is_Some key (_access_order s) Hin) as [ao Hao].
  rewrite Hao.
  destruct (list_remove_split _ _ _ Hao) as (l1 & l2 & E1 & -> & _).
  by exists l1, l2.
Qed.

Lemma remove_key_absent key s :
  _cache s !! key = None -> _remove_key key s = (Ok false, s).
Proof. intros H. unfold _remove_key. by rewrite H. Qed.

Lemma get_expired now key s e :
  consistent s -> _cache s !! key = Some e -> expired now e = true ->
  exists l1 l2,
    _access_order s = l1 ++ key :: l2 /\
    get now key s =
      (Ok None,
       {| _cache := base.delete key (_cache s); _access_order := l1 ++ l2;
          max_size := max_size s |}).
Proof.
  intros Hc He Hx. unfold get. rewrite He, Hx.
  destruct (remove_key_present key s e Hc He) as (l1 & l2 & E & ->).
  by exists l1, l2.
Qed.

Lemma set_present now key v ttl s :
  consistent s -> is_Some (_cache s !! key) ->
  set now key v ttl s =
    (Ok true,
     {| _cache := <[key := CacheEntry v ttl now]> (_cache s);
        _access_order := _access_order s; max_size := max_size s |}).
Proof.
  intros [_ Hdom] Hk. unfold set.
  rewrite (bool_decide_eq_true_2 _ Hk), andb_false_r. unfold store.
  by rewrite bool_decide_eq_true_2 by (by apply Hdom).
Qed.

Lemma set_room now key v ttl s :
  consistent s -> _cache s !! key = None -> ~ at_capacity s ->
  set now key v ttl s =
    (Ok true,
     {| _cache := <[key := CacheEntry v ttl now]> (_cache s);
        _access_order := _access_order s ++ [key]; max_size := max_size s |}).
Proof.
  intros [_ Hdom] Hk Hcap. unfold set, at_capacity in *.
  destruct (Z.leb_spec (max_size s) (Z.of_nat (size (_cache s)))); [lia|].
  simpl. unfold store.
  rewrite bool_decide_eq_false_2; [done|].
  rewrite Hdom, Hk. by intros [? ?].
Qed.

Lemma set_evicts now key v ttl s oldest rest :
  consistent s -> _cache s !! key = None -> at_capacity s ->
  _access_order s = oldest :: rest ->
  set now key v ttl s =
    (Ok true,
     {| _cache := <[key := CacheEntry v ttl now]> (base.delete oldest (_cache s));
        _access_order := rest ++ [key]; max_size := max_size s |}).
Proof.
  intros [Hnd Hdom] Hk Hcap Hao. unfold set, at_capacity in *.
  destruct (Z.leb_spec (max_size s) (Z.of_nat (size (_cache s)))); [|lia].
  rewrite bool_decide_eq_false_2 by (rewrite Hk; by intros [? ?]).
  simpl. unfold evict. rewrite Hao. simpl.
  destruct (proj1 (Hdom oldest)) as [e He]; [rewrite Hao; by left|].
  rewrite He. unfold store. simpl.
  rewrite bool_decide_eq_false_2; [done|].
  intros Hin. assert (key ∈ _access_order s) as Hin'
    by (rewrite Hao; by right).
  apply Hdom in Hin'. rewrite Hk in Hin'. by destruct Hin'.
Qed.

Lemma set_raises_empty now key v ttl s :
  at_capacity s -> _cache s !! key = None -> _access_order s = [] ->
  set now key v ttl s = (Raise IndexError, s).
Proof.
  intros Hcap Hk Hao. unfold set, at_capacity in *.
  destruct (Z.leb_spec (max_size s) (Z.of_nat (size (_cache s)))); [|lia].
  rewrite bool_decide_eq_false_2 by (rewrite Hk; by intros [? ?]).
  simpl. unfold evict. by rewrite Hao.
Qed.

(** *** The invariant holds in every reachable state *)

Lemma wf_keep h s' :
  wf h ->
  (forall k, k ∈ _access_order s' <-> is_Some (_cache s' !! k)) ->
  increasing (stamp h) (_access_order s') ->
  (forall k, k ∈ _access_order s' -> k ∈ _access_order (cur h)) ->
  wf {| cur := s'; last_access := last_access h; calls := S (calls h) |}.
Proof.
  intros Hwf Hdom Hinc Hsub. split; simpl; [done|done|].
  intros k Hk. apply Hsub, (wf_past _ Hwf) in Hk. unfold stamp in *.
  simpl. lia.
Qed.

Lemma wf_touch h s' key l :
  wf h ->
  _access_order s' = l ++ [key] ->
  key ∉ l ->
  (forall k, k ∈ l -> k ∈ _access_order (cur h)) ->
  increasing (stamp h) l ->
  (forall k, k ∈ _access_order s' <-> is_Some (_cache s' !! k)) ->
  wf {| cur := s'; last_access := <[key := calls h]> (last_access h);
        calls := S (calls h) |}.
Proof.
  intros Hwf Hao Hnin Hsub Hinc Hdom.
  set (h' := {| cur := s'; last_access := <[key := calls h]> (last_access h);
                calls := S (calls h) |}).
  assert (stamp h' key = calls h) as Hkey.
  { unfold stamp, h'. simpl. by rewrite lookup_insert_eq. }
  assert (forall k, k ∈ l -> stamp h' k = stamp h k) as Hother.
  { intros k Hk. unfold stamp, h'. simpl.
    rewrite lookup_insert_ne; [done|]. intros ->. done. }
  split; simpl; [done| |].
  - rewrite Hao. apply increasing_snoc.
    + eapply increasing_ext; [|exact Hinc]. intros k Hk. by rewrite Hother.
    + intros a Ha. rewrite Hkey, (Hother a Ha).
      by apply (wf_past _ Hwf), Hsub.
  - rewrite Hao. intros k [Hk| ->%list_elem_of_singleton]%elem_of_app.
    + rewrite (Hother k Hk). apply Hsub, (wf_past _ Hwf) in Hk. lia.
    + rewrite Hkey. lia.
Qed.

Lemma wf_removed h l1 key l2 :
  wf h -> _access_order (cur h) = l1 ++ key :: l2 ->
  increasing (stamp h) (l1 ++ l2) /\ (key ∉ l1 ++ l2) /\
  (forall k, k ∈ l1 ++ l2 <-> k ∈ _access_order (cur h) /\ k <> key).
Proof.
  intros Hwf Hao. pose proof (wf_sorted _ Hwf) as Hs. rewrite Hao in Hs.
  destruct (increasing_remove _ _ _ _ Hs) as [Hinc Hnin].
  split_and!; [done..|]. intros k. rewrite Hao.
  rewrite !elem_of_app, elem_of_cons. split.
  - intros Hk. split; [tauto|]. intros ->. apply Hnin, elem_of_app. tauto.
  - intros [[?|[?|?]] Hne]; tauto.
Qed.

Lemma wf_log_step o h : wf h -> wf (log_step o h).
Proof.
  intros Hwf. pose proof (wf_consistent _ Hwf) as Hc.
  destruct h as [s la n]. unfold log_step. simpl in *.
  destruct o as [now key | now key v ttl | key]; simpl.
  - (* get *)
    destruct (_cache s !! key) as [e|] eqn:He.
    + destruct (expired now e) eqn:Hx.
      * destruct (get_expired now key s e Hc He Hx) as (l1 & l2 & Hao & ->).
        destruct (wf_removed _ _ _ _ Hwf Hao) as (Hinc & Hnin & Hel).
        apply (wf_keep _ _ Hwf); simpl; [|done|intros k; rewrite Hel; tauto].
        intros k. rewrite Hel. simpl. rewrite (wf_dom _ Hwf). simpl.
        destruct (decide (key = k)) as [->|Hne].
        { rewrite lookup_delete_eq. split; [tauto|]. by intros [? ?]. }
        rewrite lookup_delete_ne by done. split; [tauto|]. intros ?. done.
      * destruct (get_hit now key s e Hc He Hx) as (l1 & l2 & Hao & ->).
        destruct (wf_removed _ _ _ _ Hwf Hao) as (Hinc & Hnin & Hel).
        apply (wf_touch _ _ key (l1 ++ l2) Hwf); simpl;
          [done|done|intros k; rewrite Hel; tauto|done|].
        intros k. rewrite <- (wf_dom _ Hwf). simpl. rewrite Hao.
        rewrite !elem_of_app, !elem_of_cons, elem_of_nil. tauto.
    + rewrite (get_miss now key s He).
      apply (wf_keep _ _ Hwf); simpl;
        [apply (wf_dom _ Hwf)|apply (wf_sorted _ Hwf)|done].
  - (* set *)
    destruct (_cache s !! key) as [e|] eqn:He.
    + rewrite (set_present now key v ttl s Hc) by (by eexists).
      apply (wf_keep _ _ Hwf); simpl; [|apply (wf_sorted _ Hwf)|done].
      intros k. rewrite (wf_dom _ Hwf). simpl.
      destruct (decide (key = k)) as [->|Hne].
      { rewrite lookup_insert_eq, He. split; by eexists. }
      by rewrite lookup_insert_ne.
    + destruct (Z_le_dec (max_size s) (Z.of_nat (size (_cache s))))
        as [Hcap|Hcap].
      * destruct (_access_order s) as [|oldest rest] eqn:Hao.
        { rewrite (set_raises_empty now key v ttl s Hcap He Hao). simpl.
          apply (wf_keep _ _ Hwf); simpl;
            [apply (wf_dom _ Hwf)|apply (wf_sorted _ Hwf)|done]. }
        rewrite (set_evicts now key v ttl s oldest rest Hc He Hcap Hao).
        simpl.
        destruct (wf_removed _ [] oldest rest Hwf Hao) as (Hinc & Hnin & Hel).
        simpl in *.
        assert (key ∉ rest) as Hkr.
        { intros Hin. apply Hel in Hin as [Hin _].
          apply (wf_dom _ Hwf) in Hin. simpl in Hin. rewrite He in Hin.
          by destruct Hin. }
        apply (wf_touch _ _ key rest Hwf); simpl;
          [done|done|intros k; rewrite Hel; tauto|done|].
        intros k. rewrite elem_of_app, list_elem_of_singleton, Hel.
        rewrite (wf_dom _ Hwf). simpl.
        destruct (decide (key = k)) as [->|Hne].
        { rewrite lookup_insert_eq. split; [by eexists|tauto]. }
        rewrite lookup_insert_ne by done.
        destruct (decide (oldest = k)) as [->|Hne'].
        { rewrite lookup_delete_eq. split; [intros [[_ ?]|?]; done|].
          by intros [? ?]. }
        rewrite lookup_delete_ne by done.
        split; [intros [[? _]|?]; done|]. intros ?. left. done.
      * rewrite (set_room now key v ttl s Hc He Hcap). simpl.
        assert (key ∉ _access_order s) as Hkr.
        { intros Hin. apply (wf_dom _ Hwf) in Hin. simpl in Hin.
          rewrite He in Hin. by destruct Hin. }
        apply (wf_touch _ _ key (_access_order s) Hwf); simpl;
          [done|done|done|apply (wf_sorted _ Hwf)|].
        intros k. rewrite elem_of_app, list_elem_of_singleton.
        rewrite (wf_dom _ Hwf). simpl.
        destruct (decide (key = k)) as [->|Hne].
        { rewrite lookup_insert_eq. split; [by eexists|tauto]. }
        rewrite lookup_insert_ne by done. split; [intros [?|?]; done|tauto].
  - (* delete *)
    unfold delete.
    destruct (_cache s !! key) as [e|] eqn:He.
    + destruct (remove_key_present key s e Hc He) as (l1 & l2 & Hao & ->).
      destruct (wf_removed _ _ _ _ Hwf Hao) as (Hinc & Hnin & Hel).
      apply (wf_keep _ _ Hwf); simpl; [|done|intros k; rewrite Hel; tauto].
      intros k. rewrite Hel. simpl. rewrite (wf_dom _ Hwf). simpl.
      destruct (decide (key = k)) as [->|Hne].
      { rewrite lookup_delete_eq. split; [tauto|]. by intros [? ?]. }
      rewrite lookup_delete_ne by done. split; [tauto|]. intros ?. done.
    + rewrite (remove_key_absent key s He).
      apply (wf_keep _ _ Hwf); simpl;
        [apply (wf_dom _ Hwf)|apply (wf_sorted _ Hwf)|done].
Qed.

Lemma max_size_step o s : max_size (step o s) = max_size s.
Proof.
  destruct o as [now key | now key v ttl | key]; simpl.
  - unfold get. destruct (_cache s !! key) as [e|]; [|done].
    destruct (expired now e).
    + unfold _remove_key. destruct (_cache s !! key); [|done].
      case_bool_decide; [|done]. by destruct (list_remove _ _).
    + by destruct (list_remove _ _).
  - unfold set, evict.
    destruct (_ && _); [|done].
    destruct (list_pop0 _) as [[x ao]|]; [|done]. simpl.
    by destruct (_cache s !! x).
  - unfold delete, _remove_key. destruct (_cache s !! key); [|done].
    case_bool_decide; [|done]. by destruct (list_remove _ _).
Qed.

Lemma wf_run ops h : wf h -> wf (run ops h).
Proof.
  revert h. induction ops as [|o ops IH]; intros h Hwf; [done|].
  simpl. apply IH. by apply wf_log_step.
Qed.

Lemma reachable_wf h : reachable h -> wf h.
Proof. intros [ops ->]. apply wf_run, wf_start. Qed.

Lemma reachable_step o h : reachable h -> reachable (log_step o h).
Proof.
  intros [ops Hh]. exists (ops ++ [o]). simpl. rewrite max_size_step.
  unfold run. rewrite foldl_app. simpl. by rewrite Hh at 1.
Qed.

End Facts.
End MemoryCacheFacts.

(** ** The in-process cache: eviction, expiry and round trips *)

Module MemoryCacheSpec.
Import MemoryCache MemoryCacheFacts Examples.

Section Spec.
Context {V : Type}.
Implicit Types (s : t V) (h : logged V) (k key : string).

Lemma oldest_is_least_recent h oldest rest :
  wf h -> _access_order (cur h) = oldest :: rest ->
  least_recently_accessed h oldest.
Proof.
  intros Hwf Hao. split.
  - apply (wf_dom _ Hwf). rewrite Hao. by left.
  - intros k' Hk' Hne. apply (wf_dom _ Hwf) in Hk'.
    pose proof (wf_sorted _ Hwf) as Hs. rewrite Hao in Hs, Hk'.
    apply StronglySorted_cons in Hs as [Hall _].
    rewrite Forall_forall in Hall. apply Hall.
    apply elem_of_cons in Hk' as [?|?]; done.
Qed.

Lemma full_nonempty h :
  wf h -> 0 < max_size (cur h) -> at_capacity (cur h) ->
  exists oldest rest, _access_order (cur h) = oldest :: rest.
Proof.
  intros Hwf Hpos Hcap. unfold at_capacity in Hcap.
  destruct (_access_order (cur h)) as [|oldest rest] eqn:Hao; [|by eauto].
  assert (_cache (cur h) = ∅) as Hempty.
  { apply map_empty. intros k.
    destruct (_cache (cur h) !! k) eqn:Hk; [|done].
    assert (k ∈ _access_order (cur h)) as Hin
      by (apply (wf_dom _ Hwf); by eexists).
    rewrite Hao in Hin. by apply elem_of_nil in Hin. }
  rewrite Hempty, map_size_empty in Hcap. lia.
Qed.

Lemma least_recent_unique h k1 k2 :
  least_recently_accessed h k1 -> least_recently_accessed h k2 -> k1 = k2.
Proof.
  intros [H1 L1] [H2 L2]. destruct (decide (k1 = k2)) as [|Hne]; [done|].
  specialize (L1 k2 H2 (not_eq_sym Hne)). specialize (L2 k1 H1 Hne). lia.
Qed.

Lemma get_refreshes h now key e :
  wf h -> _cache (cur h) !! key = Some e -> expired now e = false ->
  let h' := log_step (OpGet now key) h in
  _cache (cur h') = _cache (cur h) /\
  forall k', is_Some (_cache (cur h) !! k') -> k' <> key ->
             (stamp h' k' < stamp h' key)%nat.
Proof.
  intros Hwf He Hx h'. pose proof (wf_consistent _ Hwf) as Hc.
  destruct (get_hit now key (cur h) e Hc He Hx) as (l1 & l2 & Hao & Hget).
  subst h'. unfold log_step, stamp. simpl. rewrite He, Hx, Hget. simpl.
  split; [done|]. intros k' Hk' Hne.
  rewrite lookup_insert_eq, lookup_insert_ne by done. simpl.
  apply (wf_dom _ Hwf), (wf_past _ Hwf) in Hk'. exact Hk'.
Qed.

Lemma set_at_capacity h now key v ttl :
  wf h -> 0 < max_size (cur h) ->
  at_capacity (cur h) -> _cache (cur h) !! key = None ->
  exists victim,
    least_recently_accessed h victim /\
    fst (set now key v ttl (cur h)) = Ok true /\
    _cache (snd (set now key v ttl (cur h)))
    = <[key := CacheEntry v ttl now]> (base.delete victim (_cache (cur h))).
Proof.
  intros Hwf Hpos Hcap Hk.
  destruct (full_nonempty h Hwf Hpos Hcap) as (oldest & rest & Hao).
  exists oldest. split; [by eapply oldest_is_least_recent|].
  by rewrite (set_evicts now key v ttl (cur h) oldest rest
                (wf_consistent _ Hwf) Hk Hcap Hao).
Qed.

Lemma overwrite_keeps_log h now key v ttl :
  wf h -> is_Some (_cache (cur h) !! key) ->
  let h' := log_step (OpSet now key v ttl) h in
  (forall k, stamp h' k = stamp h k) /\
  (forall k, is_Some (_cache (cur h') !! k) <-> is_Some (_cache (cur h) !! k)) /\
  _access_order (cur h') = _access_order (cur h).
Proof.
  intros Hwf Hk h'. pose proof (wf_consistent _ Hwf) as Hc.
  subst h'. unfold log_step, stamp. cbn [cur last_access step accessed].
  rewrite (set_present now key v ttl (cur h) Hc Hk).
  destruct Hk as [e He]. rewrite He. cbn [snd store _cache _access_order].
  split_and!; [done| |done].
  intros k. destruct (decide (k = key)) as [->|Hne].
  - rewrite lookup_insert_eq, He. split; by eexists.
  - by rewrite lookup_insert_ne.
Qed.

(** C4.  In every state of a cache of positive capacity that a sequence
    of calls leads to: (1) a [set] of a key that is not in the store, made
    when the store is at capacity, succeeds and removes exactly one key,
    the least recently accessed one, before it stores the new entry;
    (2) a [get] of a present, unexpired key returns its value, leaves the
    store as it is and makes that key the most recently accessed one, so
    that the next eviction spares it as long as the store holds another
    key; (3) a [set] of a key that is already in the store replaces its
    entry, removes nothing, and leaves the access order and the least
    recently accessed key as they are.  An access is the insertion of a new
    key or a [get] that returns a value; overwriting a key is none. *)
Theorem lru_eviction h :
  reachable h -> 0 < max_size (cur h) ->
  (forall now key v ttl,
      at_capacity (cur h) -> _cache (cur h) !! key = None ->
      exists victim,
        least_recently_accessed h victim /\
        fst (set now key v ttl (cur h)) = Ok true /\
        _cache (snd (set now key v ttl (cur h)))
        = <[key := CacheEntry v ttl now]> (base.delete victim (_cache (cur h))))
  /\
  (forall now key e,
      _cache (cur h) !! key = Some e -> expired now e = false ->
      let h' := log_step (OpGet now key) h in
      fst (get now key (cur h)) = Ok (Some (value e)) /\
      _cache (cur h') = _cache (cur h) /\
      (forall k', is_Some (_cache (cur h) !! k') -> k' <> key ->
                  (stamp h' k' < stamp h' key)%nat) /\
      (forall now' key' v' ttl' k',
          at_capacity (cur h') -> _cache (cur h') !! key' = None ->
          is_Some (_cache (cur h) !! k') -> k' <> key ->
          _cache (snd (set now' key' v' ttl' (cur h'))) !! key = Some e))
  /\
  (forall now key v ttl,
      is_Some (_cache (cur h) !! key) ->
      fst (set now key v ttl (cur h)) = Ok true /\
      _cache (snd (set now key v ttl (cur h)))
      = <[key := CacheEntry v ttl now]> (_cache (cur h)) /\
      dom (_cache (snd (set now key v ttl (cur h)))) = dom (_cache (cur h)) /\
      _access_order (snd (set now key v ttl (cur h))) = _access_order (cur h) /\
      forall victim,
        least_recently_accessed (log_step (OpSet now key v ttl) h) victim
        <-> least_recently_accessed h victim).
Proof.
  intros Hreach Hpos. pose proof (reachable_wf _ Hreach) as Hwf.
  pose proof (wf_consistent _ Hwf) as Hc. split_and!.
  - intros now key v ttl Hcap Hk. by apply set_at_capacity.
  - intros now key e He Hx h'.
    destruct (get_refreshes h now key e Hwf He Hx) as [Hsame Hstamp].
    fold h' in Hsame, Hstamp.
    destruct (get_hit now key (cur h) e Hc He Hx) as (l1 & l2 & _ & Hget).
    split_and!; [by rewrite Hget|done|done|].
    intros now' key' v' ttl' k' Hcap Hk' Hpres Hne.
    assert (wf h') as Hwf' by (by apply wf_log_step).
    assert (0 < max_size (cur h')) as Hpos'.
    { subst h'. simpl. rewrite Hget. simpl. done. }
    destruct (set_at_capacity h' now' key' v' ttl' Hwf' Hpos' Hcap Hk')
      as (victim & [Hvin Hlra] & _ & ->).
    assert (victim <> key) as Hvk.
    { intros ->. rewrite Hsame in Hlra.
      specialize (Hlra k' Hpres Hne). specialize (Hstamp k' Hpres Hne). lia. }
    assert (key' <> key) as Hkk.
    { intros ->. rewrite Hsame, He in Hk'. done. }
    by rewrite lookup_insert_ne, lookup_delete_ne, Hsame.
  - intros now key v ttl Hk.
    destruct (overwrite_keeps_log h now key v ttl Hwf Hk)
      as (Hstamp & Hdom & Hao).
    cbn [log_step cur step] in Hdom, Hao.
    split_and!; [| | |exact Hao|].
    + by rewrite (set_present now key v ttl (cur h) Hc Hk).
    + by rewrite (set_present now key v ttl (cur h) Hc Hk).
    + apply set_eq. intros k. rewrite !elem_of_dom. apply Hdom.
    + intros victim. unfold least_recently_accessed.
      cbn [log_step cur step]. rewrite Hdom.
      split; intros [Hv Hl]; (split; [done|]); intros k' Hk' Hne.
      * rewrite <- !Hstamp. apply Hl; [by apply Hdom|done].
      * rewrite !Hstamp. apply Hl; [by apply Hdom|done].
Qed.

Lemma set_succeeds h now key v ttl :
  wf h -> 0 < max_size (cur h) ->
  let s1 := snd (set now key v ttl (cur h)) in
  fst (set now key v ttl (cur h)) = Ok true /\
  consistent s1 /\
  _cache s1 !! key = Some (CacheEntry v ttl now).
Proof.
  intros Hwf Hpos s1.
  pose proof (wf_consistent _ (wf_log_step (OpSet now key v ttl) h Hwf)) as Hc1.
  simpl in Hc1. fold s1 in Hc1. pose proof (wf_consistent _ Hwf) as Hc.
  split_and!; [|done|].
  - destruct (_cache (cur h) !! key) as [e|] eqn:He.
    + by rewrite (set_present now key v ttl (cur h) Hc) by (by eexists).
    + destruct (Z_le_dec (max_size (cur h)) (Z.of_nat (size (_cache (cur h)))))
        as [Hcap|Hcap].
      * destruct (set_at_capacity h now key v ttl Hwf Hpos Hcap He)
          as (? & _ & ? & _). done.
      * by rewrite (set_room now key v ttl (cur h) Hc He Hcap).
  - subst s1. destruct (_cache (cur h) !! key) as [e|] eqn:He.
    + rewrite (set_present now key v ttl (cur h) Hc) by (by eexists).
      simpl. by rewrite lookup_insert_eq.
    + destruct (Z_le_dec (max_size (cur h)) (Z.of_nat (size (_cache (cur h)))))
        as [Hcap|Hcap].
      * destruct (set_at_capacity h now key v ttl Hwf Hpos Hcap He)
          as (? & _ & _ & ->). by rewrite lookup_insert_eq.
      * rewrite (set_room now key v ttl (cur h) Hc He Hcap). simpl.
        by rewrite lookup_insert_eq.
Qed.

Lemma expired_positive now now' (v : V) (z : Z) :
  0 < z ->
  expired now' (CacheEntry v (Some z) now) = true <-> (inject_Z z < now' - now)%Q.
Proof.
  intros Hz. unfold expired. simpl.
  destruct (Z.eqb_spec z 0) as [|_]; [lia|]. simpl.
  rewrite negb_true_iff, <- not_true_iff_false, Qle_bool_iff.
  split; [apply Qnot_le_lt | apply Qlt_not_le].
Qed.

Lemma expired_falsy now (e : cache_entry V) :
  ttl_truthy (ttl e) = false -> expired now e = false.
Proof.
  unfold expired, ttl_truthy. destruct (ttl e) as [z|]; [|done].
  intros ->. done.
Qed.

(** C5, amended.  In every reachable state of a cache of positive capacity,
    for every key, value and positive ttl: [set(k, v, ttl)] succeeds; a
    [get(k)] that follows while no more than [ttl] seconds have elapsed since
    the entry's creation (in particular at once) returns [v]; a [get(k)]
    that follows once more than [ttl] seconds have elapsed reports absent and
    leaves the key neither in the store nor in the access order. *)
Theorem ttl_roundtrip h now key v (z : Z) :
  reachable h -> 0 < max_size (cur h) -> 0 < z ->
  let s1 := snd (set now key v (Some z) (cur h)) in
  fst (set now key v (Some z) (cur h)) = Ok true /\
  (forall now', (now' - now <= inject_Z z)%Q ->
                fst (get now' key s1) = Ok (Some v)) /\
  (forall now', (inject_Z z < now' - now)%Q ->
                fst (get now' key s1) = Ok None /\
                _cache (snd (get now' key s1)) !! key = None /\
                key ∉ _access_order (snd (get now' key s1))).
Proof.
  intros Hreach Hpos Hz s1. pose proof (reachable_wf _ Hreach) as Hwf.
  destruct (set_succeeds h now key v (Some z) Hwf Hpos) as (Hok & Hc1 & He).
  fold s1 in Hc1, He. split_and!; [done| |].
  - intros now' Hle.
    assert (expired now' (CacheEntry v (Some z) now) = false) as Hx.
    { apply not_true_iff_false. rewrite expired_positive by done.
      by apply Qle_not_lt. }
    destruct (get_hit now' key s1 _ Hc1 He Hx) as (l1 & l2 & _ & ->). done.
  - intros now' Hlt. apply (expired_positive now now' v z Hz) in Hlt.
    destruct (get_expired now' key s1 _ Hc1 He Hlt) as (l1 & l2 & Hao & ->).
    simpl. split_and!; [done|by rewrite lookup_delete_eq|].
    destruct Hc1 as [Hnd _]. rewrite Hao in Hnd.
    apply NoDup_app in Hnd as (_ & H12 & Hnd2).
    apply NoDup_cons in Hnd2 as [Hn2 _].
    intros [H1|H2]%elem_of_app; [|done].
    apply (H12 key H1). by left.
Qed.

(** C10, first half and amended second half.  (1) In every reachable state,
    an entry whose ttl is [None] or 0 is returned by [get] at every clock
    reading, and stays in the store.  (2) [set] with ttl [None] or 0 on a
    cache of positive capacity stores such an entry: a later [get] returns
    the value however much time has elapsed.  (3) [CacheService.set] called
    with ttl [None] or 0 hands the configured default to the backend.
    (4) When the configured default is not 0, every entry written through the
    service, whatever the ttl argument, carries a non-zero ttl. *)
Theorem falsy_ttl_never_expires :
  (forall h key (e : cache_entry V) now,
      reachable h -> _cache (cur h) !! key = Some e ->
      ttl_truthy (ttl e) = false ->
      fst (get now key (cur h)) = Ok (Some (value e)) /\
      _cache (snd (get now key (cur h))) !! key = Some e) /\
  (forall h now key (v : V) ttl now',
      reachable h -> 0 < max_size (cur h) ->
      ttl = None \/ ttl = Some 0 ->
      fst (get now' key (snd (set now key v ttl (cur h)))) = Ok (Some v)) /\
  (forall (svc : CacheService.t V) now key v ttl,
      ttl = None \/ ttl = Some 0 ->
      CacheService.set now key v ttl svc
      = match set now key v (Some (CacheService.ttl svc))
                (CacheService.backend svc) with
        | (Ok r, b) => (r, CacheService.Mk b (CacheService.ttl svc))
        | (Raise _, b) => (false, CacheService.Mk b (CacheService.ttl svc))
        end) /\
  (forall (svc : CacheService.t V) h now key v ttl,
      reachable h -> cur h = CacheService.backend svc ->
      0 < max_size (cur h) -> CacheService.ttl svc <> 0 ->
      fst (CacheService.set now key v ttl svc) = true /\
      exists e,
        _cache (CacheService.backend (snd (CacheService.set now key v ttl svc)))
          !! key = Some e /\
        value e = v /\ ttl_truthy (MemoryCache.ttl e) = true).
Proof.
  split_and!.
  - intros h key e now Hreach He Hf.
    pose proof (wf_consistent _ (reachable_wf _ Hreach)) as Hc.
    destruct (get_hit now key (cur h) e Hc He (expired_falsy now e Hf))
      as (l1 & l2 & _ & ->). done.
  - intros h now key v ttl now' Hreach Hpos Httl.
    destruct (set_succeeds h now key v ttl (reachable_wf _ Hreach) Hpos)
      as (_ & Hc1 & He).
    assert (expired now' (CacheEntry v ttl now) = false) as Hx.
    { apply expired_falsy. by destruct Httl as [-> | ->]. }
    destruct (get_hit now' key _ _ Hc1 He Hx) as (l1 & l2 & _ & ->). done.
  - intros svc now key v ttl Httl. unfold CacheService.set.
    by destruct Httl as [-> | ->].
  - intros svc h now key v ttl Hreach Hcur Hpos Hd. unfold CacheService.set.
    rewrite <- Hcur.
    destruct (set_succeeds h now key v
                (CacheService.ttl_or_default ttl (CacheService.ttl svc))
                (reachable_wf _ Hreach) Hpos) as (Hok & _ & He).
    destruct (set now key v _ (cur h)) as [[r|x] b]; simpl in *; [|done].
    injection Hok as ->. split; [done|]. eexists. split_and!; [done..|].
    simpl. unfold CacheService.ttl_or_default.
    destruct (ttl_truthy ttl) eqn:Ht; [done|]. simpl.
    by destruct (Z.eqb_spec (CacheService.ttl svc) 0).
Qed.


End Spec.

Lemma two_keys_reachable : reachable two_keys.
Proof.
  exists [OpSet 0 "a" 1%nat None; OpSet 0 "b" 2%nat None; OpGet 1 "a"].
  reflexivity.
Qed.

Lemma lru_eviction_witness :
  (exists victim,
      least_recently_accessed two_keys victim /\
      fst (set 2 "c" 3%nat None (cur two_keys)) = Ok true /\
      _cache (snd (set 2 "c" 3%nat None (cur two_keys)))
      = <["c" := CacheEntry 3%nat None 2]> (base.delete victim (_cache (cur two_keys))))
  /\ _cache (snd (set 2 "c" 3%nat None (cur (log_step (OpGet 1 "b") two_keys))))
       !! "b" = Some (CacheEntry 2%nat None 0)
  /\ fst (set 2 "a" 9%nat None (cur two_keys)) = Ok true.
Proof.
  destruct (lru_eviction two_keys two_keys_reachable) as (H1 & H2 & H3).
  { vm_compute. reflexivity. }
  split_and!.
  - apply H1; [vm_compute; discriminate | vm_compute; reflexivity].
  - apply (H2 1%Q "b" (CacheEntry 2%nat None 0)) with (k' := "a");
      [vm_compute; reflexivity | vm_compute; reflexivity
      | vm_compute; discriminate | vm_compute; reflexivity
      | vm_compute; eauto | discriminate].
  - apply H3. vm_compute. eauto.
Defined.

(** C4 as stated fails when overwriting a key counts as an access to it.
    On a cache of capacity 2, after [set a], [set b], [set a]: the store is
    at capacity, it does not hold [c], and the least recently accessed key
    is [b], written at call 1, while [a] was written last, at call 2.  The
    [set c] that follows succeeds, evicts [a] and keeps [b]. *)
Lemma overwrite_counterexample :
  cur rewritten
  = cur (run [OpSet 0 "a" 1%nat None; OpSet 1 "b" 2%nat None;
              OpSet 2 "a" 3%nat None] (start 2)) /\
  at_capacity (cur rewritten) /\
  _cache (cur rewritten) !! "c" = None /\
  stamp rewritten "b" = 1%nat /\ stamp rewritten "a" = 2%nat /\
  least_recently_accessed rewritten "b" /\
  fst (set 3 "c" 4%nat None (cur rewritten)) = Ok true /\
  _cache (snd (set 3 "c" 4%nat None (cur rewritten))) !! "a" = None /\
  _cache (snd (set 3 "c" 4%nat None (cur rewritten))) !! "b"
  = Some (CacheEntry 2%nat None 1).
Proof.
  assert (_cache (cur rewritten)
          = <["a" := CacheEntry 3%nat None 2]>
              (<["b" := CacheEntry 2%nat None 1]> ∅)) as Hstore
    by (vm_compute; reflexivity).
  split_and!; try (vm_compute; reflexivity).
  - vm_compute. discriminate.
  - split; [vm_compute; eauto|]. intros k' Hk' Hne.
    destruct (decide (k' = "a")) as [->|Ha]; [vm_compute; lia|].
    rewrite Hstore, lookup_insert_ne, lookup_insert_ne, lookup_empty in Hk'
      by done.
    by destruct Hk'.
Qed.

Lemma ttl_roundtrip_witness :
  let s1 := snd (set 5 "k" 7%nat (Some 60) (cur two_keys)) in
  fst (set 5 "k" 7%nat (Some 60) (cur two_keys)) = Ok true /\
  fst (get 5 "k" s1) = Ok (Some 7%nat) /\
  fst (get 65 "k" s1) = Ok (Some 7%nat) /\
  fst (get 66 "k" s1) = Ok None /\
  _cache (snd (get 66 "k" s1)) !! "k" = None.
Proof.
  destruct (ttl_roundtrip two_keys 5 "k" 7%nat 60 two_keys_reachable)
    as (H1 & H2 & H3); [vm_compute; reflexivity | lia |].
  split_and!.
  - exact H1.
  - apply H2. vm_compute. discriminate.
  - apply H2. vm_compute. discriminate.
  - apply H3. vm_compute. reflexivity.
  - apply H3. vm_compute. reflexivity.
Defined.

(** C5 as stated fails at ttl 0: more than 0 seconds after the entry's
    creation, [get] still returns the value. *)
Lemma ttl_zero_counterexample :
  (inject_Z 0 < 5 - 0)%Q /\
  fst (get 5 "k" (snd (set 0 "k" 7%nat (Some 0) (init 1000)))) = Ok (Some 7%nat).
Proof. split; vm_compute; reflexivity. Qed.

(** A negative ttl is truthy and already exceeded at the time of [set]. *)
Example negative_ttl_expired_at_once :
  fst (get 0 "k" (snd (set 0 "k" 7%nat (Some (-1)) (init 1000)))) = Ok None.
Proof. vm_compute. reflexivity. Qed.

(** With a capacity that is not positive, [set] raises on the empty cache. *)
Example set_capacity_zero :
  set 0 "k" 7%nat None (init 0) = (Raise IndexError, init 0).
Proof. vm_compute. reflexivity. Qed.

(** Overwriting a present key does not count as an access: after [set a],
    [set b], [set a] on a cache of capacity 2, a [set c] evicts [a]. *)
Example overwrite_keeps_recency :
  let h := run [OpSet 0 "a" 1%nat None; OpSet 1 "b" 2%nat None;
                OpSet 2 "a" 3%nat None; OpSet 3 "c" 4%nat None] (start 2) in
  _cache (cur h) !! "a" = None /\
  _cache (cur h) !! "b" = Some (CacheEntry 2%nat None 1).
Proof. split; vm_compute; reflexivity. Qed.

Lemma start_reachable (m : Z) : reachable (start (V:=nat) m).
Proof. by exists []. Qed.

Lemma falsy_ttl_never_expires_witness :
  fst (get 1000000 "a" (cur two_keys)) = Ok (Some 1%nat) /\
  fst (get 1000000 "k" (snd (set 0 "k" 7%nat (Some 0) (cur two_keys))))
  = Ok (Some 7%nat) /\
  CacheService.set 0 "k" 7%nat None (CacheService.init 3600)
  = (true,
     CacheService.Mk
       (snd (set 0 "k" 7%nat (Some 3600) (init 1000))) 3600) /\
  fst (CacheService.set 0 "k" 7%nat (Some 0) (CacheService.init 3600)) = true.
Proof.
  destruct (falsy_ttl_never_expires (V:=nat)) as (H1 & H2 & H3 & H4).
  split_and!.
  - apply (H1 two_keys "a" (CacheEntry 1%nat None 0) 1000000%Q
             two_keys_reachable); vm_compute; reflexivity.
  - apply (H2 two_keys 0%Q "k" 7%nat (Some 0) 1000000%Q two_keys_reachable);
      [vm_compute; reflexivity | by right].
  - rewrite (H3 (CacheService.init 3600) 0%Q "k" 7%nat None) by (by left).
    vm_compute. reflexivity.
  - apply (H4 (CacheService.init 3600) (start 1000) 0%Q "k" 7%nat (Some 0)
             (start_reachable 1000)); [reflexivity | reflexivity | discriminate].
Defined.

(** C10 as stated fails when the configured default is itself 0: the entry
    written through the service then carries ttl 0 and is still returned a
    million seconds later. *)
Lemma zero_default_counterexample :
  let svc := snd (CacheService.set 0 "k" 7%nat None (CacheService.init 0)) in
  option_map ttl (_cache (CacheService.backend svc) !! "k") = Some (Some 0) /\
  fst (CacheService.get 1000000 "k" svc) = Some 7%nat.
Proof. split; vm_compute; reflexivity. Qed.

End MemoryCacheSpec.

(** ** The provider client: what the retry decorator sees *)

Module OpenAIServiceSpec.
Import OpenAIService Examples.

Section Spec.
Variable create : request -> nat -> outcome response.
Variable self_model : string.

(** The body never lets a provider exception through: whatever it raises is
    an [OpenAIServiceError]. *)
Lemma body_raises_service_error html prompt temp w e w' :
  extract_content_body create self_model html prompt temp w = (Raise e, w') ->
  exists msg, e = OpenAIServiceError msg.
Proof.
  unfold extract_content_body, call_provider.
  destruct (create _ _) as [r|x]; intros H; [done|].
  injection H as <- _. by eexists.
Qed.

(** The retry predicate rejects what the body raises, so the decorator
    re-raises after the first attempt: one request, no sleep. *)
Lemma extract_content_is_body html prompt temp w :
  extract_content create self_model html prompt temp w
  = extract_content_body create self_model html prompt temp w.
Proof.
  unfold extract_content. simpl.
  destruct (extract_content_body create self_model html prompt temp w)
    as [[a|e] w'] eqn:Hb; [done|].
  destruct (body_raises_service_error _ _ _ _ _ _ Hb) as [msg ->]. done.
Qed.

(** The retry loop as such works: applied to the bare provider call, it
    returns the first answer among the first three requests when the
    requests before it fail with transient errors. *)
Lemma retry_loop_on_bare_call (req : request) w k r :
  (k <= 2)%nat ->
  (forall j, (j < k)%nat ->
             exists e, create req (requests_sent w + j) = Raise e /\
                       retry_if_transient e = true) ->
  create req (requests_sent w + k) = Ok r ->
  fst (attempts get_openai_retry_config (call_provider create req) sleep 2 1 w)
  = Ok r /\
  requests_sent
    (snd (attempts get_openai_retry_config (call_provider create req) sleep 2 1 w))
  = (requests_sent w + k + 1)%nat.
Proof.
  intros Hk Hfail Hok.
  assert (forall j, requests_sent w + S j = S (requests_sent w + j))%nat
    as Hs by (intros; lia).
  destruct k as [|[|[|k]]]; [| | |lia].
  - rewrite Nat.add_0_r in Hok. simpl.
    rewrite Hok. simpl. split; [done|lia].
  - destruct (Hfail 0%nat) as (e0 & H0 & T0); [lia|].
    rewrite Nat.add_0_r in H0. rewrite Hs, Nat.add_0_r in Hok.
    simpl. rewrite H0, T0. simpl.
    rewrite Hok. simpl. split; [done|lia].
  - destruct (Hfail 0%nat) as (e0 & H0 & T0); [lia|].
    destruct (Hfail 1%nat) as (e1 & H1 & T1); [lia|].
    rewrite Nat.add_0_r in H0. rewrite Hs, Nat.add_0_r in H1.
    rewrite !Hs, Nat.add_0_r in Hok.
    simpl. rewrite H0, T0. simpl.
    rewrite H1, T1. simpl. rewrite Hok. simpl. split; [done|lia].
Qed.

End Spec.

(** C1.  Whatever the provider does, [extract_content] makes exactly one
    request and never sleeps, and what it raises is an [OpenAIServiceError]:
    a rate-limit error on the first request is surfaced at once, although the
    second request would have been answered.  The retry loop itself, applied
    to the bare provider call, does retry: it sleeps 4 seconds and returns
    the answer of the second request. *)
Theorem extract_content_never_retries :
  (forall create self_model html prompt temp w,
      requests_sent (snd (extract_content create self_model html prompt temp w))
      = S (requests_sent w) /\
      slept (snd (extract_content create self_model html prompt temp w))
      = slept w /\
      match fst (extract_content create self_model html prompt temp w) with
      | Ok _ => True
      | Raise e => exists msg, e = OpenAIServiceError msg
      end) /\
  extract_content (flaky answer) "gpt-4" "<html></html>" "prompt" (1 # 10) fresh
  = (Raise (OpenAIServiceError "Content extraction failed: Rate limit reached"),
     {| requests_sent := 1; slept := [] |}) /\
  attempts get_openai_retry_config
    (call_provider (flaky answer)
       (completion_request "gpt-4" "<html></html>" "prompt" (1 # 10)))
    sleep 2 1 fresh
  = (Ok answer, {| requests_sent := 2; slept := [4] |}).
Proof.
  split_and!; [|reflexivity..].
  intros create self_model html prompt temp w.
  rewrite extract_content_is_body. unfold extract_content_body, call_provider.
  destruct (create _ _); simpl; split_and!; try done. by eexists.
Qed.

End OpenAIServiceSpec.

(** ** The confidence scorer: the event rubric *)

Module ScoreEventSpec.
Import Lib ConfidenceScorer Examples.
Local Open Scope Q_scope.

Lemma longer_nonempty s n : longer s n = true -> s <> EmptyString.
Proof. intros H ->. unfold longer in H. simpl in H. by destruct n. Qed.

Lemma truthy_str s : s <> EmptyString -> truthy (VStr s) = true.
Proof. by destruct s. Qed.

Lemma summit_event_score desc :
  longer desc 50 = true ->
  score_event (summit_event desc)
  = Ok (if longer (strip desc) 50 then 300 # 420
        else if longer (strip desc) 10 then 272 # 420
        else 240 # 420).
Proof.
  intros Hlen. unfold score_event, summit_event.
  cbn [as_dict mbind outcome_bind].
  set (d := [("title", _); _; _; _]%string).
  replace (event_title d (0, 0)) with (Ok (A:=Q * Q) (35, 35))
    by (vm_compute; reflexivity).
  cbn [mbind outcome_bind].
  replace (event_date d (35, 35)) with (Ok (A:=Q * Q) (60, 60))
    by (vm_compute; reflexivity).
  cbn [mbind outcome_bind].
  replace (event_location d (60, 60)) with (Ok (A:=Q * Q) (60, 80))
    by (vm_compute; reflexivity).
  cbn [mbind outcome_bind].
  unfold event_description.
  replace (dict_get d "description") with (VStr desc) by reflexivity.
  rewrite (truthy_str desc (longer_nonempty _ _ Hlen)).
  cbn [as_str mbind outcome_bind].
  assert (length (filter (fun field => truthy (dict_get d field) = true)
                    bonus_fields) = 0%nat) as Hb by (vm_compute; reflexivity).
  destruct (longer (strip desc) 50);
    [|destruct (longer (strip desc) 10)];
    unfold event_bonus; rewrite Hb; vm_compute; reflexivity.
Qed.

(** C2, amended.  The event [{title: "AI Summit 2024", date: "2024-06-15",
    location: "SF", description: d}] with [d] longer than 50 characters
    scores at most 5/7, below 0.8, and exactly 5/7 when [d] is still longer
    than 50 characters once trimmed: the two-character location earns no
    location credit.  The event [{title: "Event"}] scores 0, well under
    0.5. *)
Theorem summit_event_scores desc :
  longer desc 50 = true ->
  (exists q, score_event (summit_event desc) = Ok q /\
             q <= 5 # 7 /\ q < 8 # 10 /\
             (longer (strip desc) 50 = true -> q == 5 # 7)) /\
  (exists q, score_event bare_event = Ok q /\ q == 0 /\ q < 5 # 10).
Proof.
  intros Hlen. split.
  - rewrite (summit_event_score desc Hlen).
    destruct (longer (strip desc) 50); [|destruct (longer (strip desc) 10)];
      eexists; (split; [reflexivity|]);
      split_and!; try done; intros _; reflexivity.
  - eexists. split; [vm_compute; reflexivity|]. done.
Qed.

Lemma summit_event_scores_witness :
  (exists q, score_event (summit_event fifty_six) = Ok q /\
             q <= 5 # 7 /\ q < 8 # 10 /\
             (longer (strip fifty_six) 50 = true -> q == 5 # 7)) /\
  (exists q, score_event bare_event = Ok q /\ q == 0 /\ q < 5 # 10).
Proof. apply (summit_event_scores fifty_six). vm_compute. reflexivity. Defined.

(** C2 as stated fails: with a description of 56 characters the example
    event scores 300/420 = 5/7, which is below 0.8. *)
Lemma summit_event_counterexample :
  longer fifty_six 50 = true /\
  score_event (summit_event fifty_six) = Ok (300 # 420) /\
  300 # 420 < 8 # 10.
Proof. split_and!; vm_compute; reflexivity. Qed.

(** The event of the repository's own test, with a location of more than
    three characters, does score above 0.8. *)
Example conference_event_score :
  score_event
    (VDict [("title", VStr "AI Conference 2024"); ("description", VStr fifty_six);
            ("date", VStr "2024-06-15");
            ("location", VStr "San Francisco, CA")]%string)
  = Ok (380 # 420) /\ 8 # 10 < 380 # 420.
Proof. split; vm_compute; reflexivity. Qed.

(** *** The scorers return on entities with text fields *)

Lemma text_field_str d k :
  text_fields d -> truthy (dict_get d k) = true ->
  exists s, dict_get d k = VStr s.
Proof.
  intros Htf Ht. unfold dict_get in *.
  destruct (dict_lookup k d) as [v|] eqn:Hk; [|done]. by apply (Htf k).
Qed.

Ltac text_field d k :=
  let Ht := fresh "Ht" in
  let s := fresh "s" in
  let Hs := fresh "Hs" in
  destruct (truthy (dict_get d k)) eqn:Ht;
  [ destruct (text_field_str d k ltac:(assumption) Ht) as [s Hs];
    rewrite Hs; cbn [as_str url_match date_parses mbind outcome_bind]
  | ].

Lemma event_title_returns d acc :
  text_fields d -> exists r, event_title d acc = Ok r.
Proof.
  intros Htf. unfold event_title. destruct acc as [score max_score].
  text_field d "title"%string; [|by eexists].
  destruct (longer _ _); [|by eexists]. destruct (existsb _ _); by eexists.
Qed.

Lemma event_date_returns d acc :
  text_fields d -> exists r, event_date d acc = Ok r.
Proof.
  intros Htf. unfold event_date. destruct acc as [score max_score].
  text_field d "date"%string; [|by eexists]. case_bool_decide; by eexists.
Qed.

Lemma event_location_returns d acc :
  text_fields d -> exists r, event_location d acc = Ok r.
Proof.
  intros Htf. unfold event_location. destruct acc as [score max_score].
  text_field d "location"%string; [|by eexists].
  destruct (longer _ _); by eexists.
Qed.

Lemma event_description_returns d acc :
  text_fields d -> exists r, event_description d acc = Ok r.
Proof.
  intros Htf. unfold event_description. destruct acc as [score max_score].
  text_field d "description"%string; [|by eexists].
  destruct (longer _ 50); [by eexists|]. destruct (longer _ 10); by eexists.
Qed.

Lemma score_event_returns d :
  text_fields d -> exists q, score_event (VDict d) = Ok q.
Proof.
  intros Htf. unfold score_event. cbn [as_dict mbind outcome_bind].
  destruct (event_title_returns d (0, 0) Htf) as [r1 ->].
  cbn [mbind outcome_bind].
  destruct (event_date_returns d r1 Htf) as [r2 ->]. cbn [mbind outcome_bind].
  destruct (event_location_returns d r2 Htf) as [r3 ->].
  cbn [mbind outcome_bind].
  destruct (event_description_returns d r3 Htf) as [r4 ->].
  cbn [mbind outcome_bind]. destruct (event_bonus d r4). by eexists.
Qed.

Lemma social_links_score_returns d fields acc :
  text_fields d -> exists q, social_links_score d fields acc = Ok q.
Proof.
  intros Htf. revert acc. induction fields as [|f fields IH]; intros acc.
  - by eexists.
  - simpl. text_field d f; apply IH.
Qed.

Lemma score_speaker_returns d :
  text_fields d -> exists q, score_speaker (VDict d) = Ok q.
Proof.
  intros Htf. unfold score_speaker. cbn [as_dict mbind outcome_bind].
  set (links := social_links_score d _).
  assert (exists q, links 0 = Ok q) as [q0 Hq0]
    by apply (social_links_score_returns d _ _ Htf).
  text_field d "name"%string;
    [destruct (longer _ _); [destruct (_ <=? _)%nat|]|];
    cbn [mbind outcome_bind];
    (text_field d "title"%string; [destruct (longer _ _)|]);
    cbn [mbind outcome_bind];
    (text_field d "company"%string; [destruct (longer _ _)|]);
    cbn [mbind outcome_bind];
    (text_field d "bio"%string;
     [destruct (longer _ 20); [|destruct (longer _ 5)]|]);
    cbn [mbind outcome_bind]; rewrite Hq0; cbn [mbind outcome_bind];
    by eexists.
Qed.

Lemma score_company_returns d :
  text_fields d -> exists q, score_company (VDict d) = Ok q.
Proof.
  intros Htf. unfold score_company. cbn [as_dict mbind outcome_bind].
  text_field d "name"%string; [destruct (longer _ _)|];
    cbn [mbind outcome_bind];
    (text_field d "website_url"%string; [destruct (re_match _ _ _)|]);
    cbn [mbind outcome_bind];
    (text_field d "relationship_type"%string; [destruct (existsb _ _)|]);
    cbn [mbind outcome_bind]; by eexists.
Qed.

(** *** Adding a date *)

Section AddDate.
Variable d : list (string * value).
Variable date : string.
Let d' := dict_set "date" (VStr date) d.

Lemma event_title_add_date acc : event_title d' acc = event_title d acc.
Proof. unfold event_title, d'. by rewrite !dict_get_set_ne. Qed.

Lemma event_location_add_date acc : event_location d' acc = event_location d acc.
Proof. unfold event_location, d'. by rewrite !dict_get_set_ne. Qed.

Lemma event_description_add_date acc :
  event_description d' acc = event_description d acc.
Proof. unfold event_description, d'. by rewrite !dict_get_set_ne. Qed.

Lemma event_bonus_add_date acc : event_bonus d' acc = event_bonus d acc.
Proof.
  unfold event_bonus, bonus_fields, d'. destruct acc as [score max_score].
  rewrite !filter_cons, !filter_nil. by rewrite !dict_get_set_ne.
Qed.

Lemma event_date_absent acc :
  dict_lookup "date" d = None ->
  event_date d acc = Ok (fst acc, snd acc + 25).
Proof.
  intros H. unfold event_date, dict_get. rewrite H. by destruct acc.
Qed.

Lemma event_date_valid acc :
  is_Some (strptime_ymd date) ->
  event_date d' acc = Ok (fst acc + 25, snd acc + 25).
Proof.
  intros H. unfold event_date, d'. rewrite dict_get_set_eq.
  destruct acc as [score max_score].
  rewrite truthy_str by (intros ->; by destruct H).
  simpl. by rewrite bool_decide_eq_true_2.
Qed.

End AddDate.

(** Each block after the date adds to the score an amount that depends on
    the event alone, and moves [max_score] alike. *)
Lemma event_location_mono d s1 s2 m r1 :
  s1 <= s2 -> event_location d (s1, m) = Ok r1 ->
  exists r2, event_location d (s2, m) = Ok r2 /\
             fst r1 <= fst r2 /\ snd r1 = snd r2.
Proof.
  intros Hle. unfold event_location.
  destruct (truthy _); [|intros [= <-]; eexists; by split_and!].
  destruct (as_str _) as [loc|e]; [|done]. cbn [mbind outcome_bind].
  destruct (longer _ _); intros [= <-]; eexists;
    (split; [done|]); cbn [fst snd]; split; try done; lra.
Qed.

Lemma event_description_mono d s1 s2 m r1 :
  s1 <= s2 -> event_description d (s1, m) = Ok r1 ->
  exists r2, event_description d (s2, m) = Ok r2 /\
             fst r1 <= fst r2 /\ snd r1 = snd r2.
Proof.
  intros Hle. unfold event_description.
  destruct (truthy _); [|intros [= <-]; eexists; by split_and!].
  destruct (as_str _) as [desc|e]; [|done]. cbn [mbind outcome_bind].
  destruct (longer _ 50); [|destruct (longer _ 10)]; intros [= <-]; eexists;
    (split; [done|]); cbn [fst snd]; split; try done; lra.
Qed.

Lemma event_bonus_mono d s1 s2 m :
  s1 <= s2 ->
  fst (event_bonus d (s1, m)) <= fst (event_bonus d (s2, m)) /\
  snd (event_bonus d (s1, m)) = snd (event_bonus d (s2, m)).
Proof. intros Hle. unfold event_bonus. cbn [fst snd]. split; [lra|done]. Qed.

Lemma py_min_mono a b c : a <= b -> py_min a c <= py_min b c.
Proof.
  intros Hab. unfold py_min.
  destruct (Qle_bool a c) eqn:Ha; destruct (Qle_bool b c) eqn:Hb.
  - done.
  - by apply Qle_bool_iff.
  - apply Qle_bool_iff in Hb.
    assert (~ a <= c) as Hn by (rewrite <- Qle_bool_iff; congruence).
    apply Qnot_le_lt in Hn. lra.
  - lra.
Qed.

Lemma final_mono s1 s2 m :
  s1 <= s2 ->
  (if Qle_bool m 0 then 0 else py_min (s1 / m) 1)
  <= (if Qle_bool m 0 then 0 else py_min (s2 / m) 1).
Proof.
  intros Hle. destruct (Qle_bool m 0) eqn:Hm; [lra|].
  assert (0 < m) as Hpos.
  { apply Qnot_le_lt. rewrite <- Qle_bool_iff. congruence. }
  apply py_min_mono. unfold Qdiv. apply Qmult_le_compat_r; [done|].
  apply Qlt_le_weak, Qinv_lt_0_compat, Hpos.
Qed.

(** C9.  For every event without a date field and every date that parses as
    [%Y-%m-%d]: [score_event] scores the event when its fields are text; and
    whenever it scores the event, it also scores the event with the date
    added, all other fields unchanged, and no lower. *)
Theorem adding_date_never_lowers (d : list (string * value)) (date : string) :
  dict_lookup "date" d = None ->
  is_Some (strptime_ymd date) ->
  (text_fields d -> exists s, score_event (VDict d) = Ok s) /\
  forall s,
    score_event (VDict d) = Ok s ->
    exists s', score_event (VDict (dict_set "date" (VStr date) d)) = Ok s' /\
               s <= s'.
Proof.
  intros Hnone Hvalid. split; [apply score_event_returns|]. intros s.
  unfold score_event. cbn [as_dict mbind outcome_bind].
  rewrite event_title_add_date.
  destruct (event_title d (0, 0)) as [[s0 m0]|e]; [|done].
  cbn [mbind outcome_bind].
  rewrite (event_date_absent d _ Hnone), (event_date_valid d date _ Hvalid).
  cbn [mbind outcome_bind fst snd].
  rewrite event_location_add_date.
  destruct (event_location d (s0, m0 + 25)) as [[s1 m1]|e] eqn:Hloc; [|done].
  destruct (event_location_mono d s0 (s0 + 25) (m0 + 25) _ ltac:(lra) Hloc)
    as ([s1' m1'] & -> & Hs1 & Hm1). simpl in Hs1, Hm1. subst m1'.
  cbn [mbind outcome_bind].
  rewrite event_description_add_date.
  destruct (event_description d (s1, m1)) as [[s2 m2]|e] eqn:Hdesc; [|done].
  destruct (event_description_mono d s1 s1' m1 _ Hs1 Hdesc)
    as ([s2' m2'] & -> & Hs2 & Hm2). simpl in Hs2, Hm2. subst m2'.
  cbn [mbind outcome_bind].
  rewrite event_bonus_add_date.
  destruct (event_bonus_mono d s2 s2' m2 Hs2) as [Hs3 Hm3].
  destruct (event_bonus d (s2, m2)) as [s3 m3].
  destruct (event_bonus d (s2', m2)) as [s3' m3'].
  simpl in Hs3, Hm3. subst m3'.
  intros [= <-]. eexists. split; [done|]. by apply final_mono.
Qed.

Lemma adding_date_never_lowers_witness :
  exists s', score_event
               (VDict (dict_set "date" (VStr "2024-06-15")
                         [("title", VStr "AI Summit 2024")]%string)) = Ok s' /\
             140 # 420 <= s'.
Proof.
  destruct (adding_date_never_lowers [("title", VStr "AI Summit 2024")]%string
              "2024-06-15") as [_ Hmono];
    [reflexivity | vm_compute; eauto |].
  apply Hmono. vm_compute. reflexivity.
Defined.

End ScoreEventSpec.

(** ** The confidence filter *)

Module FilterSpec.
Import ConfidenceScorer ScoreEventSpec Examples.
Local Open Scope Q_scope.

Section Loop.
Variable score : value -> outcome Q.
Variable threshold : Q.

Lemma with_confidence_carries d s : carries (with_confidence s d) d s.
Proof.
  exists (dict_set "confidence_score" (VFloat s) d). split_and!; [done| |].
  - apply dict_lookup_set_eq.
  - intros k Hk. by apply dict_lookup_set_ne.
Qed.

Lemma carries_score x d d' s s' : carries x d s -> carries x d' s' -> s = s'.
Proof.
  intros (d1 & -> & H1 & _) (d2 & [= <-] & H2 & _).
  rewrite H1 in H2. by injection H2.
Qed.

Lemma filter_entities_in_order entities kept :
  filter_entities score threshold entities = Ok kept ->
  Forall2 (fun entity x => exists d s, entity = VDict d /\
                                       score entity = Ok s /\ carries x d s)
    (List.filter (reaches score threshold) entities) kept.
Proof.
  revert kept. induction entities as [|e l IH]; intros kept; simpl.
  - intros [= <-]. constructor.
  - unfold reaches at 1.
    destruct (score e) as [s|?] eqn:Hs; [|done]. cbn [mbind outcome_bind].
    destruct (filter_entities score threshold l) as [k|?]; [|done].
    cbn [mbind outcome_bind]. specialize (IH k eq_refl).
    destruct (Qle_bool threshold s); [|by intros [= <-]].
    destruct e as [| | | | |?|d]; try done. cbn [as_dict mbind outcome_bind].
    intros [= <-]. constructor; [|done].
    exists d, s. split_and!; [done..|]. apply with_confidence_carries.
Qed.

Lemma filter_entities_kept entities kept x :
  filter_entities score threshold entities = Ok kept -> x ∈ kept ->
  exists d s, VDict d ∈ entities /\ score (VDict d) = Ok s /\
              threshold <= s /\ carries x d s.
Proof.
  intros Hf Hx.
  apply list_elem_of_lookup in Hx as [i Hi].
  destruct (Forall2_lookup_r _ _ _ _ _ (filter_entities_in_order _ _ Hf) Hi)
    as (e & He & d & s & -> & Hs & Hc).
  apply list_elem_of_lookup_2, list_elem_of_In, filter_In in He as [Hin Hr].
  exists d, s. split_and!; [by apply list_elem_of_In|done| |done].
  unfold reaches in Hr. rewrite Hs in Hr. by apply Qle_bool_iff.
Qed.

Lemma filter_entities_retains entities kept d s :
  filter_entities score threshold entities = Ok kept ->
  VDict d ∈ entities -> score (VDict d) = Ok s -> threshold <= s ->
  exists x, x ∈ kept /\ carries x d s.
Proof.
  intros Hf Hin Hs Hle.
  assert (VDict d ∈ List.filter (reaches score threshold) entities) as Hr.
  { apply list_elem_of_In, filter_In. split; [by apply list_elem_of_In|].
    unfold reaches. rewrite Hs. by apply Qle_bool_iff. }
  apply list_elem_of_lookup in Hr as [i Hi].
  destruct (Forall2_lookup_l _ _ _ _ _ (filter_entities_in_order _ _ Hf) Hi)
    as (x & Hx & d' & s' & [= <-] & Hs' & Hc).
  rewrite Hs in Hs'. injection Hs' as <-.
  exists x. split; [by eapply list_elem_of_lookup_2|done].
Qed.

Lemma filter_entities_filtered entities kept :
  filter_entities score threshold entities = Ok kept ->
  filtered score threshold entities kept.
Proof.
  intros Hf. split.
  - intros d s Hin Hs Heq. apply (filter_entities_retains _ _ _ _ Hf Hin Hs).
    rewrite Heq. apply Qle_refl.
  - intros d s. apply (filter_entities_retains _ _ _ _ Hf).
  - intros d s Hin Hs Hlt x Hx Hc.
    destruct (filter_entities_kept _ _ _ Hf Hx) as (d' & s' & _ & _ & Hle & Hc').
    rewrite (carries_score _ _ _ _ _ Hc Hc') in Hlt.
    apply (Qlt_not_le _ _ Hlt Hle).
  - intros x. apply (filter_entities_kept _ _ _ Hf).
  - by apply filter_entities_in_order.
Qed.

Lemma filter_entities_returns entities :
  (forall e, e ∈ entities -> exists d q, e = VDict d /\ score e = Ok q) ->
  exists kept, filter_entities score threshold entities = Ok kept.
Proof.
  induction entities as [|e l IH]; intros Hall; [by eexists|].
  simpl. destruct (Hall e) as (d & q & -> & ->); [by left|].
  cbn [mbind outcome_bind].
  destruct IH as [kept ->]; [intros e He; apply Hall; by right|].
  cbn [mbind outcome_bind]. destruct (Qle_bool threshold q); by eexists.
Qed.

End Loop.

Lemma iter_entity_list data k :
  well_formed data -> k ∈ ["events"; "speakers"; "companies"]%string ->
  exists l, iter_items (dict_get_default data k (VList [])) = Ok l /\
            forall e, e ∈ l -> exists d, e = VDict d /\ text_fields d.
Proof.
  intros Hwf Hk. unfold dict_get_default.
  destruct (dict_lookup k data) as [v|] eqn:Hv.
  - destruct (Hwf k Hk v Hv) as (l & -> & Hl). by exists l.
  - exists []. split; [done|]. by intros e ?%elem_of_nil.
Qed.

Lemma validate_and_filter_returns data threshold :
  well_formed data ->
  exists result, validate_and_filter (VDict data) threshold = Ok result.
Proof.
  intros Hwf. unfold validate_and_filter, validate_and_filter_with. cbn [as_dict mbind outcome_bind].
  destruct (iter_entity_list data "events" Hwf) as (events & -> & He);
    [set_solver|].
  cbn [mbind outcome_bind].
  destruct (filter_entities_returns score_event threshold events) as [ek ->].
  { intros e Hin. destruct (He e Hin) as (d & -> & Htf).
    destruct (score_event_returns d Htf) as [q Hq]. by exists d, q. }
  cbn [mbind outcome_bind].
  destruct (iter_entity_list data "speakers" Hwf) as (speakers & -> & Hs);
    [set_solver|].
  cbn [mbind outcome_bind].
  destruct (filter_entities_returns score_speaker threshold speakers) as [sk ->].
  { intros e Hin. destruct (Hs e Hin) as (d & -> & Htf).
    destruct (score_speaker_returns d Htf) as [q Hq]. by exists d, q. }
  cbn [mbind outcome_bind].
  destruct (iter_entity_list data "companies" Hwf) as (companies & -> & Hc);
    [set_solver|].
  cbn [mbind outcome_bind].
  destruct (filter_entities_returns score_company threshold companies) as [ck ->].
  { intros e Hin. destruct (Hc e Hin) as (d & -> & Htf).
    destruct (score_company_returns d Htf) as [q Hq]. by exists d, q. }
  cbn [mbind outcome_bind]. by eexists.
Qed.

(** C6.  For every dataset and every threshold, [validate_and_filter]
    returns when the entity lists of the dataset are lists of dicts with text
    fields.  And whatever the three scoring methods compute, be it the exact
    quotients or their floating-point values: whenever the filter returns, the
    result holds the five fields; its topics and metadata are those of the
    input (the empty default when the input has none); and each of its three
    entity lists is the filtered image of the input's list: an entity whose
    score equals the threshold is retained, one that scores strictly below is
    dropped, every retained entity is an input entity whose
    [confidence_score] holds the score computed for it, its other fields
    unchanged, and the retained entities are, in order, those that reach the
    threshold.  [validate_and_filter] is [validate_and_filter_with] at
    [score_event], [score_speaker] and [score_company]. *)
Theorem filter_boundary (data : list (string * value)) (threshold : Q) :
  (well_formed data ->
   exists result, validate_and_filter (VDict data) threshold = Ok result) /\
  forall (event_score speaker_score company_score : value -> outcome Q) result,
  validate_and_filter_with event_score speaker_score company_score
    (VDict data) threshold = Ok result ->
  exists events speakers companies kept_events kept_speakers kept_companies,
    iter_items (dict_get_default data "events" (VList [])) = Ok events /\
    iter_items (dict_get_default data "speakers" (VList [])) = Ok speakers /\
    iter_items (dict_get_default data "companies" (VList [])) = Ok companies /\
    result = VDict [("events", VList kept_events);
                    ("speakers", VList kept_speakers);
                    ("companies", VList kept_companies);
                    ("topics", dict_get_default data "topics" (VList []));
                    ("metadata", dict_get_default data "metadata" (VDict []))]%string /\
    filtered event_score threshold events kept_events /\
    filtered speaker_score threshold speakers kept_speakers /\
    filtered company_score threshold companies kept_companies /\
    (forall topics, dict_lookup "topics" data = Some topics ->
                    dict_get_default data "topics" (VList []) = topics) /\
    (forall metadata, dict_lookup "metadata" data = Some metadata ->
                      dict_get_default data "metadata" (VDict []) = metadata).
Proof.
  split; [apply validate_and_filter_returns|].
  intros event_score speaker_score company_score result.
  unfold validate_and_filter_with. cbn [as_dict mbind outcome_bind].
  destruct (iter_items (dict_get_default data "events" _)) as [events|?]; [|done].
  cbn [mbind outcome_bind].
  destruct (filter_entities event_score threshold events) as [ek|?] eqn:He;
    [|done].
  cbn [mbind outcome_bind].
  destruct (iter_items (dict_get_default data "speakers" _)) as [speakers|?];
    [|done].
  cbn [mbind outcome_bind].
  destruct (filter_entities speaker_score threshold speakers) as [sk|?] eqn:Hs;
    [|done].
  cbn [mbind outcome_bind].
  destruct (iter_items (dict_get_default data "companies" _)) as [companies|?];
    [|done].
  cbn [mbind outcome_bind].
  destruct (filter_entities company_score threshold companies) as [ck|?] eqn:Hc;
    [|done].
  cbn [mbind outcome_bind]. intros [= <-].
  exists events, speakers, companies, ek, sk, ck.
  split_and!; try done; try by apply filter_entities_filtered.
  - intros topics H. unfold dict_get_default. by rewrite H.
  - intros metadata H. unfold dict_get_default. by rewrite H.
Qed.

Lemma filter_boundary_witness :
  (exists kept x,
      dict_lookup "events"
        (match sample_result with VDict d => d | _ => [] end)
      = Some (VList kept) /\
      x ∈ kept /\
      carries x
        [("title", VStr "AI Summit 2024"); ("date", VStr "2024-06-15");
         ("location", VStr "SF"); ("description", VStr fifty_six)]%string
        (300 # 420) /\
      length kept = 1%nat /\
      dict_lookup "topics"
        (match sample_result with VDict d => d | _ => [] end)
      = Some (VList [VStr "AI"])) /\
  5 # 7 < Float.binary64 (75 # 105) /\
  (exists kept x,
      validate_and_filter_with score_event_binary64 score_speaker score_company
        (VDict sample_data) (Float.binary64 (75 # 105))
      = Ok (VDict [("events", VList kept); ("speakers", VList []);
                   ("companies", VList []); ("topics", VList [VStr "AI"]);
                   ("metadata", VDict [])]%string) /\
      x ∈ kept /\
      carries x
        [("title", VStr "AI Summit 2024"); ("date", VStr "2024-06-15");
         ("location", VStr "SF"); ("description", VStr fifty_six)]%string
        (Float.binary64 (75 # 105))).
Proof.
  split_and!.
  - destruct (filter_boundary sample_data (5 # 7)) as [_ Hspec].
    destruct (Hspec score_event score_speaker score_company sample_result)
      as (events & speakers & companies & ek & sk & ck
          & Hev & _ & _ & Hres & Fe & _ & _ & Htopics & _);
      [vm_compute; reflexivity|].
    vm_compute in Hev. injection Hev as <-.
    destruct (retained_at_threshold _ _ _ _ Fe
                [("title", VStr "AI Summit 2024"); ("date", VStr "2024-06-15");
                 ("location", VStr "SF"); ("description", VStr fifty_six)]%string
                (300 # 420))
      as (x & Hx & Hcarries);
      [by left | vm_compute; reflexivity | vm_compute; reflexivity|].
    exists ek, x. rewrite Hres. split_and!.
    + reflexivity.
    + exact Hx.
    + exact Hcarries.
    + unfold sample_result in Hres. by injection Hres as <- _.
    + simpl. f_equal; by apply Htopics.
  - vm_compute. reflexivity.
  - destruct (filter_boundary sample_data (Float.binary64 (75 # 105)))
      as [_ Hspec].
    edestruct (Hspec score_event_binary64 score_speaker score_company)
      as (events & speakers & companies & ek & sk & ck
          & Hev & _ & _ & Hres & Fe & _ & _ & _ & _);
      [vm_compute; reflexivity|].
    vm_compute in Hev. injection Hev as <-.
    destruct (retained_at_threshold _ _ _ _ Fe
                [("title", VStr "AI Summit 2024"); ("date", VStr "2024-06-15");
                 ("location", VStr "SF"); ("description", VStr fifty_six)]%string
                (Float.binary64 (75 # 105)))
      as (x & Hx & Hcarries);
      [by left | vm_compute; reflexivity | vm_compute; reflexivity|].
    injection Hres as <- <- <-.
    eexists _, x. split_and!; [vm_compute; reflexivity|exact Hx|exact Hcarries].
Defined.

End FilterSpec.

(** ** Batch extraction: positions and isolation *)

Module BatchSpec.
Import Batch Examples.

Section Gather.
Variable await : nat -> string * string * string * bool * Q -> outcome ExtractionResult.
Variable tasks : list (string * string * string * bool * Q).

Lemma fill_length slots completions :
  length (fill slots completions) = length slots.
Proof.
  revert slots. induction completions as [|c cs IH]; intros slots; [done|].
  simpl. by rewrite IH, length_insert.
Qed.

Lemma schedule_cons j order args :
  tasks !! j = Some args ->
  schedule await tasks (j :: order) = (j, await j args) :: schedule await tasks order.
Proof. intros H. unfold schedule. cbn [omap list_omap]. by rewrite H. Qed.

Lemma fill_lookup slots order i :
  Forall (fun j => (j < length tasks)%nat) order ->
  (i < length slots)%nat ->
  fill slots (schedule await tasks order) !! i
  = if bool_decide (i ∈ order)
    then (fun args => Some (await i args)) <$> tasks !! i
    else slots !! i.
Proof.
  intros Hall. revert slots. induction Hall as [|j order Hj _ IH]; intros slots Hi.
  - case_bool_decide as H; [by apply elem_of_nil in H|done].
  - destruct (lookup_lt_is_Some_2 tasks j Hj) as [args Hargs].
    rewrite (schedule_cons _ _ _ Hargs).
    change (fill slots ((j, await j args) :: schedule await tasks order))
      with (fill (<[j := Some (await j args)]> slots) (schedule await tasks order)).
    rewrite IH by (by rewrite length_insert).
    destruct (decide (i ∈ order)) as [Hin|Hnin].
    + rewrite !bool_decide_eq_true_2; [done|by right|done].
    + rewrite (bool_decide_eq_false_2 _ Hnin).
      destruct (decide (i = j)) as [->|Hne].
      * rewrite bool_decide_eq_true_2 by (by left).
        by rewrite list_lookup_insert_eq, Hargs.
      * rewrite bool_decide_eq_false_2
          by (intros [?|?]%elem_of_cons; done).
        by rewrite list_lookup_insert_ne.
Qed.

(** Whatever the order in which the tasks finish, [gather] returns the
    outcome of each task at the position of that task. *)
Lemma gather_in_task_order order :
  order ≡ₚ seq 0 (length tasks) ->
  gather await tasks order = Some (imap await tasks).
Proof.
  intros Hperm. unfold gather.
  apply mapM_Some_2, Forall2_same_length_lookup. split.
  - by rewrite fill_length, length_replicate, length_imap.
  - intros i x y Hx Hy.
    assert (i < length tasks)%nat as Hi.
    { apply lookup_lt_Some in Hx.
      by rewrite fill_length, length_replicate in Hx. }
    rewrite fill_lookup in Hx; [| |by rewrite length_replicate].
    2:{ apply Forall_forall. intros j Hj. rewrite Hperm in Hj.
        apply elem_of_seq in Hj. lia. }
    rewrite bool_decide_eq_true_2 in Hx
      by (rewrite Hperm; apply elem_of_seq; lia).
    rewrite list_lookup_imap in Hy.
    destruct (tasks !! i) as [args|]; [|done].
    cbn in Hx, Hy. injection Hx as <-. by injection Hy as <-.
Qed.

End Gather.

Lemma collect_entries await requests (f : request -> string * string * string * bool * Q)
  i rest :
  drop i requests = rest ->
  collect requests i (imap (fun j req => await (i + j)%nat (f req)) rest)
  = Ok (imap (fun j req => entry_for req (await (i + j)%nat (f req))) rest).
Proof.
  revert i. induction rest as [|req rest IH]; intros i Hdrop; [done|].
  cbn [imap collect]. unfold entry_of.
  assert (requests !! i = Some req) as ->.
  { rewrite <- (Nat.add_0_r i), <- lookup_drop, Hdrop. done. }
  cbn [mbind outcome_bind]. rewrite Nat.add_0_r.
  assert (drop (S i) requests = rest) as Hrest.
  { rewrite <- (Nat.add_1_r i), <- drop_drop, Hdrop. done. }
  specialize (IH (S i) Hrest).
  rewrite (imap_ext _ (fun j req0 => await (S i + j)%nat (f req0)) rest)
    by (intros; unfold compose; f_equal; lia).
  rewrite IH. cbn [mbind outcome_bind]. do 2 f_equal.
  apply imap_ext. intros j req0 _. unfold compose. do 2 f_equal. lia.
Qed.

(** C7.  For any list of requests, any outcomes of their tasks and any order
    in which the tasks finish: [extract_batch] returns a list with one entry
    per request; the entry at position [i] is built from the outcome of the
    task at position [i], which is [extract_content] called with the page and
    the URL of request [i], its extraction type or ["full"], its cache flag or
    [True], and its threshold or 0.7: a failure record with the text of the
    exception and request [i]'s URL when that task raised, and a success
    record with the task's extracted data, scores and cache flag and request
    [i]'s URL when it returned. *)
Theorem batch_isolation (requests : list request)
  (await : nat -> string * string * string * bool * Q -> outcome ExtractionResult)
  (order : list nat) :
  order ≡ₚ seq 0 (length requests) ->
  exists results,
    extract_batch requests await order = Some (Ok results) /\
    length results = length requests /\
    forall i req,
      requests !! i = Some req ->
      match await i (html_content req, url req,
                     default "full"%string (extraction_type req),
                     default true (use_cache req),
                     default (7 # 10) (confidence_threshold req)) with
      | Raise e => results !! i = Some (Failure (exn_str e) (url req))
      | Ok r =>
          results !! i
          = Some (Success (extracted_data r) (confidence_scores r)
                    (py_int (processing_time r * 1000)) (cache_hit r)
                    (url req))
      end.
Proof.
  intros Hperm. unfold extract_batch.
  rewrite (gather_in_task_order await (map task_args requests) order)
    by (by rewrite length_map).
  rewrite imap_fmap.
  pose proof (collect_entries await requests task_args 0 requests eq_refl) as Hc.
  cbn [plus] in Hc. unfold compose. rewrite Hc.
  eexists. split; [done|]. split; [by rewrite length_imap|].
  intros i req Hreq.
  rewrite list_lookup_imap, Hreq. cbn [fmap option_fmap option_map].
  unfold entry_for, task_args.
  by destruct (await i _).
Qed.

Lemma batch_isolation_witness :
  exists results,
    extract_batch three_requests second_fails [2; 0; 1]%nat = Some (Ok results) /\
    length results = 3%nat /\
    results !! 1%nat
    = Some (Failure "OpenAI API call failed: boom" "https://b.example") /\
    results !! 2%nat
    = Some (Success
              (VDict [("events", VList []);
                      ("metadata", VDict [("page", VStr "<html>c</html>");
                                          ("type", VStr "full")])]%string)
              [("overall", 0%Q)]%string 1500 false "https://c.example").
Proof.
  destruct (batch_isolation three_requests second_fails [2; 0; 1]%nat)
    as (results & Hrun & Hlen & Hpos).
  { simpl. eapply perm_trans; [apply perm_swap|]. apply perm_skip, perm_swap. }
  exists results. split_and!; [done..| |].
  - exact (Hpos 1%nat (Request "<html>b</html>" "https://b.example"
                         (Some "events_only"%string) None None) eq_refl).
  - exact (Hpos 2%nat (Request "<html>c</html>" "https://c.example"
                         None (Some false) None) eq_refl).
Defined.

End BatchSpec.

(** ** The response parser *)

Module ParserSpec.
Import Parser Examples.

Section AnyDecoder.
Variable json_loads : string -> outcome value.

(** When neither the text nor the repaired text decodes, the parser returns
    the empty structure flagged as failed; it does not raise. *)
Lemma undecodable_gives_failed text :
  json_loads text = Raise JSONDecodeError ->
  (forall data, json_loads (fix_json_response text) <> Ok data) ->
  parse_openai_response json_loads text = Ok failed_structure.
Proof.
  intros H1 H2. unfold parse_openai_response. rewrite H1.
  destruct (json_loads (fix_json_response text)) as [data|e]; [|done].
  by destruct (H2 data).
Qed.

Lemma dict_lookup_set_other k k' v d :
  is_Some (dict_lookup k' d) -> is_Some (dict_lookup k' (dict_set k v d)).
Proof.
  intros H. destruct (decide (k = k')) as [->|Hne].
  - rewrite dict_lookup_set_eq. by eexists.
  - by rewrite dict_lookup_set_ne.
Qed.

Lemma fill_defaults_dict keys d :
  exists d', fill_defaults keys (VDict d) = Ok (VDict d') /\
             (forall k, is_Some (dict_lookup k d) -> is_Some (dict_lookup k d')) /\
             (forall k, k ∈ keys -> is_Some (dict_lookup k d')).
Proof.
  revert d. induction keys as [|key keys IH]; intros d.
  - exists d. split_and!; [done..|]. by intros k ?%elem_of_nil.
  - simpl. cbn [mbind outcome_bind].
    case_bool_decide as Hkey; simpl; cbn [mbind outcome_bind].
    + destruct (IH d) as (d' & -> & Hkeep & Hkeys). exists d'.
      split_and!; [done..|]. intros k [->|?]%elem_of_cons; auto.
    + destruct (IH (dict_set key (if String.eqb key "metadata"
                                  then VDict [] else VList []) d))
        as (d' & -> & Hkeep & Hkeys).
      exists d'. split_and!; [done| |].
      * intros k Hk. by apply Hkeep, dict_lookup_set_other.
      * intros k [->|?]%elem_of_cons; [|auto].
        apply Hkeep. rewrite dict_lookup_set_eq. by eexists.
Qed.

(** A text that decodes at once to an object comes back with the five
    fields, the missing ones filled in. *)
Lemma decoded_object_gets_defaults text d :
  json_loads text = Ok (VDict d) ->
  exists d', parse_openai_response json_loads text = Ok (VDict d') /\
             has_all_fields (VDict d') = true.
Proof.
  intros H. unfold parse_openai_response. rewrite H.
  destruct (fill_defaults_dict required_keys d) as (d' & -> & _ & Hkeys).
  exists d'. split; [done|]. unfold has_all_fields.
  apply forallb_forall. intros k Hk%list_elem_of_In. simpl.
  by apply bool_decide_eq_true_2, Hkeys.
Qed.

(** A text that decodes only after the repair comes back as decoded: no
    field is filled in. *)
Lemma repaired_returned_as_decoded text data :
  json_loads text = Raise JSONDecodeError ->
  json_loads (fix_json_response text) = Ok data ->
  parse_openai_response json_loads text = Ok data.
Proof. intros H1 H2. unfold parse_openai_response. by rewrite H1, H2. Qed.

End AnyDecoder.

(** C3.  The parser does return the empty structure flagged as failed for a
    text that does not decode even after the repair; but for the response
    [{"events": [],}] it returns the object decoded from the repaired text
    [{"events": []}] as it is, with four of the five fields absent, whereas
    the same object received without the comma gets the four defaults.  An
    empty response comes back as the empty object. *)
Theorem repaired_response_lacks_fields :
  parse_openai_response JsonText.loads "no JSON here" = Ok failed_structure /\
  has_all_fields failed_structure = true /\
  JsonText.loads trailing_comma = Raise JSONDecodeError /\
  fix_json_response trailing_comma
  = ("{" ++ JsonText.quoted "events" ++ ": []}")%string /\
  parse_openai_response JsonText.loads trailing_comma
  = Ok (VDict [("events", VList [])]%string) /\
  has_field "speakers" (VDict [("events", VList [])]%string) = false /\
  has_all_fields (VDict [("events", VList [])]%string) = false /\
  parse_openai_response JsonText.loads (fix_json_response trailing_comma)
  = Ok (VDict [("events", VList []); ("speakers", VList []);
               ("companies", VList []); ("topics", VList []);
               ("metadata", VDict [])]%string) /\
  parse_openai_response JsonText.loads EmptyString = Ok (VDict []).
Proof. split_and!; vm_compute; reflexivity. Qed.

End ParserSpec.

(** ** Cache keys *)

Module CacheKeySpec.
Import CacheService Examples.
Local Open Scope string_scope.

Lemma length_append (s t : string) :
  String.length (s ++ t) = (String.length s + String.length t)%nat.
Proof.
  induction s as [|c s IH]; [done|].
  change (S (String.length (s ++ t))
          = S (String.length s + String.length t)). by rewrite IH.
Qed.

Lemma append_inj_same_tail_length (s1 s2 t1 t2 : string) :
  s1 ++ t1 = s2 ++ t2 -> String.length t1 = String.length t2 -> s1 = s2.
Proof.
  revert s2. induction s1 as [|c s1 IH]; intros [|c2 s2] H Hlen.
  - done.
  - apply (f_equal String.length) in H.
    rewrite !length_append in H. simpl in H. lia.
  - apply (f_equal String.length) in H.
    rewrite !length_append in H. simpl in H. lia.
  - change (String c (s1 ++ t1) = String c2 (s2 ++ t2)) in H.
    injection H as -> H. f_equal. by apply IH.
Qed.

Lemma length_take_str n s :
  (n <= String.length s)%nat -> String.length (take_str n s) = n.
Proof.
  unfold take_str. revert s. induction n as [|n IH]; intros s Hn.
  - by destruct s.
  - destruct s as [|c s]; simpl in *; [lia|]. rewrite IH; [done|lia].
Qed.

Lemma hexdigest_length s : String.length (Sha256.hexdigest s) = 64%nat.
Proof. unfold Sha256.hexdigest. set (h := Sha256.digest _). reflexivity. Qed.

Section Keys.
Variable sha256_hexdigest : string -> string.
Variable soup_normalized : string -> outcome string.
Hypothesis digest_length :
  forall text, String.length (sha256_hexdigest text) = 64%nat.

Abbreviation key := (generate_cache_key sha256_hexdigest soup_normalized).
Abbreviation normalize := (_normalize_for_cache soup_normalized).

Lemma key_shape html mode :
  key html mode
  = "extraction:" ++ mode ++ ":" ++ take_str 16 (sha256_hexdigest (normalize html))
  /\ String.length (take_str 16 (sha256_hexdigest (normalize html))) = 16%nat.
Proof.
  split; [done|]. apply length_take_str. rewrite digest_length. lia.
Qed.

Lemma key_mode_injective html1 html2 mode1 mode2 :
  key html1 mode1 = key html2 mode2 -> mode1 = mode2.
Proof.
  destruct (key_shape html1 mode1) as [-> H1].
  destruct (key_shape html2 mode2) as [-> H2].
  intros H. injection H as H.
  change (mode1 ++ (":" ++ take_str 16 (sha256_hexdigest (normalize html1)))
          = mode2 ++ (":" ++ take_str 16 (sha256_hexdigest (normalize html2))))
    in H.
  apply (append_inj_same_tail_length _ _ _ _ H).
  by rewrite !length_append, H1, H2.
Qed.

End Keys.

(** C8.  For a digest function whose results have 64 characters, as the
    hexadecimal SHA-256 digest has, and whatever the HTML printer does:
    (1) two contents with the same normalized text get the same key under the
    same mode; (2) two different modes give different keys, for the same
    content and for any two contents; (3) the key is [extraction:], the
    mode, a colon and the first 16 characters of the digest of the normalized
    content. *)
Theorem cache_key_properties
  (sha256_hexdigest : string -> string) (soup_normalized : string -> outcome string) :
  (forall text, String.length (sha256_hexdigest text) = 64%nat) ->
  (forall html1 html2 mode,
      _normalize_for_cache soup_normalized html1
      = _normalize_for_cache soup_normalized html2 ->
      generate_cache_key sha256_hexdigest soup_normalized html1 mode
      = generate_cache_key sha256_hexdigest soup_normalized html2 mode) /\
  (forall html1 html2 mode1 mode2,
      mode1 <> mode2 ->
      generate_cache_key sha256_hexdigest soup_normalized html1 mode1
      <> generate_cache_key sha256_hexdigest soup_normalized html2 mode2) /\
  (forall html mode,
      exists digest_prefix,
        generate_cache_key sha256_hexdigest soup_normalized html mode
        = "extraction:" ++ mode ++ ":" ++ digest_prefix /\
        String.length digest_prefix = 16%nat /\
        digest_prefix
        = take_str 16 (sha256_hexdigest
                         (_normalize_for_cache soup_normalized html))).
Proof.
  intros Hlen. split_and!.
  - intros html1 html2 mode Hnorm. unfold generate_cache_key. by rewrite Hnorm.
  - intros html1 html2 mode1 mode2 Hne Heq. apply Hne.
    by eapply key_mode_injective.
  - intros html mode. eexists. split; [reflexivity|]. split; [|done].
    by apply key_shape.
Qed.

Lemma cache_key_properties_witness :
  generate_cache_key Sha256.hexdigest plain_text "  abc " "full"
  = generate_cache_key Sha256.hexdigest plain_text "abc" "full" /\
  generate_cache_key Sha256.hexdigest plain_text "abc" "full"
  <> generate_cache_key Sha256.hexdigest plain_text "abc" "events_only" /\
  generate_cache_key Sha256.hexdigest plain_text "abc" "full"
  = "extraction:full:ba7816bf8f01cfea".
Proof.
  destruct (cache_key_properties Sha256.hexdigest plain_text hexdigest_length)
    as (Hsame & Hmode & Hshape).
  split_and!.
  - apply Hsame. vm_compute. reflexivity.
  - apply Hmode. discriminate.
  - destruct (Hshape "abc" "full") as (pre & -> & _ & ->).
    vm_compute. reflexivity.
Defined.

End CacheKeySpec.

(** ** The in-process cache: bookkeeping, bounds and deletion *)

Module MemoryCacheMore.
Import MemoryCache MemoryCacheFacts MemoryCacheSpec Examples.

Section More.
Context {V : Type}.
Implicit Types (s : t V) (h : logged V) (k key : string).

Lemma run_snoc (ops : list (op V)) o h :
  run (ops ++ [o]) h = log_step o (run ops h).
Proof. unfold run. by rewrite foldl_app. Qed.

Lemma max_size_run (ops : list (op V)) h :
  max_size (cur (run ops h)) = max_size (cur h).
Proof.
  induction ops as [|o ops IH] using rev_ind; [done|].
  rewrite run_snoc. simpl. by rewrite max_size_step.
Qed.

(** Induction over the states a sequence of calls leads to. *)
Lemma reachable_ind (P : logged V -> Prop) :
  (forall m, P (start m)) ->
  (forall o h, reachable h -> P h -> P (log_step o h)) ->
  forall h, reachable h -> P h.
Proof.
  intros Hstart Hstep h [ops ->]. generalize (max_size (cur h)). intros m.
  induction ops as [|o ops IH] using rev_ind; [apply Hstart|].
  rewrite run_snoc. apply Hstep; [|done].
  exists ops. by rewrite max_size_run.
Qed.

(** X1.  In every state a sequence of calls leads to, the access order has
    no duplicates, lists exactly the keys of the store and is as long as the
    store is large. *)
Theorem access_order_tracks_store h :
  reachable h ->
  NoDup (_access_order (cur h)) /\
  (forall k, k ∈ _access_order (cur h) <-> is_Some (_cache (cur h) !! k)) /\
  length (_access_order (cur h)) = size (_cache (cur h)).
Proof.
  intros Hr. destruct (wf_consistent _ (reachable_wf _ Hr)) as [Hnd Hdom].
  split_and!; [done..|].
  rewrite <- size_dom. unfold size at 1, set_size. simpl.
  apply Permutation_length, NoDup_Permutation; [done|apply NoDup_elements|].
  intros k. by rewrite Hdom, elem_of_elements, elem_of_dom.
Qed.

(** X2.  In every reachable state no call raises: [get] and [delete]
    return, and so does [set], with [True], when the capacity is positive. *)
Theorem no_call_raises h :
  reachable h ->
  (forall now key, exists r, fst (get now key (cur h)) = Ok r) /\
  (forall key, exists b, fst (delete key (cur h)) = Ok b) /\
  (0 < max_size (cur h) ->
   forall now key v ttl, fst (set now key v ttl (cur h)) = Ok true).
Proof.
  intros Hr. pose proof (reachable_wf _ Hr) as Hwf.
  pose proof (wf_consistent _ Hwf) as Hc. split_and!.
  - intros now key. destruct (_cache (cur h) !! key) as [e|] eqn:He.
    + destruct (expired now e) eqn:Hx.
      * destruct (get_expired now key _ e Hc He Hx) as (? & ? & _ & ->).
        by eexists.
      * destruct (get_hit now key _ e Hc He Hx) as (? & ? & _ & ->).
        by eexists.
    + rewrite (get_miss now key _ He). by eexists.
  - intros key. unfold delete.
    destruct (_cache (cur h) !! key) as [e|] eqn:He.
    + destruct (remove_key_present key _ e Hc He) as (? & ? & _ & ->).
      by eexists.
    + rewrite (remove_key_absent key _ He). by eexists.
  - intros Hpos now key v ttl.
    by destruct (set_succeeds h now key v ttl Hwf Hpos) as (? & _).
Qed.

Lemma size_step_bounded o h :
  wf h -> 0 < max_size (cur h) ->
  Z.of_nat (size (_cache (cur h))) <= max_size (cur h) ->
  Z.of_nat (size (_cache (step o (cur h)))) <= max_size (cur h).
Proof.
  intros Hwf Hpos Hle. pose proof (wf_consistent _ Hwf) as Hc.
  destruct o as [now key | now key v ttl | key]; simpl.
  - destruct (_cache (cur h) !! key) as [e|] eqn:He.
    + destruct (expired now e) eqn:Hx.
      * destruct (get_expired now key _ e Hc He Hx) as (? & ? & _ & ->).
        simpl. rewrite map_size_delete, He. unfold id. lia.
      * destruct (get_hit now key _ e Hc He Hx) as (? & ? & _ & ->). done.
    + by rewrite (get_miss now key _ He).
  - destruct (_cache (cur h) !! key) as [e|] eqn:He.
    + rewrite (set_present now key v ttl _ Hc) by (by eexists). simpl.
      rewrite map_size_insert, He. unfold id. lia.
    + destruct (Z_le_dec (max_size (cur h)) (Z.of_nat (size (_cache (cur h)))))
        as [Hcap|Hcap].
      * destruct (full_nonempty h Hwf Hpos Hcap) as (oldest & rest & Hao).
        rewrite (set_evicts now key v ttl _ oldest rest Hc He Hcap Hao).
        simpl.
        assert (is_Some (_cache (cur h) !! oldest)) as [eo Ho].
        { apply (wf_dom _ Hwf). rewrite Hao. by left. }
        rewrite map_size_insert, lookup_delete_ne by congruence.
        rewrite He, map_size_delete, Ho. unfold id. lia.
      * rewrite (set_room now key v ttl _ Hc He Hcap). simpl.
        rewrite map_size_insert, He. unfold at_capacity in Hcap. lia.
  - unfold delete. destruct (_cache (cur h) !! key) as [e|] eqn:He.
    + destruct (remove_key_present key _ e Hc He) as (? & ? & _ & ->).
      simpl. rewrite map_size_delete, He. unfold id. lia.
    + by rewrite (remove_key_absent key _ He).
Qed.

(** X3.  A cache of positive capacity never holds more than [max_size]
    entries, whatever calls are made. *)
Theorem size_bounded h :
  reachable h -> 0 < max_size (cur h) ->
  Z.of_nat (size (_cache (cur h))) <= max_size (cur h).
Proof.
  revert h.
  apply (reachable_ind (fun h => 0 < max_size (cur h) ->
           Z.of_nat (size (_cache (cur h))) <= max_size (cur h))).
  - intros m. simpl. rewrite map_size_empty. lia.
  - intros o h Hr IH. simpl. rewrite max_size_step. intros Hpos.
    apply size_step_bounded; [by apply reachable_wf|done|by apply IH].
Qed.

(** X4.  A cache whose capacity is not positive stores nothing: in every
    reachable state the store is empty, every [set] raises [IndexError] and
    leaves the cache as it is, and every [get] reports absent. *)
Theorem nonpositive_capacity_stores_nothing h :
  reachable h -> max_size (cur h) <= 0 ->
  _cache (cur h) = ∅ /\
  (forall now key v ttl, set now key v ttl (cur h) = (Raise IndexError, cur h)) /\
  (forall now key, get now key (cur h) = (Ok None, cur h)).
Proof.
  intros Hr Hmax.
  assert (_cache (cur h) = ∅ /\ _access_order (cur h) = []) as [Hc Hao].
  { revert h Hr Hmax.
    apply (reachable_ind (fun h => max_size (cur h) <= 0 ->
             _cache (cur h) = ∅ /\ _access_order (cur h) = [])); [done|].
    intros o h Hr IH Hmax.
    simpl in Hmax. rewrite max_size_step in Hmax.
    destruct (IH Hmax) as [Hc Hao]. simpl.
    destruct o as [now key | now key v ttl | key]; simpl.
    - rewrite get_miss; [done|]. by rewrite Hc, lookup_empty.
    - rewrite set_raises_empty; [done| |by rewrite Hc, lookup_empty|done].
      unfold at_capacity. lia.
    - unfold delete. rewrite remove_key_absent; [done|].
      by rewrite Hc, lookup_empty. }
  split_and!; [done| |].
  - intros now key v ttl. apply set_raises_empty; [|by rewrite Hc, lookup_empty|done].
    unfold at_capacity. lia.
  - intros now key. apply get_miss. by rewrite Hc, lookup_empty.
Qed.

(** X5.  In every reachable state, [delete] of a key in the store returns
    [True], removes that entry and no other, and takes the key out of the
    access order, so that a [get] of it reports absent; [delete] of a key
    that is not in the store returns [False] and changes nothing. *)
Theorem delete_removes_key h key :
  reachable h ->
  (is_Some (_cache (cur h) !! key) ->
   fst (delete key (cur h)) = Ok true /\
   _cache (snd (delete key (cur h))) = base.delete key (_cache (cur h)) /\
   (key ∉ _access_order (snd (delete key (cur h)))) /\
   forall now, fst (get now key (snd (delete key (cur h)))) = Ok None) /\
  (_cache (cur h) !! key = None -> delete key (cur h) = (Ok false, cur h)).
Proof.
  intros Hr. pose proof (reachable_wf _ Hr) as Hwf.
  pose proof (wf_consistent _ Hwf) as Hc. split.
  - intros [e He]. unfold delete.
    destruct (remove_key_present key _ e Hc He) as (l1 & l2 & Hao & ->).
    destruct (wf_removed _ _ _ _ Hwf Hao) as (_ & Hnin & _). simpl.
    split_and!; [done..|]. intros now. rewrite get_miss; [done|].
    simpl. apply lookup_delete_eq.
  - intros He. unfold delete. by apply remove_key_absent.
Qed.

(** X6.  On any cache object, [get] touches no entry but that of its key,
    which it leaves as it is or removes; and a value it returns is the value
    of the entry stored under the key, which has not expired. *)
Theorem get_touches_only_its_key s now key :
  (forall k', k' <> key ->
              _cache (snd (get now key s)) !! k' = _cache s !! k') /\
  (_cache (snd (get now key s)) !! key = _cache s !! key \/
   _cache (snd (get now key s)) !! key = None) /\
  (forall v, fst (get now key s) = Ok (Some v) ->
             exists e, _cache s !! key = Some e /\ value e = v /\
                       expired now e = false).
Proof.
  unfold get. destruct (_cache s !! key) as [e|] eqn:He.
  - destruct (expired now e) eqn:Hx.
    + unfold _remove_key. rewrite He.
      case_bool_decide; [destruct (list_remove _ _)|]; simpl; split_and!;
        try (intros k' Hne; by rewrite lookup_delete_ne);
        try (right; by rewrite lookup_delete_eq); done.
    + destruct (list_remove _ _); simpl; split_and!; try done;
        try (by left); try (by rewrite He; left).
      intros v [= <-]. by exists e.
  - simpl. split_and!; [done|by left|done].
Qed.

End More.

Lemma access_order_tracks_store_witness :
  NoDup (_access_order (cur two_keys)) /\
  (forall k, k ∈ _access_order (cur two_keys)
             <-> is_Some (_cache (cur two_keys) !! k)) /\
  length (_access_order (cur two_keys)) = size (_cache (cur two_keys)).
Proof. apply access_order_tracks_store, two_keys_reachable. Defined.

Lemma no_call_raises_witness :
  (exists r, fst (get 9 "a" (cur two_keys)) = Ok r) /\
  (exists b, fst (delete "zz" (cur two_keys)) = Ok b) /\
  fst (set 9 "c" 3%nat (Some 60) (cur two_keys)) = Ok true.
Proof.
  destruct (no_call_raises two_keys two_keys_reachable) as (Hg & Hd & Hs).
  split_and!; [apply Hg | apply Hd | apply Hs; vm_compute; reflexivity].
Defined.

Lemma size_bounded_witness :
  Z.of_nat (size (_cache (cur two_keys))) <= max_size (cur two_keys).
Proof.
  apply size_bounded; [apply two_keys_reachable | vm_compute; reflexivity].
Defined.

Lemma nonpositive_capacity_stores_nothing_witness :
  _cache (cur (start (V:=nat) 0)) = ∅ /\
  (forall now key v ttl,
      set now key v ttl (cur (start (V:=nat) 0))
      = (Raise IndexError, cur (start 0))) /\
  (forall now key, get now key (cur (start (V:=nat) 0)) = (Ok None, cur (start 0))).
Proof.
  apply nonpositive_capacity_stores_nothing;
    [apply start_reachable | vm_compute; discriminate].
Defined.

Lemma delete_removes_key_witness :
  fst (delete "a" (cur two_keys)) = Ok true /\
  _cache (snd (delete "a" (cur two_keys))) !! "b"
  = _cache (cur two_keys) !! "b" /\
  fst (get 9 "a" (snd (delete "a" (cur two_keys)))) = Ok None /\
  delete "zz" (cur two_keys) = (Ok false, cur two_keys).
Proof.
  destruct (delete_removes_key two_keys "a" two_keys_reachable) as [Hin _].
  destruct Hin as (H1 & H2 & _ & H4); [vm_compute; eauto|].
  destruct (delete_removes_key two_keys "zz" two_keys_reachable) as [_ Hout].
  split_and!; [done| |apply H4|apply Hout; vm_compute; reflexivity].
  rewrite H2. by rewrite lookup_delete_ne.
Defined.

Lemma get_touches_only_its_key_witness :
  _cache (snd (get 9 "a" (cur two_keys))) !! "b" = _cache (cur two_keys) !! "b" /\
  exists e, _cache (cur two_keys) !! "a" = Some e /\ value e = 1%nat /\
            expired 9 e = false.
Proof.
  destruct (get_touches_only_its_key (cur two_keys) 9 "a") as (Hother & _ & Hval).
  split; [by apply Hother|]. apply Hval. vm_compute. reflexivity.
Defined.

End MemoryCacheMore.

(** ** The scorers: bounds *)

Module ScorerBounds.
Import Lib ConfidenceScorer MoreExamples.
Local Open Scope Q_scope.

Ltac branch :=
  match goal with
  | |- context [truthy ?v] => destruct (truthy v)
  | |- context [as_str ?v] => destruct (as_str v)
  | |- context [date_parses ?v] => destruct (date_parses v) as [[|]|]
  | |- context [url_match ?v] => destruct (url_match v) as [[|]|]
  | |- context [longer ?a ?b] => destruct (longer a b)
  | |- context [existsb ?f ?l] => destruct (existsb f l)
  | |- context [Nat.leb ?a ?b] => destruct (Nat.leb a b)
  end; cbn [mbind outcome_bind].

Ltac bounds :=
  repeat branch;
  first [ discriminate
        | intros [= <-]; vm_compute; split; first [discriminate | reflexivity] ].

Lemma score_company_bounds company q :
  score_company company = Ok q -> 0 <= q /\ q <= 1.
Proof.
  destruct company as [| | | | | |d]; try discriminate.
  unfold score_company. cbn [as_dict mbind outcome_bind]. bounds.
Qed.

Lemma py_min_le_l a b : py_min a b <= a.
Proof.
  unfold py_min. destruct (Qle_bool a b) eqn:H; [lra|].
  assert (~ a <= b) as Hn by (rewrite <- Qle_bool_iff; congruence).
  apply Qnot_le_lt in Hn. lra.
Qed.

Lemma py_min_le_r a b : py_min a b <= b.
Proof.
  unfold py_min. destruct (Qle_bool a b) eqn:H; [|lra].
  by apply Qle_bool_iff.
Qed.

Lemma py_min_glb a b c : c <= a -> c <= b -> c <= py_min a b.
Proof. intros. unfold py_min. by destruct (Qle_bool a b). Qed.

(** A quotient of a score by a larger, positive maximum. *)
Lemma ratio_bounds t m : 0 <= t -> t <= m -> 0 < m -> 0 <= t / m /\ t / m <= 1.
Proof.
  intros Ht Htm Hm. split.
  - apply Qle_shift_div_l; [done|lra].
  - apply Qle_shift_div_r; [done|lra].
Qed.

(** Each block of [score_event] moves the running score and maximum so
    that the score grows by at most what the maximum grows by, and the
    maximum grows by at least the weight of the block. *)
Ltac block :=
  repeat branch;
  first [ discriminate
        | intros [= <-]; cbn [fst snd]; split_and!; lra ].

Lemma event_title_moves d acc acc' :
  event_title d acc = Ok acc' ->
  fst acc <= fst acc' /\ fst acc' - fst acc <= snd acc' - snd acc /\
  snd acc + 30 <= snd acc'.
Proof. unfold event_title. destruct acc as [s m]. block. Qed.

Lemma event_date_moves d acc acc' :
  event_date d acc = Ok acc' ->
  fst acc <= fst acc' /\ fst acc' - fst acc <= snd acc' - snd acc /\
  snd acc + 25 <= snd acc'.
Proof. unfold event_date. destruct acc as [s m]. block. Qed.

Lemma event_location_moves d acc acc' :
  event_location d acc = Ok acc' ->
  fst acc <= fst acc' /\ fst acc' - fst acc <= snd acc' - snd acc /\
  snd acc + 20 <= snd acc'.
Proof. unfold event_location. destruct acc as [s m]. block. Qed.

Lemma event_description_moves d acc acc' :
  event_description d acc = Ok acc' ->
  fst acc <= fst acc' /\ fst acc' - fst acc <= snd acc' - snd acc /\
  snd acc + 15 <= snd acc'.
Proof. unfold event_description. destruct acc as [s m]. block. Qed.

Lemma bonus_points_bounds (n : nat) :
  (n <= 4)%nat ->
  0 <= inject_Z (Z.of_nat n) / inject_Z (Z.of_nat 4) * 10 /\
  inject_Z (Z.of_nat n) / inject_Z (Z.of_nat 4) * 10 <= 10.
Proof.
  intros Hn. destruct n as [|[|[|[|[|n]]]]]; [| | | | |lia];
    vm_compute; split; discriminate.
Qed.

Lemma event_bonus_moves d acc :
  fst acc <= fst (event_bonus d acc) /\
  fst (event_bonus d acc) - fst acc <= snd (event_bonus d acc) - snd acc /\
  snd acc + 10 <= snd (event_bonus d acc).
Proof.
  unfold event_bonus. destruct acc as [s m].
  set (n := length (filter _ bonus_fields)).
  assert (n <= 4)%nat as Hn by apply (length_filter _ bonus_fields).
  destruct (bonus_points_bounds n Hn) as [H0 H10].
  cbn [fst snd length bonus_fields] in *. split_and!; lra.
Qed.

Lemma score_event_bounds event q :
  score_event event = Ok q -> 0 <= q /\ q <= 1.
Proof.
  destruct event as [| | | | | |d]; try discriminate.
  unfold score_event. cbn [as_dict mbind outcome_bind].
  destruct (event_title d (0, 0)) as [[s1 m1]|] eqn:H1; [|done].
  apply event_title_moves in H1. cbn [mbind outcome_bind].
  destruct (event_date d (s1, m1)) as [[s2 m2]|] eqn:H2; [|done].
  apply event_date_moves in H2. cbn [mbind outcome_bind].
  destruct (event_location d (s2, m2)) as [[s3 m3]|] eqn:H3; [|done].
  apply event_location_moves in H3. cbn [mbind outcome_bind].
  destruct (event_description d (s3, m3)) as [[s4 m4]|] eqn:H4; [|done].
  apply event_description_moves in H4. cbn [mbind outcome_bind].
  pose proof (event_bonus_moves d (s4, m4)) as H5.
  destruct (event_bonus d (s4, m4)) as [s5 m5].
  cbn [fst snd] in *.
  assert (0 <= s5 /\ s5 <= m5 /\ 0 < m5) as (Hs & Hsm & Hm) by (split_and!; lra).
  destruct (Qle_bool m5 0) eqn:Hle.
  { apply Qle_bool_iff in Hle. lra. }
  intros [= <-]. destruct (ratio_bounds s5 m5 Hs Hsm Hm) as [Ha Hb]. split.
  - apply py_min_glb; [done|lra].
  - apply py_min_le_r.
Qed.

Lemma social_links_score_bounds d fields acc q :
  social_links_score d fields acc = Ok q ->
  acc <= q /\ q <= acc + (333 # 100) * inject_Z (Z.of_nat (length fields)).
Proof.
  revert acc q. induction fields as [|f fields IH]; intros acc q.
  - intros [= <-]. cbn [length]. change (inject_Z (Z.of_nat 0)) with 0. lra.
  - cbn [social_links_score].
    assert (inject_Z (Z.of_nat (length (f :: fields)))
            == inject_Z (Z.of_nat (length fields)) + 1) as Hlen.
    { cbn [length]. rewrite Nat2Z.inj_succ, <- Z.add_1_r.
      by rewrite inject_Z_plus. }
    rewrite Hlen.
    assert (0 <= inject_Z (Z.of_nat (length fields))) as Hn.
    { change 0 with (inject_Z 0). rewrite <- Zle_Qle. lia. }
    destruct (truthy _).
    + destruct (url_match _) as [[|]|]; cbn [mbind outcome_bind]; [| |done];
        intros H; apply IH in H; lra.
    + intros H. apply IH in H. lra.
Qed.

(** The three social links add at most 9.99 of the 10 points the maximum
    reserves for them, so that a speaker's score stays below 1. *)
Lemma score_speaker_bounds speaker q :
  score_speaker speaker = Ok q -> 0 <= q /\ q <= 10499 # 10500.
Proof.
  destruct speaker as [| | | | | |d]; try discriminate.
  unfold score_speaker. cbn [as_dict mbind outcome_bind].
  set (links := social_links_score d _ 0).
  destruct links as [q0|] eqn:Hl.
  2:{ repeat branch; discriminate. }
  apply social_links_score_bounds in Hl. cbn [length] in Hl.
  change (inject_Z (Z.of_nat 3)) with 3 in Hl.
  assert (0 <= py_min q0 10 /\ py_min q0 10 <= 999 # 100) as [Hp0 Hp1].
  { split; [apply py_min_glb; lra|].
    eapply Qle_trans; [apply py_min_le_l|]. lra. }
  repeat branch; try discriminate; intros [= <-];
    (split;
     [ apply py_min_glb; [|lra]; apply Qle_shift_div_l; [reflexivity|lra]
     | eapply Qle_trans; [apply py_min_le_l|];
       apply Qle_shift_div_r; [reflexivity|lra] ]).
Qed.

(** X7.  Whenever one of the three scorers returns, the score lies between
    0 and 1. *)
Theorem scores_in_unit_interval (entity : value) (q : Q) :
  score_event entity = Ok q \/ score_speaker entity = Ok q \/
  score_company entity = Ok q ->
  0 <= q /\ q <= 1.
Proof.
  intros [H|[H|H]].
  - by apply (score_event_bounds entity).
  - apply score_speaker_bounds in H as [H0 H1]. split; [done|lra].
  - by apply (score_company_bounds entity).
Qed.

Lemma scores_in_unit_interval_witness : 0 <= 300 # 420 /\ 300 # 420 <= 1.
Proof.
  apply (scores_in_unit_interval (Examples.summit_event Examples.fifty_six)).
  left. vm_compute. reflexivity.
Defined.

(** X8.  No speaker scores 1: the score is at most 10499/10500, a value the
    speaker with every field filled reaches.  With a threshold above that
    value, the default bound 1.0 of the request schema included, the speaker
    loop of [validate_and_filter] retains nothing. *)
Theorem no_speaker_reaches_one (speaker : value) (q : Q) :
  score_speaker speaker = Ok q ->
  q <= 10499 # 10500 /\
  forall threshold speakers kept,
    10499 # 10500 < threshold ->
    filter_entities score_speaker threshold speakers = Ok kept -> kept = [].
Proof.
  intros Hq. split; [by apply (score_speaker_bounds speaker)|].
  intros threshold speakers. induction speakers as [|e l IH]; intros kept Ht.
  - by intros [= <-].
  - cbn [filter_entities].
    destruct (score_speaker e) as [s|] eqn:Hs; [|done].
    cbn [mbind outcome_bind].
    destruct (filter_entities score_speaker threshold l) as [k|]; [|done].
    cbn [mbind outcome_bind]. rewrite (IH k Ht eq_refl).
    apply score_speaker_bounds in Hs as [_ Hs].
    destruct (Qle_bool threshold s) eqn:Hle; [|by intros [= <-]].
    apply Qle_bool_iff in Hle. lra.
Qed.

Lemma no_speaker_reaches_one_witness :
  (exists q, score_speaker full_speaker = Ok q /\ q == 10499 # 10500) /\
  filter_entities score_speaker 1 [full_speaker] = Ok [].
Proof.
  assert (score_speaker full_speaker = Ok (104990000 # 105000000)) as H
    by (vm_compute; reflexivity).
  split; [eexists; split; [exact H|reflexivity]|].
  destruct (no_speaker_reaches_one full_speaker _ H) as [_ Hnone].
  destruct (filter_entities score_speaker 1 [full_speaker]) as [kept|] eqn:Hf;
    [|vm_compute in Hf; discriminate].
  by rewrite (Hnone 1 [full_speaker] kept eq_refl Hf).
Defined.

End ScorerBounds.

(** ** Filtering: thresholds, repetition and the aggregate scores *)

Module FilterMore.
Import Lib ConfidenceScorer Aggregates Datasets.
Import ScoreEventSpec FilterSpec ScorerBounds Examples MoreExamples.
Local Open Scope Q_scope.

Lemma outcome_bind_ext {A B} (f g : A -> outcome B) (o : outcome A) :
  (forall a, f a = g a) -> o ≫= f = o ≫= g.
Proof. intros H. destruct o; [apply H|done]. Qed.

Lemma dict_set_twice k v d : dict_set k v (dict_set k v d) = dict_set k v d.
Proof.
  induction d as [|[k' w] d IH]; simpl.
  - by rewrite String.eqb_refl.
  - destruct (String.eqb_spec k' k) as [->|Hne]; simpl.
    + by rewrite String.eqb_refl.
    + destruct (String.eqb_spec k' k); [done|]. by rewrite IH.
Qed.

(** *** The scorers do not read [confidence_score] *)

Section Ignored.
Variable d : list (string * value).
Variable v : value.

Lemma social_links_score_ignores fields acc :
  ("confidence_score"%string ∉ fields) ->
  social_links_score (dict_set "confidence_score" v d) fields acc
  = social_links_score d fields acc.
Proof.
  revert acc. induction fields as [|f fields IH]; intros acc Hf; [done|].
  apply not_elem_of_cons in Hf as [Hne Hf]. cbn [social_links_score].
  rewrite !dict_get_set_ne by done. rewrite !IH by done.
  destruct (truthy _); [|done]. apply outcome_bind_ext. intros m. by rewrite IH.
Qed.

Lemma score_event_ignores :
  score_event (VDict (dict_set "confidence_score" v d)) = score_event (VDict d).
Proof.
  unfold score_event, event_title, event_date, event_location,
    event_description, event_bonus, bonus_fields.
  cbn [as_dict mbind outcome_bind].
  rewrite !filter_cons, !filter_nil. by rewrite !dict_get_set_ne by done.
Qed.

Lemma score_speaker_ignores :
  score_speaker (VDict (dict_set "confidence_score" v d)) = score_speaker (VDict d).
Proof.
  unfold score_speaker. cbn [as_dict mbind outcome_bind].
  rewrite !dict_get_set_ne by done.
  rewrite social_links_score_ignores; [done|].
  rewrite !not_elem_of_cons. split_and!; try done. apply not_elem_of_nil.
Qed.

Lemma score_company_ignores :
  score_company (VDict (dict_set "confidence_score" v d)) = score_company (VDict d).
Proof.
  unfold score_company. cbn [as_dict mbind outcome_bind].
  by rewrite !dict_get_set_ne by done.
Qed.

End Ignored.

Lemma scorer_cases (P : (value -> outcome Q) -> Prop) kind :
  P score_event -> P score_speaker -> P score_company -> P (scorer kind).
Proof.
  intros. unfold scorer.
  destruct (String.eqb kind "events"); [done|].
  by destruct (String.eqb kind "speakers").
Qed.

Lemma scorer_ignores kind d v :
  scorer kind (VDict (dict_set "confidence_score" v d)) = scorer kind (VDict d).
Proof.
  apply (scorer_cases (fun score =>
           score (VDict (dict_set "confidence_score" v d)) = score (VDict d))).
  - apply score_event_ignores.
  - apply score_speaker_ignores.
  - apply score_company_ignores.
Qed.

Lemma scorer_dict kind e s : scorer kind e = Ok s -> exists d, e = VDict d.
Proof.
  apply (scorer_cases (fun score => score e = Ok s -> exists d, e = VDict d));
    (destruct e as [| | | | | |d]; [done..|by exists d]).
Qed.

Lemma scorer_bounds kind e s : scorer kind e = Ok s -> 0 <= s /\ s <= 1.
Proof.
  apply (scorer_cases (fun score => score e = Ok s -> 0 <= s /\ s <= 1)).
  - apply score_event_bounds.
  - intros [H0 H1]%score_speaker_bounds. split; [done|lra].
  - apply score_company_bounds.
Qed.

(** *** One filter loop *)

Section Loop.
Variable score : value -> outcome Q.
Hypothesis score_ignores : forall d v,
  score (VDict (dict_set "confidence_score" v d)) = score (VDict d).
Hypothesis score_dict : forall e s, score e = Ok s -> exists d, e = VDict d.

(** What a loop returns: the retained entities, in the order of the input,
    each with the score it reached. *)
Lemma filter_entities_pairs threshold entities kept :
  filter_entities score threshold entities = Ok kept ->
  exists pairs : list (Q * list (string * value)),
    kept = map (fun p => with_confidence (fst p) (snd p)) pairs /\
    Forall (fun p => score (VDict (snd p)) = Ok (fst p) /\ threshold <= fst p) pairs /\
    sublist (map (fun p => VDict (snd p)) pairs) entities.
Proof.
  revert kept. induction entities as [|e l IH]; intros kept; cbn [filter_entities].
  - intros [= <-]. by exists [].
  - destruct (score e) as [s|] eqn:Hs; [|done]. cbn [mbind outcome_bind].
    destruct (filter_entities score threshold l) as [k|]; [|done].
    cbn [mbind outcome_bind]. destruct (IH k eq_refl) as (pairs & -> & Hall & Hsub).
    destruct (Qle_bool threshold s) eqn:Hle.
    + destruct e as [| | | | | |d]; try done. cbn [as_dict mbind outcome_bind].
      intros [= <-]. exists ((s, d) :: pairs). split_and!; [done| |].
      * constructor; [|done]. split; [done|]. by apply Qle_bool_iff.
      * by constructor.
    + intros [= <-]. exists pairs. split_and!; [done..|]. by constructor.
Qed.

(** Whether a loop returns does not depend on the threshold: it returns
    exactly when every entity can be scored. *)
Lemma filter_entities_ok threshold entities :
  is_ok (filter_entities score threshold entities) = true <->
  Forall (fun e => is_ok (score e) = true) entities.
Proof.
  induction entities as [|e l IH]; cbn [filter_entities].
  - split; [by constructor|done].
  - rewrite Forall_cons, <- IH. destruct (score e) as [s|] eqn:Hs.
    2:{ cbn [mbind outcome_bind is_ok]. split; [done|]. by intros [? _]. }
    cbn [mbind outcome_bind].
    destruct (filter_entities score threshold l) as [k|].
    2:{ cbn [mbind outcome_bind is_ok]. split; [done|]. by intros [_ ?]. }
    cbn [mbind outcome_bind is_ok]. split; [done|]. intros _.
    destruct (Qle_bool threshold s); [|done].
    by destruct (score_dict e s Hs) as [d ->].
Qed.

(** With nothing below the threshold, every entity is retained. *)
Lemma filter_entities_all threshold entities kept :
  (forall e s, score e = Ok s -> threshold <= s) ->
  filter_entities score threshold entities = Ok kept ->
  Forall2 (fun e x => exists d s,
             e = VDict d /\ score e = Ok s /\ x = with_confidence s d)
    entities kept.
Proof.
  intros Hle. revert kept.
  induction entities as [|e l IH]; intros kept; cbn [filter_entities].
  - intros [= <-]. constructor.
  - destruct (score e) as [s|] eqn:Hs; [|done]. cbn [mbind outcome_bind].
    destruct (filter_entities score threshold l) as [k|]; [|done].
    cbn [mbind outcome_bind].
    rewrite (proj2 (Qle_bool_iff _ _) (Hle e s Hs)).
    destruct (score_dict e s Hs) as [d ->]. cbn [as_dict mbind outcome_bind].
    intros [= <-]. constructor; [|by apply IH]. by exists d, s.
Qed.

(** A higher threshold retains a sublist. *)
Lemma filter_entities_threshold_mono t1 t2 entities k1 :
  t1 <= t2 -> filter_entities score t1 entities = Ok k1 ->
  exists k2, filter_entities score t2 entities = Ok k2 /\ sublist k2 k1.
Proof.
  intros Ht. revert k1.
  induction entities as [|e l IH]; intros k1; cbn [filter_entities].
  - intros [= <-]. by exists [].
  - destruct (score e) as [s|] eqn:Hs; [|done]. cbn [mbind outcome_bind].
    destruct (filter_entities score t1 l) as [k|]; [|done].
    destruct (IH k eq_refl) as (k2 & -> & Hsub). cbn [mbind outcome_bind].
    destruct (score_dict e s Hs) as [d ->]. cbn [as_dict mbind outcome_bind].
    destruct (Qle_bool t2 s) eqn:H2.
    + assert (Qle_bool t1 s = true) as ->.
      { apply Qle_bool_iff. apply Qle_bool_iff in H2. lra. }
      intros [= <-]. eexists. split; [done|]. by constructor.
    + destruct (Qle_bool t1 s); intros [= <-]; eexists; (split; [done|]);
        [by constructor|done].
Qed.

(** Filtering what a loop retained retains all of it, unchanged. *)
Lemma filter_entities_fixed threshold (pairs : list (Q * list (string * value))) :
  Forall (fun p => score (VDict (snd p)) = Ok (fst p) /\ threshold <= fst p) pairs ->
  filter_entities score threshold
    (map (fun p => with_confidence (fst p) (snd p)) pairs)
  = Ok (map (fun p => with_confidence (fst p) (snd p)) pairs).
Proof.
  induction 1 as [|[s d] pairs [Hs Hle] _ IH]; [done|].
  cbn [map filter_entities fst snd] in *. unfold with_confidence in *.
  rewrite score_ignores, Hs. cbn [mbind outcome_bind]. rewrite IH.
  cbn [mbind outcome_bind]. rewrite (proj2 (Qle_bool_iff _ _) Hle).
  cbn [as_dict mbind outcome_bind]. by rewrite dict_set_twice.
Qed.

(** Scoring what a loop retained gives the scores it attached. *)
Lemma score_all_retained threshold (pairs : list (Q * list (string * value))) :
  Forall (fun p => score (VDict (snd p)) = Ok (fst p) /\ threshold <= fst p) pairs ->
  score_all score (map (fun p => with_confidence (fst p) (snd p)) pairs)
  = Ok (map fst pairs).
Proof.
  induction 1 as [|[s d] pairs [Hs Hle] _ IH]; [done|].
  cbn [map score_all fst snd] in *. unfold with_confidence in *.
  rewrite score_ignores, Hs. cbn [mbind outcome_bind]. by rewrite IH.
Qed.

End Loop.

(** *** The whole filter *)

Lemma entities_dict data kind :
  entities (VDict data) kind = iter_items (dict_get_default data kind (VList [])).
Proof. done. Qed.

Lemma validate_and_filter_inv data threshold result :
  validate_and_filter (VDict data) threshold = Ok result ->
  exists ek sk ck,
    result = VDict [("events", VList ek); ("speakers", VList sk);
                    ("companies", VList ck);
                    ("topics", dict_get_default data "topics" (VList []));
                    ("metadata", dict_get_default data "metadata" (VDict []))]%string /\
    (events ← entities (VDict data) "events";
     filter_entities score_event threshold events) = Ok ek /\
    (speakers ← entities (VDict data) "speakers";
     filter_entities score_speaker threshold speakers) = Ok sk /\
    (companies ← entities (VDict data) "companies";
     filter_entities score_company threshold companies) = Ok ck.
Proof.
  unfold validate_and_filter, validate_and_filter_with. rewrite !entities_dict.
  cbn [as_dict mbind outcome_bind].
  destruct (iter_items (dict_get_default data "events" _)) as [events|]; [|done].
  cbn [mbind outcome_bind].
  destruct (filter_entities score_event threshold events) as [ek|]; [|done].
  cbn [mbind outcome_bind].
  destruct (iter_items (dict_get_default data "speakers" _)) as [speakers|];
    [|done].
  cbn [mbind outcome_bind].
  destruct (filter_entities score_speaker threshold speakers) as [sk|]; [|done].
  cbn [mbind outcome_bind].
  destruct (iter_items (dict_get_default data "companies" _)) as [companies|];
    [|done].
  cbn [mbind outcome_bind].
  destruct (filter_entities score_company threshold companies) as [ck|]; [|done].
  cbn [mbind outcome_bind]. intros [= <-]. by exists ek, sk, ck.
Qed.

Lemma validate_and_filter_intro data threshold ek sk ck :
  (events ← entities (VDict data) "events";
   filter_entities score_event threshold events) = Ok ek ->
  (speakers ← entities (VDict data) "speakers";
   filter_entities score_speaker threshold speakers) = Ok sk ->
  (companies ← entities (VDict data) "companies";
   filter_entities score_company threshold companies) = Ok ck ->
  validate_and_filter (VDict data) threshold
  = Ok (VDict [("events", VList ek); ("speakers", VList sk);
               ("companies", VList ck);
               ("topics", dict_get_default data "topics" (VList []));
               ("metadata", dict_get_default data "metadata" (VDict []))]%string).
Proof.
  unfold validate_and_filter, validate_and_filter_with. rewrite !entities_dict.
  cbn [as_dict mbind outcome_bind].
  destruct (iter_items (dict_get_default data "events" _)) as [events|]; [|done].
  cbn [mbind outcome_bind]. intros ->. cbn [mbind outcome_bind].
  destruct (iter_items (dict_get_default data "speakers" _)) as [speakers|];
    [|done].
  cbn [mbind outcome_bind]. intros ->. cbn [mbind outcome_bind].
  destruct (iter_items (dict_get_default data "companies" _)) as [companies|];
    [|done].
  cbn [mbind outcome_bind]. by intros ->.
Qed.

(** The loop of each kind, read off a call that returned. *)
Lemma validate_and_filter_kind data threshold result kind :
  validate_and_filter (VDict data) threshold = Ok result ->
  kind ∈ kinds ->
  exists l kept,
    entities (VDict data) kind = Ok l /\
    entities result kind = Ok kept /\
    filter_entities (scorer kind) threshold l = Ok kept.
Proof.
  intros (ek & sk & ck & -> & He & Hs & Hc)%validate_and_filter_inv Hk.
  unfold kinds in Hk. rewrite !elem_of_cons, elem_of_nil in Hk.
  destruct Hk as [->|[->|[->|[]]]].
  - destruct (entities (VDict data) "events") as [l|]; [|done]. by exists l, ek.
  - destruct (entities (VDict data) "speakers") as [l|]; [|done]. by exists l, sk.
  - destruct (entities (VDict data) "companies") as [l|]; [|done]. by exists l, ck.
Qed.


(** *** Sums and means of scores *)

Lemma inject_nat_succ n :
  inject_Z (Z.of_nat (S n)) == inject_Z (Z.of_nat n) + 1.
Proof. rewrite Nat2Z.inj_succ, <- Z.add_1_r. by rewrite inject_Z_plus. Qed.

Lemma inject_nat_nonneg n : 0 <= inject_Z (Z.of_nat n).
Proof. change 0 with (inject_Z 0). rewrite <- Zle_Qle. lia. Qed.

Lemma fold_sum_bounds a b l acc :
  Forall (fun x => a <= x /\ x <= b) l ->
  acc + a * inject_Z (Z.of_nat (length l)) <= fold_left Qplus l acc /\
  fold_left Qplus l acc <= acc + b * inject_Z (Z.of_nat (length l)).
Proof.
  intros H. revert acc. induction H as [|x l [Ha Hb] _ IH]; intros acc.
  - cbn [fold_left length]. change (inject_Z (Z.of_nat 0)) with 0. lra.
  - cbn [fold_left length]. rewrite inject_nat_succ.
    destruct (IH (acc + x)) as [IH1 IH2]. split; lra.
Qed.

Lemma quotient_bounds a b total n :
  (0 < n)%nat ->
  a * inject_Z (Z.of_nat n) <= total -> total <= b * inject_Z (Z.of_nat n) ->
  a <= total / inject_Z (Z.of_nat n) /\ total / inject_Z (Z.of_nat n) <= b.
Proof.
  intros Hn H1 H2.
  assert (0 < inject_Z (Z.of_nat n)) as Hpos.
  { change 0 with (inject_Z 0). rewrite <- Zlt_Qlt. lia. }
  split; [by apply Qle_shift_div_l|by apply Qle_shift_div_r].
Qed.

Lemma mean_bounds a b l :
  l <> [] -> Forall (fun x => a <= x /\ x <= b) l ->
  a <= mean l /\ mean l <= b.
Proof.
  intros Hne Hall. destruct l as [|x l]; [done|]. unfold mean, py_sum.
  destruct (fold_sum_bounds a b (x :: l) 0 Hall) as [H1 H2].
  apply quotient_bounds; [cbn [length]; lia|lra..].
Qed.

Lemma score_all_Forall score (P : Q -> Prop) l qs :
  (forall e s, score e = Ok s -> P s) ->
  score_all score l = Ok qs -> Forall P qs.
Proof.
  intros HP. revert qs. induction l as [|e l IH]; intros qs; cbn [score_all].
  - intros [= <-]. constructor.
  - destruct (score e) as [s|] eqn:Hs; [|done]. cbn [mbind outcome_bind].
    destruct (score_all score l) as [rest|]; [|done]. cbn [mbind outcome_bind].
    intros [= <-]. constructor; [by apply (HP e)|by apply IH].
Qed.

Lemma confidences_retained (pairs : list (Q * list (string * value))) :
  confidences (map (fun p => with_confidence (fst p) (snd p)) pairs)
  = Ok (map (fun p => VFloat (fst p)) pairs).
Proof.
  induction pairs as [|[s d] pairs IH]; [done|].
  cbn [map confidences fst snd].
  change (with_confidence s d)
    with (VDict (dict_set "confidence_score" (VFloat s) d)).
  cbn [as_dict mbind outcome_bind]. rewrite IH. cbn [mbind outcome_bind].
  unfold dict_get_default. by rewrite dict_lookup_set_eq.
Qed.

Lemma sum_values_floats {A} (f : A -> Q) l acc :
  sum_values acc (map (fun p => VFloat (f p)) l) = Ok (fold_left Qplus (map f l) acc).
Proof.
  revert acc. induction l as [|p l IH]; intros acc; [done|].
  cbn [map sum_values as_number mbind outcome_bind fold_left]. apply IH.
Qed.

(** The average [_calculate_avg_confidence] computes over what a loop
    retained is the mean of the scores attached. *)
Lemma avg_confidence_retained (pairs : list (Q * list (string * value))) :
  _calculate_avg_confidence (map (fun p => with_confidence (fst p) (snd p)) pairs)
  = Ok (mean (map fst pairs)).
Proof.
  destruct pairs as [|p pairs]; [done|].
  pose proof (confidences_retained (p :: pairs)) as Hc.
  pose proof (sum_values_floats fst (p :: pairs) 0) as Hs.
  unfold _calculate_avg_confidence. cbn [map] in *. rewrite Hc.
  cbn [mbind outcome_bind]. rewrite Hs. cbn [mbind outcome_bind].
  unfold mean, py_sum. cbn [length]. by rewrite !length_map.
Qed.

Lemma retained_scores score threshold (pairs : list (Q * list (string * value))) :
  (forall e s, score e = Ok s -> 0 <= s /\ s <= 1) ->
  Forall (fun p => score (VDict (snd p)) = Ok (fst p) /\ threshold <= fst p) pairs ->
  Forall (fun x => threshold <= x /\ 0 <= x /\ x <= 1) (map fst pairs).
Proof.
  intros Hb Hall. apply Forall_map. eapply Forall_impl; [exact Hall|].
  intros [s d] [Hs Hle]. cbn [fst snd] in *. split; [done|]. by apply (Hb _ _ Hs).
Qed.

Lemma mean_retained threshold l :
  Forall (fun x => threshold <= x /\ 0 <= x /\ x <= 1) l ->
  (0 <= mean l /\ mean l <= 1) /\ (l = [] -> mean l = 0).
Proof.
  intros Hall. destruct l as [|x l].
  { split; [split; cbn; lra|done]. }
  split; [|done].
  apply mean_bounds; [done|]. eapply Forall_impl; [exact Hall|].
  by intros y (_ & ? & ?).
Qed.

Ltac is_dict :=
  let e := fresh "e" in
  intros e ?; destruct e as [| | | | | |?]; [done..|by eexists].

(** X9.  With a threshold of 0 or below, [validate_and_filter] drops
    nothing: each of the three lists of the result holds, in order, every
    entity of the input list with its score attached. *)
Theorem nonpositive_threshold_keeps_all data threshold result kind :
  threshold <= 0 ->
  validate_and_filter (VDict data) threshold = Ok result ->
  kind ∈ kinds ->
  exists l kept,
    entities (VDict data) kind = Ok l /\
    entities result kind = Ok kept /\
    Forall2 (fun e x => exists d s,
               e = VDict d /\ scorer kind e = Ok s /\ x = with_confidence s d)
      l kept.
Proof.
  intros Ht Hr Hk.
  destruct (validate_and_filter_kind _ _ _ _ Hr Hk) as (l & kept & Hl & Hkept & Hf).
  exists l, kept. split_and!; [done..|].
  apply (filter_entities_all (scorer kind) (scorer_dict kind) threshold); [|done].
  intros e s [H0 _]%scorer_bounds. lra.
Qed.

Lemma nonpositive_threshold_keeps_all_witness :
  exists l kept,
    entities (VDict sample_data) "events" = Ok l /\
    entities sample_unfiltered "events" = Ok kept /\
    length l = 2%nat /\ length kept = 2%nat.
Proof.
  destruct (nonpositive_threshold_keeps_all sample_data 0 sample_unfiltered "events")
    as (l & kept & Hl & Hk & Hall);
    [discriminate | vm_compute; reflexivity | by left |].
  exists l, kept. split_and!; [done..| |].
  - vm_compute in Hl. by injection Hl as <-.
  - rewrite <- (Forall2_length _ _ _ Hall). vm_compute in Hl. by injection Hl as <-.
Defined.

(** X10.  Raising the threshold never adds an entity: if
    [validate_and_filter] returns for a threshold, it returns for every
    higher one, and each list of the second result is a sublist of the
    corresponding list of the first. *)
Theorem higher_threshold_retains_sublist data t1 t2 r1 :
  t1 <= t2 ->
  validate_and_filter (VDict data) t1 = Ok r1 ->
  exists r2,
    validate_and_filter (VDict data) t2 = Ok r2 /\
    forall kind, kind ∈ kinds ->
      exists k1 k2,
        entities r1 kind = Ok k1 /\ entities r2 kind = Ok k2 /\ sublist k2 k1.
Proof.
  intros Ht (ek & sk & ck & -> & He & Hs & Hc)%validate_and_filter_inv.
  destruct (entities (VDict data) "events") as [events|] eqn:Hev; [|done].
  destruct (entities (VDict data) "speakers") as [speakers|] eqn:Hsp; [|done].
  destruct (entities (VDict data) "companies") as [companies|] eqn:Hco; [|done].
  cbn [mbind outcome_bind] in He, Hs, Hc.
  destruct (filter_entities_threshold_mono score_event ltac:(is_dict)
              t1 t2 events ek Ht He) as (ek2 & He2 & Hsub_e).
  destruct (filter_entities_threshold_mono score_speaker ltac:(is_dict)
              t1 t2 speakers sk Ht Hs) as (sk2 & Hs2 & Hsub_s).
  destruct (filter_entities_threshold_mono score_company ltac:(is_dict)
              t1 t2 companies ck Ht Hc) as (ck2 & Hc2 & Hsub_c).
  eexists. split.
  - apply (validate_and_filter_intro data t2 ek2 sk2 ck2);
      [by rewrite Hev|by rewrite Hsp|by rewrite Hco].
  - intros kind Hk. unfold kinds in Hk.
    rewrite !elem_of_cons, elem_of_nil in Hk.
    destruct Hk as [->|[->|[->|[]]]]; [by exists ek, ek2|by exists sk, sk2|
                                        by exists ck, ck2].
Qed.

Lemma higher_threshold_retains_sublist_witness :
  exists k1 k2,
    entities sample_unfiltered "events" = Ok k1 /\
    entities sample_result "events" = Ok k2 /\
    length k1 = 2%nat /\ length k2 = 1%nat /\ sublist k2 k1.
Proof.
  destruct (higher_threshold_retains_sublist sample_data 0 (5 # 7) sample_unfiltered)
    as (r2 & Hr2 & Hkinds); [discriminate | vm_compute; reflexivity |].
  vm_compute in Hr2. injection Hr2 as <-.
  destruct (Hkinds "events"%string) as (k1 & k2 & H1 & H2 & Hsub); [by left|].
  exists k1, k2. split_and!; [done|exact H2| | |done].
  - vm_compute in H1. by injection H1 as <-.
  - vm_compute in H2. by injection H2 as <-.
Defined.

(** X11.  Filtering a filtered dataset again with the same threshold
    returns it unchanged: the scorers do not read [confidence_score], so
    every retained entity reaches its score again. *)
Theorem filtering_twice_changes_nothing data threshold result :
  validate_and_filter (VDict data) threshold = Ok result ->
  validate_and_filter result threshold = Ok result.
Proof.
  intros (ek & sk & ck & -> & He & Hs & Hc)%validate_and_filter_inv.
  destruct (entities (VDict data) "events") as [events|]; [|done].
  destruct (entities (VDict data) "speakers") as [speakers|]; [|done].
  destruct (entities (VDict data) "companies") as [companies|]; [|done].
  cbn [mbind outcome_bind] in He, Hs, Hc.
  apply filter_entities_pairs in He as (pe & -> & He & _).
  apply filter_entities_pairs in Hs as (ps & -> & Hs & _).
  apply filter_entities_pairs in Hc as (pc & -> & Hc & _).
  erewrite validate_and_filter_intro; [reflexivity|..].
  - apply (filter_entities_fixed score_event score_event_ignores _ _ He).
  - apply (filter_entities_fixed score_speaker score_speaker_ignores _ _ Hs).
  - apply (filter_entities_fixed score_company score_company_ignores _ _ Hc).
Qed.

Lemma filtering_twice_changes_nothing_witness :
  validate_and_filter sample_result (5 # 7) = Ok sample_result.
Proof.
  apply (filtering_twice_changes_nothing sample_data). vm_compute. reflexivity.
Defined.

(** X12.  [validate_and_filter] is all or nothing, whatever the threshold:
    it returns exactly when each of the three entity lists can be iterated
    and every entity in them can be scored; one entity that cannot, a value
    that is not a dict say, makes the whole call raise. *)
Theorem filter_returns_iff_all_scored data threshold :
  is_ok (validate_and_filter (VDict data) threshold) = true <->
  forall kind, kind ∈ kinds ->
    exists l, entities (VDict data) kind = Ok l /\
              Forall (fun e => is_ok (scorer kind e) = true) l.
Proof.
  split.
  - destruct (validate_and_filter (VDict data) threshold) as [r|] eqn:Hr; [|done].
    intros _ kind Hk.
    destruct (validate_and_filter_kind _ _ _ _ Hr Hk) as (l & kept & Hl & _ & Hf).
    exists l. split; [done|].
    apply (filter_entities_ok (scorer kind) (scorer_dict kind) threshold).
    by rewrite Hf.
  - intros Hall.
    assert (forall kind, kind ∈ kinds ->
              exists kept, (l ← entities (VDict data) kind;
                            filter_entities (scorer kind) threshold l) = Ok kept)
      as Hk.
    { intros kind Hk. destruct (Hall kind Hk) as (l & -> & Hl).
      cbn [mbind outcome_bind].
      apply (filter_entities_ok (scorer kind) (scorer_dict kind) threshold) in Hl.
      destruct (filter_entities (scorer kind) threshold l); [by eexists|done]. }
    destruct (Hk "events"%string) as [ek He]; [by left|].
    destruct (Hk "speakers"%string) as [sk Hs]; [by right; left|].
    destruct (Hk "companies"%string) as [ck Hc]; [by right; right; left|].
    by rewrite (validate_and_filter_intro data threshold ek sk ck He Hs Hc).
Qed.

Lemma filter_returns_iff_all_scored_witness :
  validate_and_filter (VDict malformed_data) 0 = Raise AttributeError /\
  is_ok (validate_and_filter (VDict malformed_data) 1) = false.
Proof.
  split; [vm_compute; reflexivity|].
  destruct (is_ok (validate_and_filter (VDict malformed_data) 1)) eqn:Hok; [|done].
  pose proof (proj1 (filter_returns_iff_all_scored malformed_data 1) Hok) as Hall.
  destruct (Hall "events"%string) as (l & Hl & Hl_ok); [by left|].
  vm_compute in Hl. injection Hl as <-.
  apply Forall_cons in Hl_ok as [_ Hl_ok].
  apply Forall_cons in Hl_ok as [Hbad _].
  vm_compute in Hbad. discriminate.
Defined.

(** X13.  Whenever [calculate_overall_confidence] returns, the overall
    score lies between 0 and 1. *)
Theorem overall_confidence_in_unit_interval extracted_data q :
  calculate_overall_confidence extracted_data = Ok q -> 0 <= q /\ q <= 1.
Proof.
  unfold calculate_overall_confidence.
  destruct (as_dict extracted_data) as [data|]; [|done]. cbn [mbind outcome_bind].
  destruct (iter_items (dict_get_default data "events" _)) as [events|]; [|done].
  cbn [mbind outcome_bind].
  destruct (score_all score_event events) as [es|] eqn:He; [|done].
  cbn [mbind outcome_bind].
  destruct (iter_items (dict_get_default data "speakers" _)) as [speakers|];
    [|done].
  cbn [mbind outcome_bind].
  destruct (score_all score_speaker speakers) as [ss|] eqn:Hs; [|done].
  cbn [mbind outcome_bind].
  destruct (iter_items (dict_get_default data "companies" _)) as [companies|];
    [|done].
  cbn [mbind outcome_bind].
  destruct (score_all score_company companies) as [cs|] eqn:Hc; [|done].
  cbn [mbind outcome_bind]. intros [= <-].
  assert (Forall (fun x => 0 <= x /\ x <= 1) (es ++ ss ++ cs)) as Hall.
  { rewrite !Forall_app. split_and!.
    - apply (score_all_Forall score_event _ events); [|done].
      apply score_event_bounds.
    - apply (score_all_Forall score_speaker _ speakers); [|done].
      intros e s [H0 H1]%score_speaker_bounds. split; [done|lra].
    - apply (score_all_Forall score_company _ companies); [|done].
      apply score_company_bounds. }
  destruct (es ++ ss ++ cs) as [|x l] eqn:Hl; [cbn; lra|].
  by apply mean_bounds.
Qed.

Lemma overall_confidence_in_unit_interval_witness :
  exists q, calculate_overall_confidence (VDict sample_data) = Ok q /\
            q == 5 # 14 /\ 0 <= q /\ q <= 1.
Proof.
  assert (calculate_overall_confidence (VDict sample_data)
          = Ok (120000 # 336000)) as H by (vm_compute; reflexivity).
  eexists. split; [exact H|]. split; [reflexivity|].
  exact (overall_confidence_in_unit_interval _ _ H).
Defined.

Lemma overall_of_result ek sk ck topics metadata :
  calculate_overall_confidence
    (VDict [("events", VList ek); ("speakers", VList sk);
            ("companies", VList ck); ("topics", topics);
            ("metadata", metadata)]%string)
  = (event_scores ← score_all score_event ek;
     speaker_scores ← score_all score_speaker sk;
     company_scores ← score_all score_company ck;
     Ok (mean (event_scores ++ speaker_scores ++ company_scores))).
Proof. reflexivity. Qed.

(** X14.  The confidence scores [extract_content] computes from a filtered
    dataset.  The scores attached to the retained entities are at least the
    threshold and lie between 0 and 1; scoring a retained entity again gives
    the score attached to it; [calculate_overall_confidence] returns the mean
    of the scores of the retained entities of all three kinds, and
    [_calculate_avg_confidence] returns for each kind the mean of the scores
    attached to its retained entities.  Each of these means lies between 0
    and 1, and is 0 when nothing was retained. *)
Theorem confidence_of_filtered_data data threshold result :
  validate_and_filter (VDict data) threshold = Ok result ->
  exists (events speakers companies : list Q),
    Forall (fun s => threshold <= s /\ 0 <= s /\ s <= 1)
      (events ++ speakers ++ companies) /\
    calculate_overall_confidence result
    = Ok (mean (events ++ speakers ++ companies)) /\
    (exists kept, entities result "events" = Ok kept /\
                  confidences kept = Ok (map VFloat events) /\
                  score_all score_event kept = Ok events /\
                  _calculate_avg_confidence kept = Ok (mean events)) /\
    (exists kept, entities result "speakers" = Ok kept /\
                  confidences kept = Ok (map VFloat speakers) /\
                  score_all score_speaker kept = Ok speakers /\
                  _calculate_avg_confidence kept = Ok (mean speakers)) /\
    (exists kept, entities result "companies" = Ok kept /\
                  confidences kept = Ok (map VFloat companies) /\
                  score_all score_company kept = Ok companies /\
                  _calculate_avg_confidence kept = Ok (mean companies)) /\
    forall l, l ∈ [events ++ speakers ++ companies; events; speakers; companies] ->
      0 <= mean l /\ mean l <= 1 /\ (l = [] -> mean l = 0).
Proof.
  intros (ek & sk & ck & -> & He & Hs & Hc)%validate_and_filter_inv.
  destruct (entities (VDict data) "events") as [events|]; [|done].
  destruct (entities (VDict data) "speakers") as [speakers|]; [|done].
  destruct (entities (VDict data) "companies") as [companies|]; [|done].
  cbn [mbind outcome_bind] in He, Hs, Hc.
  apply filter_entities_pairs in He as (pe & -> & He & _).
  apply filter_entities_pairs in Hs as (ps & -> & Hs & _).
  apply filter_entities_pairs in Hc as (pc & -> & Hc & _).
  pose proof (retained_scores score_event threshold pe score_event_bounds He)
    as Fe.
  assert (forall e s, score_speaker e = Ok s -> 0 <= s /\ s <= 1) as Hsb.
  { intros e s [H0 H1]%score_speaker_bounds. split; [done|lra]. }
  pose proof (retained_scores score_speaker threshold ps Hsb Hs) as Fs.
  pose proof (retained_scores score_company threshold pc score_company_bounds Hc)
    as Fc.
  pose proof (score_all_retained score_event score_event_ignores _ _ He) as Re.
  pose proof (score_all_retained score_speaker score_speaker_ignores _ _ Hs)
    as Rs.
  pose proof (score_all_retained score_company score_company_ignores _ _ Hc)
    as Rc.
  assert (forall pairs : list (Q * list (string * value)),
            confidences (map (fun p => with_confidence (fst p) (snd p)) pairs)
            = Ok (map VFloat (map fst pairs))) as Hconf.
  { intros pairs. by rewrite confidences_retained, map_map. }
  exists (map fst pe), (map fst ps), (map fst pc). split_and!.
  - rewrite !Forall_app. by split_and!.
  - rewrite overall_of_result, Re. cbn [mbind outcome_bind].
    rewrite Rs. cbn [mbind outcome_bind]. by rewrite Rc.
  - eexists. split; [reflexivity|]. split_and!; [apply Hconf|exact Re|].
    apply avg_confidence_retained.
  - eexists. split; [reflexivity|]. split_and!; [apply Hconf|exact Rs|].
    apply avg_confidence_retained.
  - eexists. split; [reflexivity|]. split_and!; [apply Hconf|exact Rc|].
    apply avg_confidence_retained.
  - intros l Hl. rewrite !elem_of_cons, elem_of_nil in Hl.
    enough ((0 <= mean l /\ mean l <= 1) /\ (l = [] -> mean l = 0)) by tauto.
    apply (mean_retained threshold).
    destruct Hl as [->|[->|[->|[->|[]]]]]; [|done..].
    rewrite !Forall_app. by split_and!.
Qed.

Lemma confidence_of_filtered_data_witness :
  exists events speakers companies : list Q,
    Forall (fun s => 5 # 7 <= s /\ 0 <= s /\ s <= 1)
      (events ++ speakers ++ companies) /\
    calculate_overall_confidence sample_result
    = Ok (mean (events ++ speakers ++ companies)) /\
    score_all score_event [with_confidence (300 # 420)
                             [("title", VStr "AI Summit 2024");
                              ("date", VStr "2024-06-15");
                              ("location", VStr "SF");
                              ("description", VStr fifty_six)]%string]
    = Ok events /\
    events = [300 # 420].
Proof.
  destruct (confidence_of_filtered_data sample_data (5 # 7) sample_result)
    as (es & ss & cs & Hall & Ho & (kept & Hk & Hc & Hr & _) & _);
    [vm_compute; reflexivity|].
  vm_compute in Hk. injection Hk as <-.
  exists es, ss, cs. split_and!; [done..| |].
  - exact Hr.
  - vm_compute in Hr. by injection Hr as <-.
Defined.

End FilterMore.

(** ** The parser: what it keeps, when it raises, and the repair *)

Module ParserMore.
Import Parser ParserSpec Examples MoreExamples.

(** *** The defaults *)

Lemma dict_set_absent k v d :
  dict_lookup k d = None -> dict_set k v d = d ++ [(k, v)].
Proof.
  induction d as [|[k' w] d IH]; [done|]. simpl.
  destruct (String.eqb k' k); [done|]. intros H. by rewrite IH.
Qed.

Lemma dict_lookup_app_absent k k' v d :
  k <> k' -> dict_lookup k' (d ++ [(k, v)]) = dict_lookup k' d.
Proof.
  intros Hne. induction d as [|[k0 w] d IH]; simpl.
  - by destruct (String.eqb_spec k k').
  - by destruct (String.eqb k0 k').
Qed.

Lemma fill_defaults_appends keys d :
  NoDup keys ->
  fill_defaults keys (VDict d)
  = Ok (VDict (d ++ map (fun key => (key, if String.eqb key "metadata" then VDict [] else VList []))
                      (List.filter
                         (fun key => negb (bool_decide (is_Some (dict_lookup key d))))
                         keys))).
Proof.
  intros Hnd. revert d. induction Hnd as [|key keys Hnotin Hnd IH]; intros d.
  - simpl. by rewrite app_nil_r.
  - cbn [fill_defaults key_not_in mbind outcome_bind List.filter].
    destruct (negb (bool_decide (is_Some (dict_lookup key d)))) eqn:Habs.
    + cbn [set_item mbind outcome_bind]. rewrite IH.
      assert (dict_lookup key d = None) as Hnone.
      { apply negb_true_iff, bool_decide_eq_false in Habs.
        destruct (dict_lookup key d); [|done]. destruct Habs. by eexists. }
      rewrite (dict_set_absent _ _ _ Hnone). rewrite <- app_assoc.
      cbn [map app].
      rewrite (filter_ext_in
                 (fun k => negb (bool_decide (is_Some (dict_lookup k
                    (d ++ [(key, if String.eqb key "metadata"
                                 then VDict [] else VList [])])))))
                 (fun k => negb (bool_decide (is_Some (dict_lookup k d))))); [done|].
      intros k Hk%list_elem_of_In.
      rewrite dict_lookup_app_absent; [done|]. by intros ->.
    + cbn [mbind outcome_bind]. by rewrite IH.
Qed.

Lemma fill_defaults_raises keys data e :
  fill_defaults keys data = Raise e ->
  e = TypeError /\ forall d, data <> VDict d.
Proof.
  intros H. split.
  - revert data H. induction keys as [|key keys IH]; intros data; [done|].
    cbn [fill_defaults].
    destruct (key_not_in key data) as [[|]|e'] eqn:Hk; cbn [mbind outcome_bind].
    + destruct (set_item key _ data) as [data'|e'] eqn:Hs; cbn [mbind outcome_bind].
      * apply IH.
      * destruct data; simpl in Hs; congruence.
    + apply IH.
    + destruct data; simpl in Hk; congruence.
  - intros d ->. destruct (fill_defaults_dict keys d) as (d' & Hd' & _). congruence.
Qed.

Section AnyDecoder.
Variable json_loads : string -> outcome value.

(** X15.  For a text that decodes at once to an object, the parser returns
    that object with every field it had, value and position unchanged (a
    field holding null stays null), followed by the default of each missing
    required key in the order events, speakers, companies, topics,
    metadata. *)
Theorem decoded_object_keeps_fields text d :
  json_loads text = Ok (VDict d) ->
  parse_openai_response json_loads text
  = Ok (VDict (d ++ map (fun key => (key, if String.eqb key "metadata" then VDict [] else VList []))
                      (List.filter
                         (fun key => negb (bool_decide (is_Some (dict_lookup key d))))
                         required_keys))).
Proof.
  intros H. unfold parse_openai_response. rewrite H.
  apply fill_defaults_appends. apply (bool_decide_unpack _). by vm_compute.
Qed.

(** X16.  With a decoder that raises nothing but [JSONDecodeError], the
    parser raises only [TypeError], and only on a text that decodes at once
    to something that is not an object; it does raise it when the text
    decodes to null, a boolean or a number. *)
Theorem parser_raises_only_for_non_objects text :
  (forall t e, json_loads t = Raise e -> e = JSONDecodeError) ->
  (forall e, parse_openai_response json_loads text = Raise e ->
             e = TypeError /\
             exists data, json_loads text = Ok data /\ forall d, data <> VDict d) /\
  (forall data, json_loads text = Ok data ->
                match data with
                | VNone | VBool _ | VInt _ | VFloat _ => True
                | _ => False
                end ->
                parse_openai_response json_loads text = Raise TypeError).
Proof.
  intros Hdec. split.
  - intros e. unfold parse_openai_response.
    destruct (json_loads text) as [data|e'] eqn:Ht.
    + intros [-> Hnd]%fill_defaults_raises. split; [done|]. by exists data.
    + rewrite (Hdec _ _ Ht).
      by destruct (json_loads (fix_json_response text)).
  - intros data Ht Hscalar. unfold parse_openai_response. rewrite Ht.
    by destruct data.
Qed.

End AnyDecoder.

Lemma loads_raises t e : JsonText.loads t = Raise e -> e = JSONDecodeError.
Proof.
  unfold JsonText.loads. repeat case_match; congruence.
Qed.

Lemma decoded_object_keeps_fields_witness :
  parse_openai_response JsonText.loads null_events
  = Ok (VDict [("events", VNone); ("speakers", VList []);
               ("companies", VList []); ("topics", VList []);
               ("metadata", VDict [])]%string).
Proof.
  apply (decoded_object_keeps_fields JsonText.loads null_events
           [("events", VNone)]%string).
  vm_compute. reflexivity.
Defined.

Lemma parser_raises_only_for_non_objects_witness :
  parse_openai_response JsonText.loads "42" = Raise TypeError.
Proof.
  destruct (parser_raises_only_for_non_objects JsonText.loads "42" loads_raises)
    as [_ H].
  apply (H (VInt 42)); [vm_compute; reflexivity|exact I].
Defined.


(** *** The repair *)

Lemma endswith_app s p : endswith (s ++ p) p = true.
Proof.
  induction s as [|c s IH].
  - change (EmptyString ++ p)%string with p. destruct p as [|c p]; [done|].
    cbn [endswith]. by rewrite String.eqb_refl.
  - change (String c s ++ p)%string with (String c (s ++ p)%string).
    cbn [endswith]. rewrite IH. apply orb_true_r.
Qed.

Lemma startswith_app c s p :
  startswith (String c s ++ p) (String c EmptyString) = true.
Proof.
  change (String c s ++ p)%string with (String c (s ++ p)%string).
  unfold startswith. cbn [String.prefix]. destruct (ascii_dec c c); [|done].
  by destruct (s ++ p)%string.
Qed.

Lemma startswith_char s c :
  startswith s (String c EmptyString) = true -> exists s', s = String c s'.
Proof.
  unfold startswith. destruct s as [|c' s]; [done|]. cbn [String.prefix].
  destruct (ascii_dec c c') as [<-|]; [|done]. by exists s.
Qed.

Lemma length_app_string (s t : string) :
  String.length (s ++ t) = (String.length s + String.length t)%nat.
Proof.
  induction s as [|c s IH]; [done|].
  change (String c s ++ t)%string with (String c (s ++ t)%string).
  cbn [String.length]. by rewrite IH.
Qed.

(** X17.  Whatever the text, the repaired text starts with an opening
    brace, ends with a closing brace and has at least two characters. *)
Theorem fix_json_response_braces (content : string) :
  startswith (fix_json_response content) "{" = true /\
  endswith (fix_json_response content) "}" = true /\
  (2 <= String.length (fix_json_response content))%nat.
Proof.
  unfold fix_json_response.
  set (x := strip (sub_trailing_commas
                     (sub_closing_fence (sub_json_fence 0 false content)))).
  set (y := if startswith x "{" then x else ("{" ++ x)%string).
  assert (exists y', y = String "{" y') as [y' Hy].
  { unfold y. destruct (startswith x "{") eqn:Hx.
    - by apply startswith_char.
    - by exists x. }
  rewrite Hy. destruct (endswith (String "{" y') "}") eqn:He.
  - split_and!; [by destruct y'|done|].
    destruct y' as [|c y']; [done|]. cbn [String.length]. lia.
  - split_and!.
    + apply startswith_app.
    + apply endswith_app.
    + rewrite length_app_string. cbn [String.length]. lia.
Qed.

Lemma fix_json_response_braces_witness :
  fix_json_response "no JSON here" = "{no JSON here}"%string /\
  startswith "{no JSON here}" "{" = true /\
  endswith "{no JSON here}" "}" = true.
Proof.
  assert (fix_json_response "no JSON here" = "{no JSON here}"%string) as H
    by (vm_compute; reflexivity).
  split; [exact H|]. rewrite <- H.
  destruct (fix_json_response_braces "no JSON here") as (H1 & H2 & _). by split.
Defined.

(** Whitespace and backticks. *)
Lemma space_not_tick c : is_space c = true -> c <> "`"%char.
Proof. by intros H ->. Qed.

Lemma no_tick_cons c s :
  contains "`" (String c s) = false -> c <> "`"%char /\ contains "`" s = false.
Proof.
  cbn [contains String.prefix]. destruct (ascii_dec "`" c) as [<-|Hne].
  - by destruct s.
  - rewrite orb_false_l. by split.
Qed.

Lemma all_space_cons c s :
  all_space (String c s) = true -> is_space c = true /\ all_space s = true.
Proof. cbn [all_space]. by intros [? ?]%andb_true_iff. Qed.

Lemma all_space_app s t :
  all_space (s ++ t) = all_space s && all_space t.
Proof.
  induction s as [|c s IH]; [done|].
  change (String c s ++ t)%string with (String c (s ++ t)%string).
  cbn [all_space]. by rewrite IH, andb_assoc.
Qed.

Lemma lstrip_all_space w : all_space w = true -> lstrip w = EmptyString.
Proof.
  induction w as [|c w IH]; [done|]. intros [Hc Hw]%all_space_cons.
  cbn [lstrip]. rewrite Hc. by apply IH.
Qed.

Lemma rstrip_app_space s w :
  all_space w = true -> rstrip (s ++ w) = rstrip s.
Proof.
  intros Hw. induction s as [|c s IH].
  - change (EmptyString ++ w)%string with w. destruct w as [|c w]; [done|].
    cbn [rstrip]. by rewrite Hw.
  - change (String c s ++ w)%string with (String c (s ++ w)%string).
    cbn [rstrip all_space]. rewrite all_space_app, Hw, andb_true_r.
    by rewrite IH.
Qed.

Lemma strip_app_space s w : all_space w = true -> strip (s ++ w) = strip s.
Proof.
  intros Hw. unfold strip. induction s as [|c s IH].
  - change (EmptyString ++ w)%string with w. by rewrite lstrip_all_space.
  - change (String c s ++ w)%string with (String c (s ++ w)%string).
    cbn [lstrip]. destruct (is_space c); [done|].
    by apply (rstrip_app_space (String c s)).
Qed.

Lemma closes_lstrip_app s w :
  all_space w = true -> closes (lstrip (s ++ w)) = closes (lstrip s).
Proof.
  intros Hw. induction s as [|c s IH].
  - change (EmptyString ++ w)%string with w. by rewrite lstrip_all_space.
  - change (String c s ++ w)%string with (String c (s ++ w)%string).
    cbn [lstrip]. by destruct (is_space c).
Qed.

Lemma sub_trailing_commas_space w :
  all_space w = true -> sub_trailing_commas w = w.
Proof.
  induction w as [|c w IH]; [done|]. intros [Hc Hw]%all_space_cons.
  cbn [sub_trailing_commas].
  assert (Ascii.eqb c "," = false) as ->.
  { apply Ascii.eqb_neq. by intros ->. }
  cbn [andb]. by rewrite IH.
Qed.

Lemma sub_trailing_commas_app_space s w :
  all_space w = true ->
  sub_trailing_commas (s ++ w) = (sub_trailing_commas s ++ w)%string.
Proof.
  intros Hw. induction s as [|c s IH].
  - change (EmptyString ++ w)%string with w. by apply sub_trailing_commas_space.
  - change (String c s ++ w)%string with (String c (s ++ w)%string).
    cbn [sub_trailing_commas]. rewrite closes_lstrip_app by done. rewrite IH.
    by destruct (Ascii.eqb c "," && closes (lstrip s)).
Qed.

(** Text without a backtick holds no fence. *)
Lemma sub_json_fence_no_tick s :
  contains "`" s = false -> sub_json_fence 0 false s = s.
Proof.
  induction s as [|c s IH]; [done|]. intros [Hc Hs]%no_tick_cons.
  cbn [sub_json_fence andb String.prefix].
  destruct (ascii_dec "`" c) as [<-|_]; [done|]. by rewrite IH.
Qed.

Lemma sub_closing_fence_no_tick s :
  contains "`" s = false -> sub_closing_fence s = s.
Proof.
  induction s as [|c s IH]; [done|]. intros [Hc Hs]%no_tick_cons.
  cbn [sub_closing_fence String.prefix].
  destruct (ascii_dec "`" c) as [<-|_]; [done|]. cbn [andb]. by rewrite IH.
Qed.

Lemma space_no_tick w : all_space w = true -> contains "`" w = false.
Proof.
  induction w as [|c w IH]; [done|]. intros [Hc Hw]%all_space_cons.
  cbn [contains String.prefix].
  destruct (ascii_dec "`" c) as [<-|_]; [done|]. by apply IH.
Qed.

Lemma no_tick_app s t :
  contains "`" s = false -> contains "`" t = false -> contains "`" (s ++ t) = false.
Proof.
  intros Hs Ht. induction s as [|c s IH]; [done|].
  apply no_tick_cons in Hs as [Hc Hs].
  change (String c s ++ t)%string with (String c (s ++ t)%string).
  cbn [contains String.prefix].
  destruct (ascii_dec "`" c) as [<-|_]; [done|]. by apply IH.
Qed.

Lemma substring_all s : String.substring 0 (String.length s) s = s.
Proof. induction s as [|c s IH]; [done|]. cbn. by rewrite IH. Qed.

(** The closing fence and the whitespace after it. *)
Lemma sub_closing_fence_at_end s w :
  contains "`" s = false -> all_space w = true ->
  sub_closing_fence (s ++ "```" ++ w) = s.
Proof.
  intros Hs Hw. induction s as [|c s IH].
  - change (EmptyString ++ "```" ++ w)%string
      with (String "`" (String "`" (String "`" w))).
    cbn [sub_closing_fence String.prefix]. 
    destruct (ascii_dec "`" "`"); [|done]. 
    assert (drop_str 3 (String "`" (String "`" (String "`" w))) = w) as ->.
    { unfold drop_str. cbn [String.length Nat.sub String.substring].
      rewrite Nat.sub_0_r. apply substring_all. }
    destruct w; cbn [String.prefix andb]; by rewrite Hw.
  - apply no_tick_cons in Hs as [Hc Hs].
    change (String c s ++ "```" ++ w)%string
      with (String c (s ++ "```" ++ w)%string).
    cbn [sub_closing_fence String.prefix].
    destruct (ascii_dec "`" c) as [<-|_]; [done|]. cbn [andb]. by rewrite IH.
Qed.

(** The opening fence is the only one in the text. *)
Lemma sub_json_fence_tail s w :
  contains "`" s = false -> all_space w = true ->
  sub_json_fence 0 false (s ++ "```" ++ w) = (s ++ "```" ++ w)%string.
Proof.
  intros Hs Hw. induction s as [|c s IH].
  - change (EmptyString ++ "```" ++ w)%string
      with (String "`" (String "`" (String "`" w))).
    destruct w as [|c w].
    + reflexivity.
    + apply all_space_cons in Hw as [Hc Hw].
      cbn [sub_json_fence andb String.prefix].
      destruct (ascii_dec "`" "`"); [|done].
      destruct (ascii_dec "j" c) as [<-|_]; [done|].
      destruct (ascii_dec "`" c) as [<-|_]; [done|].
      do 4 f_equal. apply sub_json_fence_no_tick. by apply space_no_tick.
  - apply no_tick_cons in Hs as [Hc Hs].
    change (String c s ++ "```" ++ w)%string
      with (String c (s ++ "```" ++ w)%string).
    cbn [sub_json_fence andb String.prefix].
    destruct (ascii_dec "`" c) as [<-|_]; [done|]. by rewrite IH.
Qed.

Lemma sub_json_fence_skip_space w s :
  all_space w = true -> sub_json_fence 0 true (w ++ s) = sub_json_fence 0 true s.
Proof.
  intros Hw. induction w as [|c w IH]; [done|].
  apply all_space_cons in Hw as [Hc Hw].
  change (String c w ++ s)%string with (String c (w ++ s)%string).
  cbn [sub_json_fence]. rewrite Hc. cbn [andb]. by apply IH.
Qed.

Lemma sub_json_fence_marker x :
  sub_json_fence 0 false ("```json" ++ x) = sub_json_fence 0 true x.
Proof.
  change ("```json" ++ x)%string
    with (String "`" (String "`" (String "`" (String "j" (String "s"
            (String "o" (String "n" x))))))).
  cbn [sub_json_fence andb].
  assert (String.prefix "```json"
            (String "`" (String "`" (String "`" (String "j" (String "s"
               (String "o" (String "n" x))))))) = true) as ->; [|done].
  cbn [String.prefix]. repeat (destruct (ascii_dec _ _); [|done]).
  by destruct x.
Qed.

Lemma sub_json_fence_nonspace c s :
  is_space c = false ->
  sub_json_fence 0 true (String c s) = sub_json_fence 0 false (String c s).
Proof. intros Hc. cbn [sub_json_fence]. by rewrite Hc. Qed.

Lemma append_assoc_string (s t u : string) :
  (s ++ t ++ u)%string = ((s ++ t) ++ u)%string.
Proof.
  induction s as [|c s IH]; [done|].
  change (String c s ++ t ++ u)%string with (String c (s ++ t ++ u)%string).
  by rewrite IH.
Qed.

(** X18.  A response wrapped in a markdown fence is unwrapped: for a body
    that starts with an opening brace and holds no backtick, the repair of
    the body between the opening fence marker and the closing one, with any
    whitespace around them, is the repair of the body alone; the parser
    then returns what the decoder makes of it. *)
Theorem fenced_response_is_unwrapped (json_loads : string -> outcome value)
  (body w1 w2 w3 : string) :
  startswith body "{" = true ->
  contains "`" body = false ->
  all_space w1 = true -> all_space w2 = true -> all_space w3 = true ->
  let fenced := ("```json" ++ w1 ++ body ++ w2 ++ "```" ++ w3)%string in
  fix_json_response fenced = fix_json_response body /\
  fix_json_response body
  = (let content := strip (sub_trailing_commas body) in
     if endswith content "}" then content else content ++ "}")%string /\
  (json_loads fenced = Raise JSONDecodeError ->
   forall data, json_loads (fix_json_response body) = Ok data ->
                parse_openai_response json_loads fenced = Ok data).
Proof.
  intros Hstart Hbody H1 H2 H3 fenced.
  assert (fix_json_response fenced = fix_json_response body) as Hfix.
  { unfold fix_json_response, fenced.
    rewrite sub_json_fence_marker, sub_json_fence_skip_space by done.
    destruct (startswith_char _ _ Hstart) as [body' ->].
    change (String "{" body' ++ w2 ++ "```" ++ w3)%string
      with (String "{" (body' ++ w2 ++ "```" ++ w3)%string).
    rewrite sub_json_fence_nonspace by reflexivity.
    change (String "{" (body' ++ w2 ++ "```" ++ w3)%string)
      with (String "{" body' ++ w2 ++ "```" ++ w3)%string.
    assert (contains "`" (String "{" body' ++ w2) = false) as Hbw
      by (apply no_tick_app; [done|by apply space_no_tick]).
    rewrite (append_assoc_string (String "{" body') w2).
    rewrite sub_json_fence_tail, sub_closing_fence_at_end by done.
    rewrite sub_trailing_commas_app_space, strip_app_space by done.
    by rewrite sub_json_fence_no_tick, sub_closing_fence_no_tick. }
  split_and!; [done| |].
  - unfold fix_json_response.
    rewrite sub_json_fence_no_tick, sub_closing_fence_no_tick by done.
    destruct (startswith_char _ _ Hstart) as [body' ->].
    cbn [sub_trailing_commas Ascii.eqb Bool.eqb andb].
    assert (strip (String "{" (sub_trailing_commas body'))
            = String "{" (rstrip (sub_trailing_commas body'))) as ->.
    { unfold strip. cbn [lstrip]. 
      assert (is_space "{" = false) as -> by reflexivity. 
      cbn [rstrip all_space]. 
      by assert (is_space "{" = false) as -> by reflexivity. }
    assert (startswith (String "{" (rstrip (sub_trailing_commas body'))) "{" = true)
      as ->; [|done].
    unfold startswith. cbn [String.prefix]. 
    destruct (ascii_dec "{" "{"); [|done]. by destruct (rstrip _).
  - intros Hraise data Hdata. unfold parse_openai_response.
    by rewrite Hraise, Hfix, Hdata.
Qed.

Lemma fenced_response_is_unwrapped_witness :
  parse_openai_response JsonText.loads fenced_events
  = Ok (VDict [("events", VList [])]%string).
Proof.
  destruct (fenced_response_is_unwrapped JsonText.loads events_body
              OpenAIService.newline OpenAIService.newline EmptyString)
    as (_ & _ & H); [reflexivity..|].
  apply H; vm_compute; reflexivity.
Defined.

End ParserMore.

(** ** The provider client: embeddings, batches and the retry budget *)

Module EmbeddingsSpec.
Import OpenAIService Embeddings Examples MoreExamples.
Local Open Scope nat_scope.

(** *** The retry loop *)

Section Loop.
Context {S A : Type}.
Variable fn : S -> outcome A * S.
Variable sleep : Z -> S -> S.

(** A function whose exceptions the retry predicate rejects is called once. *)
Lemma attempts_once cfg fuel n st :
  (forall e st', fn st = (Raise e, st') -> retry cfg e = false) ->
  attempts cfg fn sleep fuel n st = fn st.
Proof.
  intros H. destruct fuel; cbn [attempts];
    (destruct (fn st) as [[a|e] st'] eqn:Hfn; [done|];
     by rewrite (H e st' eq_refl)).
Qed.

(** Under the configuration of the module the loop stops at the third
    attempt: fuel for two further attempts is all it uses. *)
Lemma attempts_fuel fuel st :
  2 <= fuel ->
  attempts get_openai_retry_config fn sleep fuel 1 st
  = attempts get_openai_retry_config fn sleep 2 1 st.
Proof.
  intros Hfuel. destruct fuel as [|[|fuel]]; [lia..|].
  cbn [attempts]. destruct (fn st) as [[a|e] st1]; [done|].
  destruct (negb (retry get_openai_retry_config e)); [done|].
  cbn [stop get_openai_retry_config stop_after_attempt Nat.leb].
  destruct (fn (sleep _ st1)) as [[a|e2] st2]; [done|].
  destruct (negb (retry get_openai_retry_config e2)); [done|].
  destruct fuel; cbn [attempts];
    (destruct (fn (sleep _ st2)) as [[a|e3] st3]; [done|]);
    cbn [stop get_openai_retry_config stop_after_attempt Nat.leb];
    by destruct (negb _).
Qed.

End Loop.

Section Spec.
Variable create : Embeddings.request -> nat -> outcome response.

Lemma embedding_body_raises text model w e w' :
  generate_embedding_body create text model w = (Raise e, w') ->
  exists msg, e = OpenAIServiceError msg.
Proof.
  unfold generate_embedding_body, call_provider.
  destruct (create _ _) as [[|embedding data]|x]; intros [= <- _]; by eexists.
Qed.

(** X19.  [generate_embedding] never retries either: whatever the provider
    does, it makes exactly one request and never sleeps; it returns the
    first embedding of the response, and anything else, an empty response
    included, is raised as an [OpenAIServiceError]. *)
Theorem generate_embedding_never_retries text model w :
  generate_embedding create text model w
  = generate_embedding_body create text model w /\
  requests_sent (snd (generate_embedding create text model w))
  = S (requests_sent w) /\
  slept (snd (generate_embedding create text model w)) = slept w /\
  match fst (generate_embedding create text model w) with
  | Ok embedding =>
      exists data, create (Embeddings.Request model (One text)) (requests_sent w)
                   = Ok (embedding :: data)
  | Raise e => exists msg, e = OpenAIServiceError msg
  end.
Proof.
  assert (generate_embedding create text model w
          = generate_embedding_body create text model w) as ->.
  { apply attempts_once. intros e st' [msg ->]%embedding_body_raises. done. }
  split; [done|]. unfold generate_embedding_body, call_provider.
  destruct (create _ _) as [[|embedding data]|x]; cbn [fst snd requests_sent slept];
    split_and!; try done; by eexists.
Qed.

(** *** Batches *)

Lemma ceil_div_gt n b x : 0 < b -> x < (n + b - 1) / b <-> x * b < n.
Proof.
  intros Hb. split.
  - intros Hx. destruct (decide (x * b < n)) as [|Hge]; [done|].
    assert ((n + b - 1) / b < x + 1); [|lia].
    apply Nat.Div0.div_lt_upper_bound.
    rewrite Nat.mul_add_distr_l, Nat.mul_1_r, (Nat.mul_comm b x). lia.
  - intros Hx. assert (x + 1 <= (n + b - 1) / b); [|lia].
    apply Nat.div_le_lower_bound; [lia|].
    rewrite Nat.mul_add_distr_l, Nat.mul_1_r, (Nat.mul_comm b x). lia.
Qed.

Section Batches.
Variable texts : list string.
Variable model : string.
Variable b : nat.
Hypothesis b_pos : 0 < b.

Let chunk (j : nat) : list string := take b (drop (j * b) texts).
Let count : nat := (length texts + b - 1) / b.

(** The first [p] batches answered: the loop goes on with the rest, having
    sent [p] requests and slept after each of them. *)
Lemma embed_batches_prefix datas k r acc w :
  k + length datas < count ->
  (forall j data, datas !! j = Some data ->
     create (Embeddings.Request model (Many (chunk (k + j))))
       (requests_sent w + j) = Ok data) ->
  embed_batches create (map (fun j => j * b) (seq k (length datas + r)))
    texts model b acc w
  = embed_batches create (map (fun j => j * b) (seq (k + length datas) r))
      texts model b (acc ++ concat datas)
      {| requests_sent := requests_sent w + length datas;
         slept := replicate (length datas) (1 # 10)%Q ++ slept w |}.
Proof.
  revert k acc w. induction datas as [|data datas IH]; intros k acc w Hk Hans.
  - cbn [length concat replicate app plus]. rewrite !Nat.add_0_r, app_nil_r.
    by destruct w.
  - cbn [length plus seq map embed_batches]. unfold call_provider.
    pose proof (Hans 0 data eq_refl) as H0. rewrite !Nat.add_0_r in H0.
    fold (chunk k). rewrite H0.
    assert ((k * b + b <? length texts) = true) as ->.
    { apply Nat.ltb_lt. cbn [length] in Hk.
      assert (k + 1 < count) as Hc by lia.
      apply (ceil_div_gt _ _ _ b_pos) in Hc. lia. }
    rewrite (IH (Datatypes.S k)).
    + cbn [requests_sent slept Embeddings.sleep concat].
      replace (Datatypes.S k + length datas)
        with (k + Datatypes.S (length datas)) by lia.
      replace (Datatypes.S (requests_sent w) + length datas)
        with (requests_sent w + Datatypes.S (length datas)) by lia.
      rewrite <- app_assoc. do 2 f_equal.
      rewrite cons_middle, app_assoc, <- replicate_cons_app. done.
    + cbn [length] in Hk. lia.
    + intros j d Hj. cbn [requests_sent Embeddings.sleep].
      replace (Datatypes.S k + j) with (k + Datatypes.S j) by lia.
      replace (Datatypes.S (requests_sent w) + j)
        with (requests_sent w + Datatypes.S j) by lia.
      by apply Hans.
Qed.

Lemma chunks_cover m k :
  concat (map chunk (seq k m)) = take (m * b) (drop (k * b) texts).
Proof.
  revert k. induction m as [|m IH]; intros k; [done|].
  cbn [seq map concat]. rewrite IH. unfold chunk.
  replace (Datatypes.S k * b) with (k * b + b) by lia.
  by rewrite <- drop_drop, take_take_drop.
Qed.

End Batches.

(** X20.  When every batch is answered, [batch_generate_embeddings] with a
    positive batch size sends one request per batch of [batch_size]
    consecutive texts, the last batch holding the rest: the batches put
    together are the texts, the result is the answers put together in the
    order of the batches, and the call sleeps 0.1 s between two batches,
    not after the last. *)
Theorem batch_embeddings_all_answered texts model batch_size w datas :
  (0 < batch_size)%Z ->
  let b := Z.to_nat batch_size in
  length datas = (length texts + b - 1) / b ->
  (forall j data, datas !! j = Some data ->
     create (Embeddings.Request model (Many (take b (drop (j * b) texts))))
       (requests_sent w + j) = Ok data) ->
  batch_generate_embeddings create texts model batch_size w
  = (Ok (concat datas),
     {| requests_sent := requests_sent w + length datas;
        slept := replicate (length datas - 1) (1 # 10)%Q ++ slept w |}) /\
  concat (map (fun j => take b (drop (j * b) texts)) (seq 0 (length datas)))
  = texts.
Proof.
  intros Hpos b Hlen Hans. assert (0 < b) as Hb by lia. split.
  - unfold batch_generate_embeddings, py_range.
    destruct (Z.eqb_spec batch_size 0) as [|_]; [lia|].
    destruct (Z.ltb_spec batch_size 0) as [|_]; [lia|].
    fold b. rewrite <- Hlen. revert Hlen Hans.
    induction datas as [|last front _] using rev_ind; intros Hlen Hans.
    { cbn [length seq map embed_batches concat Nat.sub replicate app].
      rewrite Nat.add_0_r. by destruct w. }
    rewrite length_app in *. cbn [length] in *.
    rewrite (embed_batches_prefix texts model b Hb front 0 1 [] w).
    + cbn [plus seq map embed_batches]. unfold call_provider.
      cbn [requests_sent slept].
      rewrite (Hans (length front) last) by by apply list_lookup_middle.
      assert ((length front * b + b <? length texts) = false) as ->.
      { apply Nat.ltb_ge.
        destruct (decide (length texts <= length front * b + b)) as [|Hn]; [done|].
        assert ((length front + 1) * b < length texts) as Hc by lia.
        apply (ceil_div_gt _ _ _ Hb) in Hc. lia. }
      cbn [embed_batches]. rewrite concat_app. cbn [concat app].
      rewrite app_nil_r.
      replace (requests_sent w + (length front + 1))
        with (Datatypes.S (requests_sent w + length front)) by lia.
      by replace (length front + 1 - 1) with (length front) by lia.
    + cbn [plus]. lia.
    + intros j data Hj. apply Hans. by apply lookup_app_l_Some.
  - rewrite (chunks_cover texts b Hb (length datas) 0). cbn [Nat.mul drop].
    apply take_ge. rewrite Hlen.
    destruct (decide (length texts <= (length texts + b - 1) / b * b)) as [|Hn];
      [done|].
    assert ((length texts + b - 1) / b * b < length texts) as Hc by lia.
    apply (ceil_div_gt _ _ _ Hb) in Hc. lia.
Qed.

(** X21.  The first batch the provider refuses ends the call: the
    exception is raised as an [OpenAIServiceError], no further request is
    sent, nothing is retried, and the embeddings of the batches answered
    before are not returned. *)
Theorem batch_embeddings_first_failure texts model batch_size w datas e :
  (0 < batch_size)%Z ->
  let b := Z.to_nat batch_size in
  length datas < (length texts + b - 1) / b ->
  (forall j data, datas !! j = Some data ->
     create (Embeddings.Request model (Many (take b (drop (j * b) texts))))
       (requests_sent w + j) = Ok data) ->
  create (Embeddings.Request model (Many (take b (drop (length datas * b) texts))))
    (requests_sent w + length datas) = Raise e ->
  batch_generate_embeddings create texts model batch_size w
  = (Raise (OpenAIServiceError
              ("Batch embedding generation failed: " ++ exn_str e)),
     {| requests_sent := S (requests_sent w + length datas);
        slept := replicate (length datas) (1 # 10)%Q ++ slept w |}).
Proof.
  intros Hpos b Hlen Hans Hfail. assert (0 < b) as Hb by lia.
  unfold batch_generate_embeddings, py_range.
  destruct (Z.eqb_spec batch_size 0) as [|_]; [lia|].
  destruct (Z.ltb_spec batch_size 0) as [|_]; [lia|].
  fold b.
  replace ((length texts + b - 1) / b)
    with (length datas + ((length texts + b - 1) / b - length datas)) by lia.
  rewrite (embed_batches_prefix texts model b Hb datas 0 _ [] w); [|done..].
  destruct ((length texts + b - 1) / b - length datas) as [|r] eqn:Hr; [lia|].
  cbn [plus seq map embed_batches]. unfold call_provider.
  cbn [requests_sent slept]. unfold response in *. by rewrite Hfail.
Qed.

(** X22.  A batch size that is not positive sends nothing: with 0 the call
    raises [ValueError], which the [try] inside the loop does not cover, and
    with a negative size it returns the empty list, whatever the texts. *)
Theorem nonpositive_batch_size_sends_nothing texts model batch_size w :
  (batch_size <= 0)%Z ->
  batch_generate_embeddings create texts model batch_size w
  = (if (batch_size =? 0)%Z then Raise ValueError else Ok [], w).
Proof.
  intros Hle. unfold batch_generate_embeddings, py_range.
  destruct (Z.eqb_spec batch_size 0) as [|Hne]; [done|].
  destruct (Z.ltb_spec batch_size 0) as [|]; [done|lia].
Qed.

End Spec.

Ltac earlier :=
  let j := fresh "j" in
  let Hj := fresh "Hj" in
  intros j Hj;
  do 2 (destruct j as [|j];
        [first [lia | rewrite ?Nat.add_0_r, ?Nat.add_1_r; eexists; by split]|]);
  lia.

(** X23.  The retry budget of [get_openai_retry_config]: a function under
    this configuration is called at most three times; the loop sleeps 4
    seconds before each further call, the exponential part of the waiting
    time never exceeding the floor of 4 within the budget; and when it gives
    up it raises what the last call raised. *)
Theorem retry_budget (create : OpenAIService.request -> nat -> outcome OpenAIService.response)
  (req : OpenAIService.request) (w : OpenAIService.world) (fuel : nat) :
  2 <= fuel ->
  let run := attempts get_openai_retry_config
               (OpenAIService.call_provider create req) OpenAIService.sleep fuel 1 w in
  exists calls,
    1 <= calls <= 3 /\
    OpenAIService.requests_sent (snd run) = OpenAIService.requests_sent w + calls /\
    OpenAIService.slept (snd run)
    = replicate (calls - 1) 4%Z ++ OpenAIService.slept w /\
    fst run = create req (OpenAIService.requests_sent w + (calls - 1)) /\
    (forall j, j < calls - 1 ->
       exists e, create req (OpenAIService.requests_sent w + j) = Raise e /\
                 retry_if_transient e = true).
Proof.
  intros Hfuel run. subst run. rewrite attempts_fuel by done.
  set (n := OpenAIService.requests_sent w).
  remember (attempts get_openai_retry_config
              (OpenAIService.call_provider create req) OpenAIService.sleep 2 1 w)
    as run eqn:Hrun.
  cbn [attempts] in Hrun. unfold OpenAIService.call_provider in Hrun.
  cbn [OpenAIService.requests_sent OpenAIService.sleep OpenAIService.slept
       retry stop wait reraise get_openai_retry_config stop_after_attempt Nat.leb]
    in Hrun.
  fold n in Hrun.
  destruct (create req n) as [a|e1] eqn:H1.
  { exists 1. subst run. cbn [fst snd OpenAIService.requests_sent
                               OpenAIService.slept Nat.sub replicate app].
    rewrite Nat.add_0_r, Nat.add_1_r, H1. split_and!; [lia..|done|done|done|earlier]. }
  destruct (retry_if_transient e1) eqn:T1; cbn [negb] in Hrun.
  2:{ exists 1. subst run. cbn [fst snd OpenAIService.requests_sent
                                 OpenAIService.slept Nat.sub replicate app].
      rewrite Nat.add_0_r, Nat.add_1_r, H1. split_and!; [lia..|done|done|done|earlier]. }
  destruct (create req (Datatypes.S n)) as [a|e2] eqn:H2.
  { exists 2. subst run. cbn [fst snd OpenAIService.requests_sent
                               OpenAIService.slept Nat.sub replicate app].
    rewrite Nat.add_1_r, H2.
    split_and!; [lia|lia|lia|done|done|earlier]. }
  destruct (retry_if_transient e2) eqn:T2; cbn [negb] in Hrun.
  2:{ exists 2. subst run. cbn [fst snd OpenAIService.requests_sent
                                 OpenAIService.slept Nat.sub replicate app].
      rewrite Nat.add_1_r, H2.
      split_and!; [lia|lia|lia|done|done|earlier]. }
  exists 3. replace (n + (3 - 1)) with (Datatypes.S (Datatypes.S n)) by lia.
  destruct (create req (Datatypes.S (Datatypes.S n))) as [a|e3] eqn:H3.
  - subst run. cbn [fst snd OpenAIService.requests_sent OpenAIService.slept
                    Nat.sub replicate app].
    split_and!; [lia|lia|lia|done|done|earlier].
  - destruct (retry_if_transient e3); cbn [negb] in Hrun; subst run;
      cbn [fst snd OpenAIService.requests_sent OpenAIService.slept
           Nat.sub replicate app];
      (split_and!; [lia|lia|lia|done|done|earlier]).
Qed.

Lemma generate_embedding_never_retries_witness :
  generate_embedding first_refused "text" "text-embedding-3-small" quiet
  = (Raise (OpenAIServiceError "Embedding generation failed: Rate limit reached"),
     {| requests_sent := 1; slept := [] |}).
Proof.
  destruct (generate_embedding_never_retries first_refused "text"
              "text-embedding-3-small" quiet) as [-> _].
  reflexivity.
Defined.

Lemma batch_embeddings_all_answered_witness :
  batch_generate_embeddings length_embeddings five_texts "m" 2 quiet
  = (Ok [[1%Q]; [2%Q]; [3%Q]; [4%Q]; [5%Q]],
     {| requests_sent := 3; slept := [(1 # 10)%Q; (1 # 10)%Q] |}).
Proof.
  destruct (batch_embeddings_all_answered length_embeddings five_texts "m" 2 quiet
              [[[1%Q]; [2%Q]]; [[3%Q]; [4%Q]]; [[5%Q]]]) as [H _];
    [lia | reflexivity | | exact H].
  intros j data Hj. destruct j as [|[|[|j]]]; [| | |done];
    injection Hj as <-; reflexivity.
Defined.

Lemma batch_embeddings_first_failure_witness :
  batch_generate_embeddings second_refused five_texts "m" 2 quiet
  = (Raise (OpenAIServiceError
              "Batch embedding generation failed: Rate limit reached"),
     {| requests_sent := 2; slept := [(1 # 10)%Q] |}).
Proof.
  apply (batch_embeddings_first_failure second_refused five_texts "m" 2 quiet
           [[[1%Q]; [2%Q]]] (RateLimitError "Rate limit reached"));
    [lia | vm_compute; lia | | reflexivity].
  intros j data Hj. destruct j as [|j]; [|done]. injection Hj as <-. reflexivity.
Defined.

Lemma nonpositive_batch_size_sends_nothing_witness :
  batch_generate_embeddings length_embeddings five_texts "m" (-1) quiet
  = (Ok [], quiet) /\
  batch_generate_embeddings length_embeddings five_texts "m" 0 quiet
  = (Raise ValueError, quiet).
Proof.
  split.
  - apply (nonpositive_batch_size_sends_nothing length_embeddings five_texts
             "m" (-1) quiet). lia.
  - apply (nonpositive_batch_size_sends_nothing length_embeddings five_texts
             "m" 0 quiet). lia.
Defined.

Lemma retry_budget_witness :
  exists calls,
    1 <= calls <= 3 /\
    OpenAIService.requests_sent
      (snd (attempts get_openai_retry_config
              (OpenAIService.call_provider (flaky answer)
                 (completion_request "gpt-4" "<html></html>" "prompt" (1 # 10)))
              OpenAIService.sleep 5 1 fresh))
    = 0 + calls.
Proof.
  destruct (retry_budget (flaky answer)
              (completion_request "gpt-4" "<html></html>" "prompt" (1 # 10))
              fresh 5) as (calls & Hc & Hreq & _); [lia|].
  exists calls. by split.
Defined.

End EmbeddingsSpec.

(** ** Whitespace normalisation and truncation *)

Module HtmlProcessorSpec.
Import HtmlProcessor MoreExamples.

Lemma space_is_space : is_space " " = true.
Proof. reflexivity. Qed.

Lemma newline_is_space : is_space newline = true.
Proof. reflexivity. Qed.

(** The first substitution leaves single spaces only. *)
Lemma sub_ws_runs_single_spaced b s : single_spaced b (sub_ws_runs b s) = true.
Proof.
  revert b. induction s as [|c s IH]; intros b; [done|].
  cbn [sub_ws_runs]. destruct (is_space c) eqn:Hc.
  - destruct b; [apply IH|]. cbn [single_spaced]. rewrite space_is_space.
    cbn [negb andb Ascii.eqb Bool.eqb]. apply IH.
  - cbn [single_spaced]. rewrite Hc. apply IH.
Qed.

Lemma single_spaced_fixed b s :
  single_spaced b s = true -> sub_ws_runs b s = s.
Proof.
  revert b. induction s as [|c s IH]; intros b; [done|].
  cbn [single_spaced sub_ws_runs]. destruct (is_space c) eqn:Hc.
  - intros [[Hb Heq%Ascii.eqb_eq]%andb_true_iff Hs]%andb_true_iff.
    destruct b; [done|]. subst c. by rewrite IH.
  - intros Hs. by rewrite IH.
Qed.

(** Single-spaced text holds no newline. *)
Lemma single_spaced_cons b c s :
  single_spaced b (String c s) = true ->
  Ascii.eqb c newline = false /\
  exists b', single_spaced b' s = true.
Proof.
  cbn [single_spaced]. destruct (is_space c) eqn:Hc.
  - intros [[_ Heq%Ascii.eqb_eq]%andb_true_iff Hs]%andb_true_iff.
    subst c. split; [done|]. by exists true.
  - intros Hs. split; [|by exists false].
    apply Ascii.eqb_neq. intros ->. by rewrite newline_is_space in Hc.
Qed.

Lemma split_on_single_spaced b s :
  single_spaced b s = true -> split_on newline s = [s].
Proof.
  revert b. induction s as [|c s IH]; intros b Hs; [done|].
  destruct (single_spaced_cons _ _ _ Hs) as [Hc [b' Hs']].
  cbn [split_on]. rewrite Hc. by rewrite (IH b' Hs').
Qed.

Lemma sub_newline_runs_single_spaced b n s :
  single_spaced b s = true -> sub_newline_runs n s = s.
Proof.
  revert b n. induction s as [|c s IH]; intros b n Hs; [done|].
  destruct (single_spaced_cons _ _ _ Hs) as [Hc [b' Hs']].
  cbn [sub_newline_runs]. rewrite Hc. by rewrite (IH b' 0%nat Hs').
Qed.

(** Stripping keeps text single-spaced, and stripping twice is stripping
    once. *)
Lemma single_spaced_weaken b s :
  single_spaced b s = true -> single_spaced false s = true.
Proof.
  destruct s as [|c s]; [done|]. cbn [single_spaced].
  destruct (is_space c); [|done]. by destruct b.
Qed.

Lemma single_spaced_lstrip b s :
  single_spaced b s = true -> single_spaced false (lstrip s) = true.
Proof.
  revert b. induction s as [|c s IH]; intros b; [done|].
  cbn [lstrip]. destruct (is_space c) eqn:Hc.
  - cbn [single_spaced]. rewrite Hc.
    intros [_ Hs]%andb_true_iff. by apply (IH true).
  - apply single_spaced_weaken.
Qed.

Lemma single_spaced_rstrip b s :
  single_spaced b s = true -> single_spaced b (rstrip s) = true.
Proof.
  revert b. induction s as [|c s IH]; intros b; [done|].
  cbn [rstrip all_space]. destruct (is_space c && all_space s); [done|].
  cbn [single_spaced]. destruct (is_space c).
  - intros [Hbc Hs]%andb_true_iff. rewrite Hbc. by apply IH.
  - apply IH.
Qed.

Lemma single_spaced_strip b s :
  single_spaced b s = true -> single_spaced false (strip s) = true.
Proof.
  intros Hs. unfold strip. eapply single_spaced_rstrip, single_spaced_lstrip, Hs.
Qed.

Lemma all_space_rstrip s : all_space (rstrip s) = all_space s.
Proof.
  induction s as [|c s IH]; [done|]. cbn [rstrip].
  destruct (all_space (String c s)) eqn:Ha; [done|].
  cbn [all_space] in *. by rewrite IH.
Qed.

Lemma rstrip_twice s : rstrip (rstrip s) = rstrip s.
Proof.
  induction s as [|c s IH]; [done|]. cbn [rstrip].
  destruct (all_space (String c s)) eqn:Ha; [done|].
  cbn [rstrip all_space] in *. by rewrite all_space_rstrip, Ha, IH.
Qed.

Lemma lstrip_rstrip_lstrip s : lstrip (rstrip (lstrip s)) = rstrip (lstrip s).
Proof.
  induction s as [|c s IH]; [done|]. cbn [lstrip].
  destruct (is_space c) eqn:Hc; [done|].
  cbn [rstrip all_space]. rewrite Hc. cbn [andb lstrip]. by rewrite Hc.
Qed.

Lemma strip_twice s : strip (strip s) = strip s.
Proof. unfold strip. by rewrite lstrip_rstrip_lstrip, rstrip_twice. Qed.

(** X24.  [normalize_whitespace] is its first substitution followed by a
    strip: after every run of whitespace has become one space no newline is
    left, so that the line-by-line strip and the substitution of newline runs
    change nothing.  The result holds no whitespace but single spaces between
    words, none at either end, and normalising it again changes nothing. *)
Theorem normalize_whitespace_collapses (text : string) :
  normalize_whitespace text = strip (sub_ws_runs false text) /\
  single_spaced false (normalize_whitespace text) = true /\
  strip (normalize_whitespace text) = normalize_whitespace text /\
  normalize_whitespace (normalize_whitespace text) = normalize_whitespace text.
Proof.
  assert (forall t, normalize_whitespace t = strip (sub_ws_runs false t)) as Hn.
  { intros t. unfold normalize_whitespace.
    pose proof (sub_ws_runs_single_spaced false t) as Hs.
    rewrite (split_on_single_spaced _ _ Hs). cbn [map join].
    rewrite (sub_newline_runs_single_spaced false 0%nat)
      by by apply (single_spaced_strip false).
    apply strip_twice. }
  assert (single_spaced false (normalize_whitespace text) = true) as Hs.
  { rewrite Hn. apply (single_spaced_strip false), sub_ws_runs_single_spaced. }
  split_and!; [apply Hn|done|by rewrite Hn, strip_twice|].
  rewrite (Hn (normalize_whitespace text)).
  rewrite (single_spaced_fixed _ _ Hs). by rewrite Hn, strip_twice.
Qed.

Lemma normalize_whitespace_collapses_witness :
  normalize_whitespace two_lines = "AI Summit 2024 San Francisco"%string.
Proof.
  destruct (normalize_whitespace_collapses two_lines) as [-> _].
  vm_compute. reflexivity.
Defined.

(** *** Truncation *)

Lemma length_take_le n s : (String.length (take_str n s) <= n)%nat.
Proof.
  unfold take_str. revert n. induction s as [|c s IH]; intros n.
  - destruct n; cbn; lia.
  - destruct n as [|n]; [cbn; lia|].
    cbn [String.substring String.length]. specialize (IH n). lia.
Qed.

Lemma take_str_short n s : (String.length s <= n)%nat -> take_str n s = s.
Proof.
  unfold take_str. revert n. induction s as [|c s IH]; intros n H.
  - by destruct n.
  - destruct n as [|n]; [cbn in H; lia|].
    cbn [String.substring String.length] in *. rewrite IH; [done|lia].
Qed.

Lemma take_str_app n s t :
  (n <= String.length s)%nat -> take_str n (take_str n s ++ t) = take_str n s.
Proof.
  unfold take_str. revert n. induction s as [|c s IH]; intros n H.
  - destruct n; [|cbn in H; lia]. cbn [String.substring].
    change (EmptyString ++ t)%string with t. by destruct t.
  - destruct n as [|n].
    + cbn [String.substring]. change (EmptyString ++ t)%string with t.
      by destruct t.
    + cbn [String.substring String.length] in *.
      change (String c (String.substring 0 n s) ++ t)%string
        with (String c (String.substring 0 n s ++ t)%string).
      cbn [String.substring]. rewrite IH; [done|lia].
Qed.

Section Preprocess.
Variable cleaned_markup : string -> outcome string.
Variable extract_structured_data : string -> outcome value.
Variable format_structured_data_hints : value -> outcome string.

(** X25.  Whenever [preprocess_html] returns, the text has at most 50024
    characters, the limit and the truncation marker; when the page holds no
    structured data, the text agrees with the normalised markup on the first
    50000 characters and is that markup, whole, if it has at most 50000
    characters. *)
Theorem preprocess_html_bounded html_content out :
  preprocess_html cleaned_markup extract_structured_data
    format_structured_data_hints html_content = Ok out ->
  (Z.of_nat (String.length out) <= 50024)%Z /\
  forall markup structured_data,
    cleaned_markup html_content = Ok markup ->
    extract_structured_data html_content = Ok structured_data ->
    truthy structured_data = false ->
    take_str character_limit out
    = take_str character_limit (normalize_whitespace markup) /\
    ((Z.of_nat (String.length (normalize_whitespace markup)) <= 50000)%Z ->
     out = normalize_whitespace markup).
Proof.
  unfold preprocess_html, clean_html.
  destruct (cleaned_markup html_content) as [markup|]; [|done].
  cbn [mbind outcome_bind].
  destruct (extract_structured_data html_content) as [structured_data|]; [|done].
  cbn [mbind outcome_bind].
  set (full := if truthy structured_data then _ else _).
  destruct full as [text|] eqn:Hfull; [|done]. cbn [mbind outcome_bind].
  intros [= <-]. split.
  - destruct (Nat.ltb_spec character_limit (String.length text)) as [Hlong|Hshort];
      unfold character_limit in *; [|lia].
    rewrite ParserMore.length_app_string.
    pose proof (length_take_le (Z.to_nat 50000) text).
    change (String.length truncation_marker) with 24%nat. lia.
  - intros m sd [= <-] [= <-] Hfalsy. unfold full in Hfull.
    rewrite Hfalsy in Hfull. injection Hfull as <-.
    destruct (Nat.ltb_spec character_limit
                (String.length (normalize_whitespace markup))) as [Hlong|Hshort].
    + split; [|unfold character_limit in *; lia]. apply take_str_app. lia.
    + done.
Qed.

End Preprocess.

Lemma preprocess_html_bounded_witness :
  preprocess_html (fun html => Ok html) (fun _ => Ok (VDict []))
    (fun _ => Ok EmptyString) two_lines
  = Ok "AI Summit 2024 San Francisco"%string /\
  (Z.of_nat (String.length "AI Summit 2024 San Francisco") <= 50024)%Z.
Proof.
  assert (preprocess_html (fun html => Ok html) (fun _ => Ok (VDict []))
            (fun _ => Ok EmptyString) two_lines
          = Ok "AI Summit 2024 San Francisco"%string) as H
    by (vm_compute; reflexivity).
  split; [exact H|]. by destruct (preprocess_html_bounded _ _ _ _ _ H).
Defined.

End HtmlProcessorSpec.

(** ** The extraction pipeline: cache hits, bypass and failures *)

Module ExtractionSpec.
Import ConfidenceScorer Aggregates Parser Extraction.
Import MemoryCacheFacts MemoryCacheSpec ParserSpec FilterMore.
Import Examples MoreExamples.

Lemma from_cache_to_cache_format r :
  from_cache (to_cache_format r) true
  = Ok {| extracted_data := extracted_data r;
          confidence_scores := confidence_scores r;
          processing_time := processing_time r;
          cache_hit := true;
          model_used := model_used r;
          usage_stats := usage_stats r |}.
Proof. by destruct r. Qed.

(** What [CacheService] does to the in-process backend. *)
Lemma service_get_backend now key (c : CacheService.t value) :
  CacheService.backend (snd (CacheService.get now key c))
  = snd (MemoryCache.get now key (CacheService.backend c)) /\
  CacheService.ttl (snd (CacheService.get now key c)) = CacheService.ttl c.
Proof.
  unfold CacheService.get.
  by destruct (MemoryCache.get now key (CacheService.backend c)) as [[r|e] b].
Qed.

Lemma service_set_backend now key v ttl (c : CacheService.t value) :
  CacheService.backend (snd (CacheService.set now key v ttl c))
  = snd (MemoryCache.set now key v
           (CacheService.ttl_or_default ttl (CacheService.ttl c))
           (CacheService.backend c)) /\
  CacheService.ttl (snd (CacheService.set now key v ttl c)) = CacheService.ttl c.
Proof.
  unfold CacheService.set.
  by destruct (MemoryCache.set now key v _ (CacheService.backend c)) as [[r|e] b].
Qed.

(** [get] never adds to the store. *)
Lemma get_store_shrinks {V} now key (s : MemoryCache.t V) k e :
  MemoryCache._cache (snd (MemoryCache.get now key s)) !! k = Some e ->
  MemoryCache._cache s !! k = Some e.
Proof.
  unfold MemoryCache.get. destruct (MemoryCache._cache s !! key) as [e0|] eqn:He;
    [|done].
  destruct (MemoryCache.expired now e0).
  - unfold MemoryCache._remove_key. rewrite He.
    assert (forall m : gmap string (MemoryCache.cache_entry V),
              base.delete key m !! k = Some e -> m !! k = Some e) as Hdel.
    { intros m H. apply lookup_delete_Some in H as [_ H]. done. }
    case_bool_decide.
    + destruct (list_remove key (MemoryCache._access_order s)); cbn; apply Hdel.
    + cbn. apply Hdel.
  - by destruct (list_remove key (MemoryCache._access_order s)).
Qed.

Section Spec.
Variable sha256_hexdigest : string -> string.
Variable soup_normalized : string -> outcome string.
Variable preprocess_html : string -> outcome string.
Variable get_extraction_prompt : string -> string.
Variable create : OpenAIService.request -> nat -> outcome OpenAIService.response.
Variable self_model : string.
Variable json_loads : string -> outcome value.

Local Abbreviation extract_content :=
  (extract_content sha256_hexdigest soup_normalized preprocess_html
     get_extraction_prompt create self_model json_loads).
Local Abbreviation extract_fresh :=
  (extract_fresh preprocess_html get_extraction_prompt create self_model
     json_loads).
Local Abbreviation cache_key html kind :=
  (CacheService.generate_cache_key sha256_hexdigest soup_normalized html kind).

(** A fresh extraction sends one request when the preprocessing returns,
    none otherwise; it leaves the cache alone unless it returns and the cache
    is in use, and then it stores the result under the key. *)
Lemma extract_fresh_effects html kind use_cache threshold key t st :
  OpenAIService.requests_sent (provider (snd (extract_fresh html kind use_cache threshold key t st)))
  = (if is_ok (preprocess_html html)
     then S (OpenAIService.requests_sent (provider st))
     else OpenAIService.requests_sent (provider st)) /\
  match fst (extract_fresh html kind use_cache threshold key t st) with
  | Ok r =>
      cache_hit r = false /\ truthy (extracted_data r) = true /\
      cache (snd (extract_fresh html kind use_cache threshold key t st))
      = if use_cache
        then snd (CacheService.set (written_at t) key (to_cache_format r) None
                    (cache st))
        else cache st
  | Raise _ =>
      cache (snd (extract_fresh html kind use_cache threshold key t st)) = cache st
  end.
Proof.
  unfold Extraction.extract_fresh.
  destruct (preprocess_html html) as [cleaned|e]; [|done]. cbn [is_ok].
  pose proof (OpenAIServiceSpec.extract_content_is_body create self_model cleaned
                (get_extraction_prompt kind) (1 # 10) (provider st)) as Hbody.
  destruct (OpenAIService.extract_content create self_model cleaned
              (get_extraction_prompt kind) (1 # 10) (provider st))
    as [response w] eqn:Hcall.
  assert (OpenAIService.requests_sent w
          = S (OpenAIService.requests_sent (provider st))) as Hw.
  { symmetry in Hbody. unfold OpenAIService.extract_content_body,
      OpenAIService.call_provider in Hbody.
    destruct (create _ _); by injection Hbody as _ <-. }
  destruct response as [openai_response|e]; [|done].
  destruct (parse_openai_response json_loads _) as [data|e]; [|done].
  destruct (validate_and_filter data threshold) as [filtered|e] eqn:Hf; [|done].
  cbn [mbind outcome_bind].
  destruct (confidence_scores_of filtered) as [scores|e]; [|done].
  cbn [mbind outcome_bind fst snd provider cache cache_hit extracted_data].
  assert (truthy filtered = true) as Htruthy.
  { destruct data as [| | | | | |d]; try done.
    by apply validate_and_filter_inv in Hf as (ek & sk & ck & -> & _). }
  rewrite Htruthy, andb_true_r. by split_and!.
Qed.

(** X27.  With [use_cache] off, [extract_content] neither reads nor writes
    the cache, whatever happens: the cache is left exactly as it was, and a
    request is sent to the provider whenever the preprocessing returns. *)
Theorem use_cache_off_bypasses_cache html url kind threshold t st :
  cache (snd (extract_content html url kind false threshold t st)) = cache st /\
  (is_ok (preprocess_html html) = true ->
   OpenAIService.requests_sent
     (provider (snd (extract_content html url kind false threshold t st)))
   = S (OpenAIService.requests_sent (provider st))) /\
  match fst (extract_content html url kind false threshold t st) with
  | Ok r => cache_hit r = false
  | Raise _ => True
  end.
Proof.
  unfold Extraction.extract_content.
  destruct (extract_fresh_effects html kind false threshold (cache_key html kind)
              t st) as [Hreq Hres].
  split_and!.
  - by destruct (fst (extract_fresh _ _ _ _ _ _ _)) as [r|e];
      [destruct Hres as (_ & _ & ->)|].
  - intros Hok. by rewrite Hreq, Hok.
  - by destruct (fst (extract_fresh _ _ _ _ _ _ _)) as [r|e];
      [destruct Hres as (? & _)|].
Qed.

(** The result of a fresh extraction with the cache in use can be read
    back from the cache until the entry expires. *)
Lemma fresh_result_is_stored h html url kind threshold t st r st1 now :
  MemoryCache.reachable h ->
  MemoryCache.cur h = CacheService.backend (cache st) ->
  0 < MemoryCache.max_size (MemoryCache.cur h) ->
  extract_content html url kind true threshold t st = (Ok r, st1) ->
  cache_hit r = false ->
  (CacheService.ttl (cache st) = 0 \/
   (0 < CacheService.ttl (cache st) /\
    (now - written_at t <= inject_Z (CacheService.ttl (cache st)))%Q)) ->
  exists c2,
    CacheService.get now (cache_key html kind) (cache st1)
    = (Some (to_cache_format r), c2).
Proof.
  intros Hreach Hcur Hmax Hfirst Hfresh Httl.
  set (key := cache_key html kind).
  (* the first call took the fresh path *)
  assert (exists c, c = snd (CacheService.get (read_at t) key (cache st)) /\
            extract_fresh html kind true threshold key t
              {| cache := c; provider := provider st |} = (Ok r, st1))
    as (c & Hc & Hrun).
  { exists (snd (CacheService.get (read_at t) key (cache st))). split; [done|].
    unfold Extraction.extract_content in Hfirst. fold key in Hfirst.
    destruct (CacheService.get (read_at t) key (cache st)) as [[cached|] c0];
      cbn [snd]; [|done].
    destruct (truthy cached); [|done].
    injection Hfirst as Hhit _. unfold from_cache in Hhit.
    destruct (as_dict cached); [|done]. cbn [mbind outcome_bind] in Hhit.
    injection Hhit as <-. done. }
  destruct (extract_fresh_effects html kind true threshold key t
              {| cache := c; provider := provider st |}) as [_ Hres].
  rewrite Hrun in Hres. cbn [fst snd cache] in Hres.
  destruct Hres as (_ & Htruthy & Hcache).
  (* the backend after the lookup and the store *)
  set (h1 := MemoryCache.log_step (MemoryCache.OpGet (read_at t) key) h).
  assert (MemoryCache.cur h1 = CacheService.backend c) as Hcur1.
  { rewrite Hc, (proj1 (service_get_backend _ _ _)), <- Hcur. done. }
  assert (MemoryCache.wf h1) as Hwf1
    by (apply reachable_wf, reachable_step, Hreach).
  assert (0 < MemoryCache.max_size (MemoryCache.cur h1)) as Hmax1.
  { unfold h1. cbn [MemoryCache.cur MemoryCache.log_step].
    by rewrite max_size_step. }
  assert (CacheService.ttl c = CacheService.ttl (cache st)) as Httl_c.
  { rewrite Hc. apply service_get_backend. }
  destruct (set_succeeds h1 (written_at t) key (to_cache_format r)
              (CacheService.ttl_or_default None (CacheService.ttl c))
              Hwf1 Hmax1) as (_ & Hcons & Hentry).
  rewrite Hcur1 in Hcons, Hentry.
  rewrite <- (proj1 (service_set_backend _ _ _ None c)), <- Hcache in Hcons, Hentry.
  (* reading it back *)
  assert (MemoryCache.expired now
            (MemoryCache.CacheEntry (to_cache_format r)
               (CacheService.ttl_or_default None (CacheService.ttl c))
               (written_at t)) = false) as Hlive.
  { rewrite Httl_c. unfold CacheService.ttl_or_default, MemoryCache.expired.
    cbn [MemoryCache.ttl_truthy MemoryCache.ttl MemoryCache.created_at].
    destruct Httl as [->|[Hpos Hle]]; [done|].
    apply andb_false_iff. right. apply negb_false_iff. by apply Qle_bool_iff. }
  destruct (get_hit now key _ _ Hcons Hentry Hlive) as (l1 & l2 & _ & Hget).
  unfold CacheService.get. rewrite Hget. cbn [MemoryCache.value]. by eexists.
Qed.

(** X26.  A fresh extraction with [use_cache] on is stored, and the next
    call for the same content and extraction type is a cache hit as long as
    the entry has not expired: it returns the stored result, with [cache_hit]
    set, without sending a request.  The key holds neither the URL nor the
    confidence threshold, so the hit returns the data filtered with the
    threshold of the first call, whatever threshold the second call asks
    for. *)
Theorem repeated_extraction_is_cache_hit h html url kind threshold t st r st1
    url' threshold' t' :
  MemoryCache.reachable h ->
  MemoryCache.cur h = CacheService.backend (cache st) ->
  0 < MemoryCache.max_size (MemoryCache.cur h) ->
  extract_content html url kind true threshold t st = (Ok r, st1) ->
  cache_hit r = false ->
  (CacheService.ttl (cache st) = 0 \/
   (0 < CacheService.ttl (cache st) /\
    (read_at t' - written_at t <= inject_Z (CacheService.ttl (cache st)))%Q)) ->
  exists st2,
    extract_content html url' kind true threshold' t' st1
    = (Ok {| extracted_data := extracted_data r;
             confidence_scores := confidence_scores r;
             processing_time := processing_time r;
             cache_hit := true;
             model_used := model_used r;
             usage_stats := usage_stats r |}, st2) /\
    provider st2 = provider st1.
Proof.
  intros Hreach Hcur Hmax Hfirst Hfresh Httl.
  destruct (fresh_result_is_stored h html url kind threshold t st r st1
              (read_at t') Hreach Hcur Hmax Hfirst Hfresh Httl) as [c2 Hget].
  unfold Extraction.extract_content. rewrite Hget.
  assert (truthy (to_cache_format r) = true) as -> by done.
  rewrite from_cache_to_cache_format. eexists. by split.
Qed.

(** X29.  A response that does not decode even after the repair is no
    failure: without a cache entry for the key, [extract_content] returns the
    empty structure flagged as failed, with every confidence score 0, after
    one request; and with [use_cache] on it stores that result, which can be
    read back from the cache until the entry expires. *)
Theorem undecodable_response_is_cached h html url kind threshold t st cleaned
    response now :
  MemoryCache.reachable h ->
  MemoryCache.cur h = CacheService.backend (cache st) ->
  0 < MemoryCache.max_size (MemoryCache.cur h) ->
  fst (CacheService.get (read_at t) (cache_key html kind) (cache st)) = None ->
  preprocess_html html = Ok cleaned ->
  create (OpenAIService.completion_request self_model cleaned
            (get_extraction_prompt kind) (1 # 10))
    (OpenAIService.requests_sent (provider st)) = Ok response ->
  json_loads (OpenAIService.content response) = Raise JSONDecodeError ->
  (forall data,
      json_loads (fix_json_response (OpenAIService.content response)) <> Ok data) ->
  (CacheService.ttl (cache st) = 0 \/
   (0 < CacheService.ttl (cache st) /\
    (now - written_at t <= inject_Z (CacheService.ttl (cache st)))%Q)) ->
  exists r st1 c2,
    extract_content html url kind true threshold t st = (Ok r, st1) /\
    extracted_data r = failed_structure /\
    confidence_scores r
    = VDict [("overall", VFloat 0); ("events_avg", VFloat 0);
             ("speakers_avg", VFloat 0); ("companies_avg", VFloat 0)]%string /\
    OpenAIService.requests_sent (provider st1)
    = S (OpenAIService.requests_sent (provider st)) /\
    CacheService.get now (cache_key html kind) (cache st1)
    = (Some (to_cache_format r), c2).
Proof.
  intros Hreach Hcur Hmax Hmiss Hpre Hresp Hdec Hfix Httl.
  assert (exists r st1,
            extract_content html url kind true threshold t st = (Ok r, st1) /\
            cache_hit r = false /\
            extracted_data r = failed_structure /\
            confidence_scores r
            = VDict [("overall", VFloat 0); ("events_avg", VFloat 0);
                     ("speakers_avg", VFloat 0);
                     ("companies_avg", VFloat 0)]%string /\
            OpenAIService.requests_sent (provider st1)
            = S (OpenAIService.requests_sent (provider st)))
    as (r & st1 & Hrun & Hfresh & Hdata & Hscores & Hreq).
  { unfold Extraction.extract_content.
    destruct (CacheService.get (read_at t) (cache_key html kind) (cache st))
      as [cached c] eqn:Hget.
    cbn [fst] in Hmiss. subst cached.
    unfold Extraction.extract_fresh. rewrite Hpre.
    rewrite OpenAIServiceSpec.extract_content_is_body.
    unfold OpenAIService.extract_content_body, OpenAIService.call_provider.
    cbn [provider]. rewrite Hresp. cbn [OpenAIService.extracted_data].
    rewrite (undecodable_gives_failed json_loads _ Hdec Hfix).
    do 2 eexists. split_and!; [reflexivity|done..]. }
  destruct (fresh_result_is_stored h html url kind threshold t st r st1 now
              Hreach Hcur Hmax Hrun Hfresh Httl) as [c2 Hget].
  by exists r, st1, c2.
Qed.

(** X28.  How an extraction fails.  Without a usable cache entry, once the
    preprocessing has returned: a failure of the provider is raised as
    [ContentExtractionError], after one request; so is a response the parser
    raises on; but an exception of [validate_and_filter], on a response that
    decodes to an object with a field of the wrong shape, is raised as it is.
    In every case of failure nothing is stored in the cache. *)
Theorem extraction_failures html kind use_cache threshold key t st cleaned :
  preprocess_html html = Ok cleaned ->
  let req := OpenAIService.completion_request self_model cleaned
               (get_extraction_prompt kind) (1 # 10) in
  let n := OpenAIService.requests_sent (provider st) in
  let run := extract_fresh html kind use_cache threshold key t st in
  (forall e, create req n = Raise e ->
     fst run = Raise (ContentExtractionError
                        ("OpenAI API call failed: Content extraction failed: "
                         ++ exn_str e))) /\
  (forall response e,
     create req n = Ok response ->
     parse_openai_response json_loads (OpenAIService.content response) = Raise e ->
     fst run = Raise (ContentExtractionError
                        ("Failed to parse extraction response: " ++ exn_str e))) /\
  (forall response data e,
     create req n = Ok response ->
     parse_openai_response json_loads (OpenAIService.content response) = Ok data ->
     validate_and_filter data threshold = Raise e ->
     fst run = Raise e) /\
  (is_ok (fst run) = false ->
   cache (snd run) = cache st /\
   OpenAIService.requests_sent (provider (snd run)) = S n).
Proof.
  intros Hpre req n run.
  assert (run = extract_fresh html kind use_cache threshold key t st) as Hrun
    by done.
  unfold Extraction.extract_fresh in Hrun. rewrite Hpre in Hrun.
  rewrite OpenAIServiceSpec.extract_content_is_body in Hrun.
  unfold OpenAIService.extract_content_body, OpenAIService.call_provider in Hrun.
  fold req n in Hrun.
  destruct (extract_fresh_effects html kind use_cache threshold key t st)
    as [Hreq Hres].
  rewrite Hpre in Hreq. cbn [is_ok] in Hreq. fold run n in Hreq, Hres.
  split_and!.
  - intros e He. rewrite He in Hrun. by rewrite Hrun.
  - intros response e Hr Hp. rewrite Hr in Hrun.
    cbn [OpenAIService.extracted_data] in Hrun. rewrite Hp in Hrun.
    by rewrite Hrun.
  - intros response data e Hr Hp Hv. rewrite Hr in Hrun.
    cbn [OpenAIService.extracted_data] in Hrun. rewrite Hp, Hv in Hrun.
    by rewrite Hrun.
  - intros Hfail. split; [|done]. by destruct (fst run).
Qed.

End Spec.

Lemma use_cache_off_bypasses_cache_witness :
  cache (snd (pipeline (replies summit_response) "<p>AI Summit</p>"
                "https://a.example" "full" false (7 # 10) first_call idle))
  = cache idle.
Proof.
  by destruct (use_cache_off_bypasses_cache Sha256.hexdigest plain_text
                 (fun html => Ok html) (fun _ => "prompt"%string)
                 (replies summit_response) "gpt-4" JsonText.loads
                 "<p>AI Summit</p>" "https://a.example" "full" (7 # 10)
                 first_call idle) as [H _].
Defined.

Lemma repeated_extraction_is_cache_hit_witness :
  exists r st1 st2 kept,
    pipeline (replies summit_response) "<p>AI Summit</p>" "https://a.example"
      "full" true (7 # 10) first_call idle = (Ok r, st1) /\
    Datasets.entities (extracted_data r) "events" = Ok kept /\
    length kept = 1%nat /\
    pipeline (replies summit_response) "<p>AI Summit</p>" "https://b.example"
      "full" true 1 second_call st1
    = (Ok {| extracted_data := extracted_data r;
             confidence_scores := confidence_scores r;
             processing_time := processing_time r;
             cache_hit := true;
             model_used := model_used r;
             usage_stats := usage_stats r |}, st2) /\
    provider st2 = provider st1.
Proof.
  destruct (pipeline (replies summit_response) "<p>AI Summit</p>"
              "https://a.example" "full" true (7 # 10) first_call idle)
    as [[r|e] st1] eqn:Hfirst; [|vm_compute in Hfirst; discriminate].
  assert (cache_hit r = false /\
          exists kept, Datasets.entities (extracted_data r) "events" = Ok kept /\
                       length kept = 1%nat) as [Hfresh (kept & Hkept & Hlen)].
  { vm_compute in Hfirst. injection Hfirst as <- _. split; [done|].
    eexists. split; [vm_compute; reflexivity|done]. }
  destruct (repeated_extraction_is_cache_hit Sha256.hexdigest plain_text
              (fun html => Ok html) (fun _ => "prompt"%string)
              (replies summit_response) "gpt-4" JsonText.loads
              (MemoryCache.start 1000) "<p>AI Summit</p>" "https://a.example"
              "full" (7 # 10) first_call idle r st1)
    with (url' := "https://b.example"%string) (threshold' := 1%Q)
         (t' := second_call)
    as (st2 & Hsecond & Hprov);
    [by exists [] | reflexivity | reflexivity | exact Hfirst | exact Hfresh
    | right; split; [reflexivity | vm_compute; discriminate] |].
  by exists r, st1, st2, kept.
Defined.

Lemma undecodable_response_is_cached_witness :
  exists r st1 c2,
    pipeline (replies "no JSON here") "<p>AI Summit</p>" "https://a.example"
      "full" true (7 # 10) first_call idle = (Ok r, st1) /\
    extracted_data r = failed_structure /\
    CacheService.get 60
      (CacheService.generate_cache_key Sha256.hexdigest plain_text
         "<p>AI Summit</p>" "full") (cache st1)
    = (Some (to_cache_format r), c2).
Proof.
  destruct (undecodable_response_is_cached Sha256.hexdigest plain_text
              (fun html => Ok html) (fun _ => "prompt"%string)
              (replies "no JSON here") "gpt-4" JsonText.loads
              (MemoryCache.start 1000) "<p>AI Summit</p>" "https://a.example"
              "full" (7 # 10) first_call idle "<p>AI Summit</p>"
              {| OpenAIService.content := "no JSON here";
                 OpenAIService.response_model := "gpt-4";
                 OpenAIService.prompt_tokens := 100;
                 OpenAIService.completion_tokens := 50;
                 OpenAIService.total_tokens := 150 |} 60)
    as (r & st1 & c2 & Hrun & Hdata & _ & _ & Hget);
    [by exists [] | reflexivity | reflexivity | vm_compute; reflexivity
    | reflexivity | reflexivity | vm_compute; reflexivity
    | intros data H; vm_compute in H; discriminate
    | right; split; [reflexivity | vm_compute; discriminate] |].
  by exists r, st1, c2.
Defined.

Lemma extraction_failures_witness :
  fst (extract_fresh (fun html => Ok html) (fun _ => "prompt"%string) refuses
         "gpt-4" JsonText.loads "<p>AI Summit</p>" "full" true (7 # 10)
         "key" first_call idle)
  = Raise (ContentExtractionError
             "OpenAI API call failed: Content extraction failed: Rate limit reached") /\
  fst (extract_fresh (fun html => Ok html) (fun _ => "prompt"%string)
         (replies null_events) "gpt-4" JsonText.loads "<p>AI Summit</p>" "full"
         true (7 # 10) "key" first_call idle)
  = Raise TypeError.
Proof.
  split.
  - destruct (extraction_failures (fun html => Ok html)
                (fun _ => "prompt"%string) refuses "gpt-4" JsonText.loads
                "<p>AI Summit</p>" "full" true (7 # 10) "key" first_call idle
                "<p>AI Summit</p>" eq_refl) as (H & _).
    by apply (H (RateLimitError "Rate limit reached")).
  - destruct (extraction_failures (fun html => Ok html)
                (fun _ => "prompt"%string) (replies null_events) "gpt-4"
                JsonText.loads "<p>AI Summit</p>" "full" true (7 # 10) "key"
                first_call idle "<p>AI Summit</p>" eq_refl) as (_ & _ & H & _).
    eapply H; [reflexivity|vm_compute; reflexivity|vm_compute; reflexivity].
Defined.

(** *** Responses of the expected shape *)

Lemma dict_lookup_app k (d1 d2 : list (string * value)) :
  dict_lookup k (d1 ++ d2)
  = match dict_lookup k d1 with
    | Some v => Some v
    | None => dict_lookup k d2
    end.
Proof.
  induction d1 as [|[k' v] d1 IH]; [done|]. cbn [app dict_lookup].
  by destruct (String.eqb k' k).
Qed.

Lemma empty_entity_list : entity_list (VList []).
Proof. exists []. split; [done|]. by intros e ?%elem_of_nil. Qed.

(** The defaults the parser appends keep a dataset well formed. *)
Lemma well_formed_defaults d :
  well_formed d ->
  well_formed
    (d ++ map (fun key => (key, if String.eqb key "metadata"
                                then VDict [] else VList []))
            (List.filter
               (fun key => negb (bool_decide (is_Some (dict_lookup key d))))
               required_keys)).
Proof.
  intros Hwf k Hk v. rewrite dict_lookup_app.
  destruct (dict_lookup k d) as [v'|] eqn:Hd.
  - intros [= <-]. by apply (Hwf k Hk).
  - intros Hv. clear Hd. revert Hv. generalize (List.filter
      (fun key => negb (bool_decide (is_Some (dict_lookup key d)))) required_keys).
    intros keys. induction keys as [|key keys IH]; [done|].
    cbn [map dict_lookup]. destruct (String.eqb_spec key k) as [->|_]; [|done].
    intros [= <-].
    rewrite !elem_of_cons, elem_of_nil in Hk.
    destruct Hk as [->|[->|[->|[]]]]; apply empty_entity_list.
Qed.

(** The four confidence scores of a filtered dataset. *)
Lemma confidence_scores_of_filtered data threshold filtered :
  validate_and_filter (VDict data) threshold = Ok filtered ->
  exists overall events_avg speakers_avg companies_avg,
    confidence_scores_of filtered
    = Ok (VDict [("overall", VFloat overall); ("events_avg", VFloat events_avg);
                 ("speakers_avg", VFloat speakers_avg);
                 ("companies_avg", VFloat companies_avg)]%string) /\
    Forall (fun x => (0 <= x /\ x <= 1)%Q)
      [overall; events_avg; speakers_avg; companies_avg].
Proof.
  intros (ek & sk & ck & -> & He & Hs & Hc)%validate_and_filter_inv.
  destruct (Datasets.entities (VDict data) "events") as [events|]; [|done].
  destruct (Datasets.entities (VDict data) "speakers") as [speakers|]; [|done].
  destruct (Datasets.entities (VDict data) "companies") as [companies|]; [|done].
  cbn [mbind outcome_bind] in He, Hs, Hc.
  apply filter_entities_pairs in He as (pe & -> & He & _).
  apply filter_entities_pairs in Hs as (ps & -> & Hs & _).
  apply filter_entities_pairs in Hc as (pc & -> & Hc & _).
  assert (forall pairs : list (Q * list (string * value)),
            avg_confidence
              (VList (map (fun p => with_confidence (fst p) (snd p)) pairs))
            = Ok (mean (map fst pairs))) as Havg.
  { intros pairs. destruct pairs as [|p pairs]; [done|].
    unfold avg_confidence. cbn [truthy map iter_items mbind outcome_bind].
    apply (avg_confidence_retained (p :: pairs)). }
  exists (mean (map fst pe ++ map fst ps ++ map fst pc)),
    (mean (map fst pe)), (mean (map fst ps)), (mean (map fst pc)).
  split.
  - unfold confidence_scores_of. rewrite overall_of_result.
    rewrite (score_all_retained score_event score_event_ignores _ _ He).
    cbn [mbind outcome_bind].
    rewrite (score_all_retained score_speaker score_speaker_ignores _ _ Hs).
    cbn [mbind outcome_bind].
    rewrite (score_all_retained score_company score_company_ignores _ _ Hc).
    cbn [mbind outcome_bind as_dict].
    change (dict_get_default _ "events" (VList []))
      with (VList (map (fun p => with_confidence (fst p) (snd p)) pe)).
    rewrite Havg. cbn [mbind outcome_bind].
    change (dict_get_default _ "speakers" (VList []))
      with (VList (map (fun p => with_confidence (fst p) (snd p)) ps)).
    rewrite Havg. cbn [mbind outcome_bind].
    change (dict_get_default _ "companies" (VList []))
      with (VList (map (fun p => with_confidence (fst p) (snd p)) pc)).
    by rewrite Havg.
  - pose proof (retained_scores score_event threshold pe
                  ScorerBounds.score_event_bounds He) as Fe.
    assert (forall e s, score_speaker e = Ok s -> (0 <= s /\ s <= 1)%Q) as Hsb.
    { intros e s [H0 H1]%ScorerBounds.score_speaker_bounds. split; [done|lra]. }
    pose proof (retained_scores score_speaker threshold ps Hsb Hs) as Fs.
    pose proof (retained_scores score_company threshold pc
                  ScorerBounds.score_company_bounds Hc) as Fc.
    repeat apply Forall_cons_2; [..|apply Forall_nil_2];
      apply (mean_retained threshold); [|done..].
    rewrite !Forall_app. by split_and!.
Qed.

Section Returns.
Variable preprocess_html : string -> outcome string.
Variable get_extraction_prompt : string -> string.
Variable create : OpenAIService.request -> nat -> outcome OpenAIService.response.
Variable self_model : string.
Variable json_loads : string -> outcome value.

(** X30.  A response of the expected shape is always extracted: when the
    preprocessing returns, the provider answers and the answer decodes at
    once to an object whose entity lists, where present, are lists of dicts
    with text fields, the extraction returns, whatever the threshold; its
    data is the parsed response filtered, it is no cache hit, and its four
    confidence scores lie between 0 and 1. *)
Theorem well_formed_response_is_extracted html kind use_cache threshold key t st
    cleaned response d :
  preprocess_html html = Ok cleaned ->
  create (OpenAIService.completion_request self_model cleaned
            (get_extraction_prompt kind) (1 # 10))
    (OpenAIService.requests_sent (provider st)) = Ok response ->
  json_loads (OpenAIService.content response) = Ok (VDict d) ->
  well_formed d ->
  exists r st1 parsed overall events_avg speakers_avg companies_avg,
    extract_fresh preprocess_html get_extraction_prompt create self_model
      json_loads html kind use_cache threshold key t st = (Ok r, st1) /\
    parse_openai_response json_loads (OpenAIService.content response)
    = Ok parsed /\
    validate_and_filter parsed threshold = Ok (extracted_data r) /\
    cache_hit r = false /\
    confidence_scores r
    = VDict [("overall", VFloat overall); ("events_avg", VFloat events_avg);
             ("speakers_avg", VFloat speakers_avg);
             ("companies_avg", VFloat companies_avg)]%string /\
    Forall (fun x => (0 <= x /\ x <= 1)%Q)
      [overall; events_avg; speakers_avg; companies_avg].
Proof.
  intros Hpre Hresp Hdec Hwf.
  assert (parse_openai_response json_loads (OpenAIService.content response)
          = Ok (VDict (d ++ map (fun key => (key, if String.eqb key "metadata"
                                                  then VDict [] else VList []))
                              (List.filter
                                 (fun key => negb (bool_decide
                                    (is_Some (dict_lookup key d))))
                                 required_keys)))) as Hparse.
  { unfold parse_openai_response. rewrite Hdec.
    apply ParserMore.fill_defaults_appends.
    apply (bool_decide_unpack _). by vm_compute. }
  destruct (FilterSpec.validate_and_filter_returns _ threshold
              (well_formed_defaults d Hwf)) as [filtered Hf].
  destruct (confidence_scores_of_filtered _ _ _ Hf)
    as (o & e & s & c & Hscores & Hbounds).
  unfold Extraction.extract_fresh. rewrite Hpre.
  rewrite OpenAIServiceSpec.extract_content_is_body.
  unfold OpenAIService.extract_content_body, OpenAIService.call_provider.
  rewrite Hresp. cbn [OpenAIService.extracted_data].
  rewrite Hparse, Hf. cbn [mbind outcome_bind]. rewrite Hscores.
  cbn [mbind outcome_bind].
  do 3 eexists. exists o, e, s, c.
  split_and!; [reflexivity|reflexivity|exact Hf|done..].
Qed.

End Returns.

Lemma well_formed_response_is_extracted_witness :
  exists r st1,
    extract_fresh (fun html => Ok html) (fun _ => "prompt"%string)
      (replies summit_response) "gpt-4" JsonText.loads "<p>AI Summit</p>" "full"
      false (7 # 10) "key" first_call idle = (Ok r, st1) /\
    cache_hit r = false.
Proof.
  destruct (well_formed_response_is_extracted (fun html => Ok html)
              (fun _ => "prompt"%string) (replies summit_response) "gpt-4"
              JsonText.loads "<p>AI Summit</p>" "full" false (7 # 10) "key"
              first_call idle "<p>AI Summit</p>"
              {| OpenAIService.content := summit_response;
                 OpenAIService.response_model := "gpt-4";
                 OpenAIService.prompt_tokens := 100;
                 OpenAIService.completion_tokens := 50;
                 OpenAIService.total_tokens := 150 |}
              [("events",
                VList [VDict [("title", VStr "AI Summit 2024");
                              ("date", VStr "2024-06-15");
                              ("location", VStr "San Francisco, CA")]])]%string)
    as (r & st1 & _ & _ & _ & _ & _ & Hrun & _ & _ & Hfresh & _);
    [reflexivity | reflexivity | vm_compute; reflexivity | |].
  - intros k Hk v. cbn [dict_lookup].
    destruct (String.eqb "events" k); [|done]. intros [= <-].
    eexists. split; [reflexivity|]. intros e ->%list_elem_of_singleton.
    eexists. split; [reflexivity|].
    intros f x Hf _. cbn [dict_lookup] in Hf.
    repeat (destruct (String.eqb _ f); [injection Hf as <-; by eexists|]).
    done.
  - by exists r, st1.
Defined.

End ExtractionSpec.
